(** * muxet: the request pipeline of [v1.Client]

    A shallow embedding of [src/v1/muxet.go] (the [Client] type, its fluent
    setters, [resolveURL] and [DoRequest]) and of the method helpers of
    [src/v1/methods.go], followed by the properties of the pipeline.

    The Go code talks to collaborators that live outside the repository:
    [net/url], [encoding/json], [net/http], [time] and the caller's hooks,
    transport and logger.  They are gathered in the interface [Platform];
    every definition below is parametric in it.  Effects are explicit: a call
    threads a [World] that holds the state of the environment, the header
    maps that exist on the heap, the memory behind the output pointer, the
    calls registered with [defer] and a log of every interaction. *)

From Stdlib Require Import ZArith Lia List.
From stdpp Require Import base option list gmap strings fin_maps.

Local Open Scope Z_scope.
Set Warnings "-register-all".

(** Bodies travel as byte sequences; a Go [string] made from one holds the
    same bytes. *)
Abbreviation bytes := (list Byte.byte).

(** ** Machine integers *)

(** Go's [int] is taken at 64 bits, as on every 64-bit platform;
    [time.Duration] is [int64] everywhere. *)
Definition int_bits : Z := 64.

(** Two's complement reduction of an integer to the signed 64-bit range. *)
Definition wrap64 (z : Z) : Z :=
  (z + 2 ^ (int_bits - 1)) mod 2 ^ int_bits - 2 ^ (int_bits - 1).

Definition MaxInt : Z := 2 ^ (int_bits - 1) - 1.
Definition MinInt : Z := - 2 ^ (int_bits - 1).

(** [x + y] and [x * y] on [int] and on [time.Duration]. *)
Definition int_add (x y : Z) : Z := wrap64 (x + y).
Definition dur_mul (x y : Z) : Z := wrap64 (x * y).

(** [time.Duration(1 << attempt)]: the untyped constant takes the type of the
    conversion, so the shift is an [int64] shift.  A negative count panics
    ([None]); a count of 64 or more shifts every bit out. *)
Definition dur_shl1 (attempt : Z) : option Z :=
  if attempt <? 0 then None
  else if int_bits <=? attempt then Some 0
  else Some (wrap64 (Z.shiftl 1 attempt)).

(** ** Results of fallible library calls *)

Inductive result (E A : Type) : Type :=
| Ok (a : A)
| Err (e : E).
Arguments Ok {E A} a.
Arguments Err {E A} e.

(** ** The platform: what the code imports *)

Class Platform := {
  (** state of everything outside the client: the network, the clock, what
      the hooks and the logger keep *)
  Env : Type;
  (** error values made outside this package *)
  Foreign : Type;
  (** values handed in as [body any] *)
  Value : Type;
  (** what a non-string [out any] points to *)
  JTarget : Type;
  (** [context.Context] *)
  Ctx : Type;
  (** [*url.URL] *)
  url_URL : Type;
  url_Parse : string → result Foreign url_URL;
  url_IsAbs : url_URL → bool;
  (** [base.ResolveReference(ref)], base first *)
  url_ResolveReference : url_URL → url_URL → url_URL;
  url_String : url_URL → string;
  json_Marshal : Value → result Foreign bytes;
  (** [json.Unmarshal data out]: what [out] points to afterwards, and the
      error *)
  json_Unmarshal : bytes → JTarget → JTarget * option Foreign;
  (** [textproto.CanonicalMIMEHeaderKey], applied by [Header.Set] and
      [Header.Get] *)
  CanonicalMIMEHeaderKey : string → string;
  (** the checks of [http.NewRequestWithContext] on context, method and URL *)
  http_NewRequest_error : option Ctx → string → string → option Foreign;
  (** [context.WithTimeout(context.Background(), d)] *)
  context_WithTimeout : Z → Ctx;
  (** what a [time.Sleep d] does to the environment *)
  time_Sleep : Z → Env → Env;
}.

(** ** Errors *)

(** The [error] values that reach [DoRequest]'s caller.  Each [fmt.Errorf]
    of the source has its constructor; [%w] keeps the cause, [%s] and [%d]
    keep the formatted arguments. *)
Inductive error `{Platform} : Type :=
| Foreign_error (e : Foreign)
| invalid_request_URL (cause : error)
| invalid_base_URL (cause : error)
| before_request_hook_failed (cause : error)
| failed_to_marshal_body (cause : error)
| failed_to_create_request (cause : error)
| failed_to_read_response_body (cause : error)
| after_response_hook_failed (cause : error)
| HTTP_status (code : Z) (body : bytes)
| failed_to_decode_response (cause : error)
| request_failed_after (attempts : Z) (cause : option error).

(** [errors.Unwrap]. *)
Definition Unwrap `{Platform} (e : error) : option error :=
  match e with
  | Foreign_error _ | HTTP_status _ _ => None
  | invalid_request_URL c | invalid_base_URL c | before_request_hook_failed c
  | failed_to_marshal_body c | failed_to_create_request c
  | failed_to_read_response_body c | after_response_hook_failed c
  | failed_to_decode_response c => Some c
  | request_failed_after _ c => c
  end.

(** ** Data model *)

(** [io.ReadCloser] of a response body: the bytes not yet delivered and the
    error that ends the stream, if any.  A body delivers its bytes once. *)
Record ReadCloser `{Platform} := {
  unread : bytes;
  read_error : option error;
}.

(** [io.ReadAll r]: everything not yet read, the error, and the reader as
    it is left. *)
Definition io_ReadAll `{Platform} (r : ReadCloser)
  : bytes * option error * ReadCloser :=
  (unread r, read_error r, {| unread := []; read_error := read_error r |}).

(** [http.Header]. *)
Abbreviation http_Header := (gmap string (list string)).

Definition Header_Set `{Platform} (h : http_Header) (k v : string) : http_Header :=
  <[CanonicalMIMEHeaderKey k := [v]]> h.

Definition Header_Get `{Platform} (h : http_Header) (k : string) : string :=
  match h !! CanonicalMIMEHeaderKey k with
  | Some (v :: _) => v
  | _ => EmptyString
  end.

(** [*http.Request] as [DoRequest] builds it. *)
Record http_Request `{Platform} := {
  req_Context : option Ctx;
  req_Method : string;
  req_URL : string;
  req_Header : http_Header;
  req_Body : option bytes;
}.

(** What [resp *http.Response] points to. *)
Record http_Response `{Platform} := {
  resp_StatusCode : Z;
  resp_Header : http_Header;
  resp_Body : ReadCloser;
}.

(** [Request], the descriptor passed to the pre-send hook.  [Headers] holds
    the entries of the map the field refers to. *)
Record Request `{Platform} := {
  Method : string;
  URL : string;
  Headers : gmap string string;
  Body : option Value;
  Context : option Ctx;
}.

(** [Response], the descriptor passed to the post-receive hook: the values
    of its fields [StatusCode], [Headers] and [Body].  The field [Raw] is
    the pointer [resp]; what it points to is the [raw] of an [Exchange]. *)
Record Response `{Platform} := {
  StatusCode : Z;
  Response_Headers : http_Header;
  Response_Body : bytes;
}.

(** [(r *Response) JSON(out)]. *)
Definition JSON `{Platform} (r : Response) (out : JTarget)
  : JTarget * option Foreign :=
  json_Unmarshal (Response_Body r) out.

(** Everything the post-receive hook can reach through [*Response]:
    - [descriptor]: the fields of [muxResp], which it may reassign;
    - [buffer]: the array behind the slice [rawBody]; [muxResp.Body] starts
      as the same slice, so a write through it ([r.Body[i] = b]) lands
      here, while an assignment to the field ([r.Body = other]) only
      changes [descriptor];
    - [raw]: the [http.Response] behind [Raw], the one [resp] points to. *)
Record Exchange `{Platform} := {
  descriptor : Response;
  buffer : bytes;
  raw : http_Response;
}.

(** Arguments of the two [Logf] calls. *)
Inductive LogLine `{Platform} : Type :=
| Log_Request (method url : string) (attempt_number : Z)
| Log_Request_failed (err : error).

(** A map value of type [map[string]string]: [None] is the nil map, [Some l]
    the map object at [l] in the heap of header maps. *)
Abbreviation MapRef := (option positive).

(** [Client].  The transport, the logger and the hooks act on the
    environment; a hook also returns the object it was given as it leaves
    it. *)
Record Client `{Platform} := {
  client : http_Request → Env → (option http_Response * option error) * Env;
  headers : MapRef;
  timeout : Z;
  BaseURL : string;
  logger : option (LogLine → Env → Env);
  maxRetries : Z;
  backoff : Z;
  BeforeRequest : option (Request → Env → (Request * option error) * Env);
  AfterResponse : option (Exchange → Env → (Exchange * option error) * Env);
}.

(** The argument [out any]: nil ([None] of the option), a [*string], or
    any other pointer, given with what it points to. *)
Inductive Out `{Platform} : Type :=
| string_pointer
| other_pointer (pointee : JTarget).

(** What [DoRequest] wrote through [out]. *)
Inductive Stored `{Platform} : Type :=
| stored_string (s : bytes)
| stored_JSON (v : JTarget).

(** ** Effects *)

(** One entry per interaction of a call with its collaborators. *)
Inductive Event `{Platform} : Type :=
| ev_BeforeRequest (r : Request) (err : option error)
| ev_Marshal (v : Value)
| ev_Logf (line : LogLine)
| ev_Do (req : http_Request) (resp : option http_Response) (err : option error)
(** [io.ReadAll(resp.Body)] right after the transport call *)
| ev_ReadAll (data : bytes) (err : option error)
| ev_AfterResponse (r : Response) (err : option error)
(** [io.ReadAll(resp.Body)] of the non-2xx branch *)
| ev_ReadAll_again (data : bytes)
| ev_Sleep (d : Z)
| ev_Close (body : ReadCloser)
| ev_cancel.

(** Calls registered with [defer]. *)
Inductive Deferred `{Platform} : Type :=
| defer_cancel
| defer_Body_Close (body : ReadCloser).

Record World `{Platform} := {
  env : Env;
  maps : gmap positive (gmap string string);
  stored : option Stored;
  deferred : list Deferred;
  trace : list Event;
}.

(** How a call ends: with its two results, or in a panic. *)
Inductive Outcome `{Platform} : Type :=
| Returned (resp : option http_Response) (err : option error)
| Panicked (reason : string).

(** A statement either falls through with a value, or leaves the function,
    or (in the model only) the loop ran out of fuel. *)
Inductive Step `{Platform} (A : Type) : Type :=
| Next (a : A)
| Done (o : Outcome)
| OutOfFuel.
Arguments Next {_ A} a.
Arguments Done {_ A} o.
Arguments OutOfFuel {_ A}.

Definition M `{Platform} (A : Type) : Type := World → Step A * World.

#[global] Instance M_ret `{Platform} : MRet M := λ A a w, (Next a, w).

#[global] Instance M_bind `{Platform} : MBind M := λ A B f m w,
  match m w with
  | (Next a, w') => f a w'
  | (Done o, w') => (Done o, w')
  | (OutOfFuel, w') => (OutOfFuel, w')
  end.

Section Primitives.
Context `{Platform}.

(** [return resp, err]. *)
Definition return_ {A} (resp : option http_Response) (err : option error)
  : M A := λ w, (Done (Returned resp err), w).

Definition panic {A} (reason : string) : M A :=
  λ w, (Done (Panicked reason), w).

Definition out_of_fuel {A} : M A := λ w, (OutOfFuel, w).

Definition set_env (e : Env) (w : World) : World :=
  {| env := e; maps := maps w; stored := stored w;
     deferred := deferred w; trace := trace w |}.

Definition set_maps (m : gmap positive (gmap string string)) (w : World)
  : World :=
  {| env := env w; maps := m; stored := stored w;
     deferred := deferred w; trace := trace w |}.

Definition set_stored (s : option Stored) (w : World) : World :=
  {| env := env w; maps := maps w; stored := s;
     deferred := deferred w; trace := trace w |}.

Definition set_deferred (d : list Deferred) (w : World) : World :=
  {| env := env w; maps := maps w; stored := stored w;
     deferred := d; trace := trace w |}.

Definition set_trace (t : list Event) (w : World) : World :=
  {| env := env w; maps := maps w; stored := stored w;
     deferred := deferred w; trace := t |}.

Definition emit (ev : Event) : M unit :=
  λ w, (Next tt, set_trace (trace w ++ [ev]) w).

(** A call into the environment. *)
Definition call {A} (f : Env → A * Env) : M A :=
  λ w, let '(a, e) := f (env w) in (Next a, set_env e w).

Definition defer (d : Deferred) : M unit :=
  λ w, (Next tt, set_deferred (d :: deferred w) w).

Definition store (s : Stored) : M unit :=
  λ w, (Next tt, set_stored (Some s) w).

(** [make(map[string]string)]: a new, empty map object. *)
Definition make_map : M MapRef :=
  λ w, let l := fresh (dom (maps w)) in
       (Next (Some l), set_maps (<[l := ∅]> (maps w)) w).

(** The entries of a map; a nil map has none. *)
Definition entries (m : gmap positive (gmap string string)) (r : MapRef)
  : gmap string string :=
  match r with
  | Some l => default ∅ (m !! l)
  | None => ∅
  end.

Definition read_map (r : MapRef) : M (gmap string string) :=
  λ w, (Next (entries (maps w) r), w).

(** [m[k] = v]; an assignment to an entry of a nil map panics. *)
Definition map_assign (r : MapRef) (k v : string) : M unit :=
  match r with
  | Some l => λ w,
      (Next tt, set_maps (<[l := <[k := v]> (entries (maps w) r)]> (maps w)) w)
  | None => panic "assignment to entry in nil map"
  end.

(** [for k, v := range src { dst[k] = v }].  Go visits the entries in an
    order of its choosing; the keys of one map are distinct, so the order
    does not show in [dst]. *)
Definition copy_entries (src : gmap string string) (dst : MapRef) : M unit :=
  foldr (λ kv rest, _ ← map_assign dst kv.1 kv.2; rest) (mret tt)
        (map_to_list src).

(** [time.Sleep(d)]. *)
Definition Sleep (d : Z) : M unit :=
  _ ← call (λ e, (tt, time_Sleep d e)); emit (ev_Sleep d).

End Primitives.

(** ** The client *)

Section Client.
Context `{Platform}.

(** [NewClient()].  [std] stands for the [&http.Client{}] of the
    standard library. *)
Definition NewClient
    (std : http_Request → Env → (option http_Response * option error) * Env)
  : M Client :=
  h ← make_map;
  mret {| client := std; headers := h; timeout := 5 * 1000000000;
          BaseURL := EmptyString; logger := None; maxRetries := 0; backoff := 0;
          BeforeRequest := None; AfterResponse := None |}.

Definition SetTimeout (c : Client) (d : Z) : Client :=
  {| client := client c; headers := headers c; timeout := d;
     BaseURL := BaseURL c; logger := logger c; maxRetries := maxRetries c;
     backoff := backoff c; BeforeRequest := BeforeRequest c;
     AfterResponse := AfterResponse c |}.

(** [c.headers[key] = value]: a write into the client's own map. *)
Definition SetHeader (c : Client) (key value : string) : M Client :=
  _ ← map_assign (headers c) key value; mret c.

Definition SetLogger (c : Client) (l : option (LogLine → Env → Env))
  : Client :=
  {| client := client c; headers := headers c; timeout := timeout c;
     BaseURL := BaseURL c; logger := l; maxRetries := maxRetries c;
     backoff := backoff c; BeforeRequest := BeforeRequest c;
     AfterResponse := AfterResponse c |}.

Definition SetBaseURL (c : Client) (base : string) : Client :=
  {| client := client c; headers := headers c; timeout := timeout c;
     BaseURL := base; logger := logger c; maxRetries := maxRetries c;
     backoff := backoff c; BeforeRequest := BeforeRequest c;
     AfterResponse := AfterResponse c |}.

Definition SetMaxRetries (c : Client) (n : Z) : Client :=
  {| client := client c; headers := headers c; timeout := timeout c;
     BaseURL := BaseURL c; logger := logger c; maxRetries := n;
     backoff := backoff c; BeforeRequest := BeforeRequest c;
     AfterResponse := AfterResponse c |}.

Definition SetBackoff (c : Client) (d : Z) : Client :=
  {| client := client c; headers := headers c; timeout := timeout c;
     BaseURL := BaseURL c; logger := logger c; maxRetries := maxRetries c;
     backoff := d; BeforeRequest := BeforeRequest c;
     AfterResponse := AfterResponse c |}.

Definition SetBeforeRequestHook (c : Client)
    (fn : option (Request → Env → (Request * option error) * Env))
  : Client :=
  {| client := client c; headers := headers c; timeout := timeout c;
     BaseURL := BaseURL c; logger := logger c; maxRetries := maxRetries c;
     backoff := backoff c; BeforeRequest := fn;
     AfterResponse := AfterResponse c |}.

Definition SetAfterResponseHook (c : Client)
    (fn : option (Exchange → Env → (Exchange * option error) * Env))
  : Client :=
  {| client := client c; headers := headers c; timeout := timeout c;
     BaseURL := BaseURL c; logger := logger c; maxRetries := maxRetries c;
     backoff := backoff c; BeforeRequest := BeforeRequest c;
     AfterResponse := fn |}.

(** [c.resolveURL(input)]. *)
Definition resolveURL (c : Client) (input : string) : result error string :=
  match url_Parse input with
  | Err e => Err (invalid_request_URL (Foreign_error e))
  | Ok u =>
      if url_IsAbs u || bool_decide (BaseURL c = EmptyString) then Ok input
      else
        match url_Parse (BaseURL c) with
        | Err e => Err (invalid_base_URL (Foreign_error e))
        | Ok base => Ok (url_String (url_ResolveReference base u))
        end
  end.

(** [c.logger.Logf(...)] under its guard [c.logger != nil]. *)
Definition Logf (c : Client) (line : LogLine) : M unit :=
  match logger c with
  | Some l => _ ← call (λ e, (tt, l line e)); emit (ev_Logf line)
  | None => mret tt
  end.

(** [time.Sleep(c.backoff * time.Duration(1<<attempt))]. *)
Definition backoff_Sleep (c : Client) (attempt : Z) : M unit :=
  match dur_shl1 attempt with
  | Some factor => Sleep (dur_mul (backoff c) factor)
  | None => panic "negative shift amount"
  end.

(** The header of the transport request: every entry of [muxReq.Headers]
    is [Set], then the default content type.  Two keys with one canonical
    form overwrite each other in the order of the iteration, which Go
    leaves open and which is [map_fold]'s here; for keys with distinct
    canonical forms the order does not show ([header_in_any_order]). *)
Definition request_Header (muxReq : Request) : http_Header :=
  let h := map_fold (λ k v acc, Header_Set acc k v) ∅ (Headers muxReq) in
  if bool_decide (is_Some (Body muxReq))
     && bool_decide (Header_Get h "Content-Type" = EmptyString)
  then Header_Set h "Content-Type" "application/json"
  else h.

(** Lines 82 to 88: the merge.  It returns the new map [hdr]. *)
Definition merge_headers (c : Client) (hs : MapRef) : M MapRef :=
  hdr ← make_map;
  defaults ← read_map (headers c);
  _ ← copy_entries defaults hdr;
  overrides ← read_map hs;
  _ ← copy_entries overrides hdr;
  mret hdr.

(** Lines 70 to 96 of [DoRequest]: context, URL, merged headers and the
    descriptor [muxReq]. *)
Definition describe (c : Client) (ctx : option Ctx) (method rawURL : string)
    (body : option Value) (hs : MapRef) : M Request :=
  ctx ← match ctx with
        | None => _ ← defer defer_cancel;
                  mret (context_WithTimeout (timeout c))
        | Some x => mret x
        end;
  fullURL ← match resolveURL c rawURL with
            | Err e => return_ None (Some e)
            | Ok u => mret u
            end;
  hdr ← merge_headers c hs;
  merged ← read_map hdr;
  mret {| Method := method; URL := fullURL; Headers := merged;
          Body := body; Context := Some ctx |}.

(** Lines 98 to 102: the pre-send hook.  It falls through with the
    descriptor as the hook leaves it. *)
Definition before_send (c : Client) (muxReq : Request) : M Request :=
  match BeforeRequest c with
  | Some hook =>
      '(r, err) ← call (hook muxReq);
      _ ← emit (ev_BeforeRequest muxReq err);
      match err with
      | Some e => return_ None (Some (before_request_hook_failed e))
      | None => mret r
      end
  | None => mret muxReq
  end.

(** Lines 104 to 110: [origBody]. *)
Definition serialize (muxReq : Request) : M bytes :=
  match Body muxReq with
  | Some v =>
      _ ← emit (ev_Marshal v);
      match json_Marshal v with
      | Err e => return_ None (Some (failed_to_marshal_body (Foreign_error e)))
      | Ok b => mret b
      end
  | None => mret []
  end.

(** Everything before the retry loop. *)
Definition prepare (c : Client) (ctx : option Ctx) (method rawURL : string)
    (body : option Value) (hs : MapRef) : M (Request * bytes) :=
  muxReq ← describe c ctx method rawURL body hs;
  muxReq ← before_send c muxReq;
  origBody ← serialize muxReq;
  mret (muxReq, origBody).

Definition with_Body (r : http_Response) (b : ReadCloser) : http_Response :=
  {| resp_StatusCode := resp_StatusCode r; resp_Header := resp_Header r;
     resp_Body := b |}.

(** The method of the request that [http.NewRequestWithContext] makes:
    for an empty method it is [GET]. *)
Definition http_method (method : string) : string :=
  if bool_decide (method = EmptyString) then "GET" else method.

(** Lines 116 to 132: the transport request of one attempt. *)
Definition new_request (muxReq : Request) (origBody : bytes) : http_Request :=
  {| req_Context := Context muxReq; req_Method := http_method (Method muxReq);
     req_URL := URL muxReq; req_Header := request_Header muxReq;
     req_Body := match Body muxReq with
                 | Some _ => Some origBody
                 | None => None
                 end |}.

(** Lines 148 to 158: what the hook is given for a response [r] whose
    body read as [rawBody], leaving the reader as [rest]. *)
Definition exchange (r : http_Response) (rawBody : bytes) (rest : ReadCloser)
  : Exchange :=
  {| descriptor := {| StatusCode := resp_StatusCode r;
                      Response_Headers := resp_Header r;
                      Response_Body := rawBody |};
     buffer := rawBody;
     raw := with_Body r rest |}.

(** Lines 175 to 186: decoding into [out], and the [return] of a
    success. *)
Definition decode {A} (out : option Out) (rawBody : bytes)
    (resp : http_Response) : M A :=
  match out with
  | None => return_ (Some resp) None
  | Some string_pointer =>
      _ ← store (stored_string rawBody);
      return_ (Some resp) None
  | Some (other_pointer target) =>
      let '(v, err) := json_Unmarshal rawBody target in
      _ ← store (stored_JSON v);
      match err with
      | Some e => return_ (Some resp)
                    (Some (failed_to_decode_response (Foreign_error e)))
      | None => return_ (Some resp) None
      end
  end.

(** Lines 116 to 186: the body of the loop.  It falls through at the two
    [continue]s, with the new values of [resp] and [lastErr]. *)
Definition attempt_once (c : Client) (muxReq : Request) (origBody : bytes)
    (out : option Out) (attempt : Z) : M (option http_Response * error) :=
  match http_NewRequest_error (Context muxReq) (Method muxReq) (URL muxReq) with
  | Some e => return_ None (Some (failed_to_create_request (Foreign_error e)))
  | None =>
    let req := new_request muxReq origBody in
    _ ← Logf c (Log_Request (Method muxReq) (URL muxReq) (int_add attempt 1));
    '(resp, err) ← call (client c req);
    _ ← emit (ev_Do req resp err);
    match err with
    | Some e =>
        _ ← Logf c (Log_Request_failed e);
        _ ← backoff_Sleep c attempt;
        mret (resp, e)
    | None =>
      match resp with
      | None => panic "nil pointer dereference"
      | Some r =>
        let '(rawBody, rerr, rest) := io_ReadAll (resp_Body r) in
        _ ← emit (ev_ReadAll rawBody rerr);
        match rerr with
        | Some e => return_ (Some (with_Body r rest))
                      (Some (failed_to_read_response_body e))
        | None =>
          let x := exchange r rawBody rest in
          x ← match AfterResponse c with
              | Some hook =>
                  '(x', err) ← call (hook x);
                  _ ← emit (ev_AfterResponse (descriptor x) err);
                  match err with
                  | Some e => return_ (Some (raw x'))
                                (Some (after_response_hook_failed e))
                  | None => mret x'
                  end
              | None => mret x
              end;
          let r := raw x in
          let rawBody := buffer x in
          _ ← defer (defer_Body_Close (resp_Body r));
          if (resp_StatusCode r <? 200) || (300 <=? resp_StatusCode r) then
            let '(bodyBytes, _, rest) := io_ReadAll (resp_Body r) in
            _ ← emit (ev_ReadAll_again bodyBytes);
            _ ← backoff_Sleep c attempt;
            mret (Some (with_Body r rest),
                  HTTP_status (resp_StatusCode r) bodyBytes)
          else decode out rawBody r
        end
      end
    end
  end.

(** [for attempt := 0; attempt <= c.maxRetries; attempt++ { ... }] and
    the [return] after it, entered with the current values of [attempt],
    [resp] and [lastErr].  One unit of fuel pays for one iteration. *)
Fixpoint retry_loop (c : Client) (muxReq : Request) (origBody : bytes)
    (out : option Out) (fuel : nat) (attempt : Z)
    (resp : option http_Response) (lastErr : option error) : M Empty_set :=
  if attempt <=? maxRetries c then
    match fuel with
    | O => out_of_fuel
    | S fuel' =>
        '(resp', err) ← attempt_once c muxReq origBody out attempt;
        retry_loop c muxReq origBody out fuel' (int_add attempt 1)
                   resp' (Some err)
    end
  else
    return_ resp (Some (request_failed_after (int_add (maxRetries c) 1) lastErr)).

(** The deferred calls run when the function returns, last one first. *)
Definition run_call (d : Deferred) : Event :=
  match d with
  | defer_cancel => ev_cancel
  | defer_Body_Close b => ev_Close b
  end.

Definition run_deferred (w : World) : World :=
  set_deferred [] (set_trace (trace w ++ map run_call (deferred w)) w).

(** [c.DoRequest(ctx, method, rawURL, body, out, headers)] from a world
    [w]: the outcome and the world it leaves, or [None] when [fuel] is
    less than the number of iterations the loop makes. *)
Definition DoRequest (c : Client) (fuel : nat) (ctx : option Ctx)
    (method rawURL : string) (body : option Value) (out : option Out)
    (hs : MapRef) (w : World) : option (Outcome * World) :=
  match ('(muxReq, origBody) ← prepare c ctx method rawURL body hs;
         retry_loop c muxReq origBody out fuel 0 None None) w with
  | (Done o, w') => Some (o, run_deferred w')
  | (OutOfFuel, _) => None
  | (Next e, _) => match e with end
  end.

(** The method helpers. *)
Definition Get (c : Client) fuel ctx url out hs :=
  DoRequest c fuel ctx "GET" url None out hs.
Definition Post (c : Client) fuel ctx url body out hs :=
  DoRequest c fuel ctx "POST" url body out hs.
Definition Put (c : Client) fuel ctx url body out hs :=
  DoRequest c fuel ctx "PUT" url body out hs.
Definition Delete (c : Client) fuel ctx url out hs :=
  DoRequest c fuel ctx "DELETE" url None out hs.

End Client.

(** ** A small platform to run the model on *)

Module Demo.

(** A URL is kept as its text.  Text that starts with a colon does not
    parse; text with ["://"] in it is absolute; a reference is resolved
    by appending it to the base. *)
Definition parse (s : string) : result string string :=
  if String.prefix ":" s then Err "missing protocol scheme"%string else Ok s.

Definition is_abs (s : string) : bool :=
  match String.index 0 "://" s with Some _ => true | None => false end.

(** A body value is the JSON text it encodes to, or not encodable. *)
Definition marshal (v : option bytes) : result string bytes :=
  match v with
  | Some b => Ok b
  | None => Err "json: unsupported type"%string
  end.

(** Decoding accepts the texts that open an object. *)
Definition unmarshal (data : bytes) (target : bytes)
  : bytes * option string :=
  match data with
  | Byte.x7b :: _ => (data, None)
  | _ => (target, Some "invalid character"%string)
  end.

(** The environment counts the transport calls made so far and adds up
    the time slept. *)
#[export] Instance platform : Platform := {|
  Env := nat * Z;
  Foreign := string;
  Value := option bytes;
  JTarget := bytes;
  Ctx := Z;
  url_URL := string;
  url_Parse := parse;
  url_IsAbs := is_abs;
  url_ResolveReference := λ base ref, String.append base ref;
  url_String := λ u, u;
  json_Marshal := marshal;
  json_Unmarshal := unmarshal;
  CanonicalMIMEHeaderKey := λ k, k;
  http_NewRequest_error := λ _ _ _, None;
  context_WithTimeout := λ d, d;
  time_Sleep := λ d e, (e.1, e.2 + d);
|}.

Definition body_of (b : bytes) : ReadCloser :=
  {| unread := b; read_error := None |}.

Definition response (code : Z) (b : bytes) : http_Response :=
  {| resp_StatusCode := code; resp_Header := ∅; resp_Body := body_of b |}.

(** A transport that refuses every call. *)
Definition refusing (req : http_Request) (e : Env)
  : (option http_Response * option error) * Env :=
  ((None, Some (Foreign_error "connection refused"%string)), (S e.1, e.2)).

(** A transport that answers its [n]-th call with the [n]-th entry of a
    script, and refuses once the script is over. *)
Definition scripted (script : list http_Response) (req : http_Request)
    (e : Env) : (option http_Response * option error) * Env :=
  match script !! e.1 with
  | Some r => ((Some r, None), (S e.1, e.2))
  | None => refusing req e
  end.

Definition bare (transport : http_Request → Env →
                   (option http_Response * option error) * Env) : Client :=
  {| client := transport; headers := None; timeout := 5000000000;
     BaseURL := EmptyString; logger := None; maxRetries := 0; backoff := 0;
     BeforeRequest := None; AfterResponse := None |}.

(** A pre-send hook that refuses every request. *)
Definition veto (r : Request) (e : Env) : (Request * option error) * Env :=
  ((r, Some (Foreign_error "no"%string)), e).

(** A post-receive hook that looks and passes. *)
Definition pass (x : Exchange) (e : Env) : (Exchange * option error) * Env :=
  ((x, None), e).

(** A post-receive hook that refuses every response. *)
Definition reject (x : Exchange) (e : Env) : (Exchange * option error) * Env :=
  ((x, Some (Foreign_error "rate limited"%string)), e).

(** A response whose body breaks off after four bytes. *)
Definition broken : http_Response :=
  {| resp_StatusCode := 200; resp_Header := ∅;
     resp_Body := {| unread := [Byte.x6f; Byte.x6f; Byte.x70; Byte.x73];
                     read_error := Some (Foreign_error "unexpected EOF"%string) |} |}.

(** A pre-send hook that adds a header, as in the README. *)
Definition add_trace_id (r : Request) (e : Env)
  : (Request * option error) * Env :=
  (({| Method := Method r; URL := URL r;
       Headers := <["X-Trace-ID" := "abc"]> (Headers r);
       Body := Body r; Context := Context r |}%string, None), e).

(** A logger that leaves the environment alone. *)
Definition quiet_logger (line : LogLine) (e : Env) : Env := e.

(** The descriptor of a [GET] without body. *)
Definition plain_GET : Request :=
  {| Method := "GET"; URL := "http://x/a"; Headers := ∅; Body := None;
     Context := Some 7 |}.

Definition start : World :=
  {| env := (O, 0); maps := ∅; stored := None; deferred := [];
     trace := [] |}.

(** A heap with the client's default headers at 1 and a caller's
    overrides at 2. *)
Definition heap : World :=
  {| env := (O, 0);
     maps := {[ 1%positive := {[ "Accept" := "text/plain"; "X-Env" := "prod" ]};
                2%positive := {[ "Accept" := "application/json" ]} ]}%string;
     stored := None; deferred := []; trace := [] |}.

Definition oops : bytes := [Byte.x6f; Byte.x6f; Byte.x70; Byte.x73].

(** [{"id":1}] *)
Definition id1 : bytes :=
  [Byte.x7b; Byte.x22; Byte.x69; Byte.x64; Byte.x22; Byte.x3a; Byte.x31;
   Byte.x7d].

(** A client with default headers, a base URL and one retry, in front of
    a server that answers 500 and then 200. *)
Definition api_client : Client :=
  {| client := scripted [response 500 oops; response 200 id1];
     headers := Some 1%positive; timeout := 5000000000;
     BaseURL := "https://api.example.com"; logger := None; maxRetries := 1;
     backoff := 0; BeforeRequest := None; AfterResponse := None |}.

(** A transport that returns neither a response nor an error. *)
Definition silent (req : http_Request) (e : Env)
  : (option http_Response * option error) * Env :=
  ((None, None), (S e.1, e.2)).

(** The descriptor of a [GET] that states what it accepts. *)
Definition accept_GET : Request :=
  {| Method := "GET"; URL := "http://x/a";
     Headers := {[ "Accept" := "text/plain" ]}; Body := None;
     Context := Some 7 |}%string.

(** The same platform, except that no request is created for a method
    with a space in it. *)
Definition strict : Platform := {|
  Env := nat * Z;
  Foreign := string;
  Value := option bytes;
  JTarget := bytes;
  Ctx := Z;
  url_URL := string;
  url_Parse := parse;
  url_IsAbs := is_abs;
  url_ResolveReference := λ base ref, String.append base ref;
  url_String := λ u, u;
  json_Marshal := marshal;
  json_Unmarshal := unmarshal;
  CanonicalMIMEHeaderKey := λ k, k;
  http_NewRequest_error := λ _ m _,
    match String.index 0 " " m with
    | Some _ => Some "net/http: invalid method"%string
    | None => None
    end;
  context_WithTimeout := λ d, d;
  time_Sleep := λ d e, (e.1, e.2 + d);
|}.

(** A client of that platform, with two retries, in front of a transport
    that refuses every call. *)
Definition strict_client : @Client strict :=
  {| client := λ (req : @http_Request strict) (e : @Env strict),
       ((@None (@http_Response strict),
         Some (@Foreign_error strict "connection refused"%string)),
        (S e.1, e.2));
     headers := None; timeout := 5000000000;
     BaseURL := EmptyString; logger := None; maxRetries := 2; backoff := 0;
     BeforeRequest := None; AfterResponse := None |}.

Definition strict_start : @World strict :=
  @Build_World strict (O, 0) ∅ None [] [].

End Demo.


(** ** Reading a log *)

Section Observers.
Context `{Platform}.

(** The transport calls of a log: request, response and error. *)
Definition Do_calls (evs : list Event)
  : list (http_Request * option http_Response * option error) :=
  omap (λ ev, match ev with
              | ev_Do q r e => Some (q, r, e)
              | _ => None
              end) evs.

Definition transport_calls (evs : list Event) : nat := length (Do_calls evs).

(** The durations slept. *)
Definition sleeps (evs : list Event) : list Z :=
  omap (λ ev, match ev with ev_Sleep d => Some d | _ => None end) evs.

(** Transport calls ([None]) and sleeps ([Some d]) in the order they
    happen. *)
Definition rhythm (evs : list Event) : list (option Z) :=
  omap (λ ev, match ev with
              | ev_Do _ _ _ => Some None
              | ev_Sleep d => Some (Some d)
              | _ => None
              end) evs.

Definition BeforeRequest_calls (evs : list Event)
  : list (Request * option error) :=
  omap (λ ev, match ev with
              | ev_BeforeRequest r e => Some (r, e)
              | _ => None
              end) evs.

Definition AfterResponse_calls (evs : list Event)
  : list (Response * option error) :=
  omap (λ ev, match ev with
              | ev_AfterResponse r e => Some (r, e)
              | _ => None
              end) evs.

Definition Marshal_calls (evs : list Event) : list Value :=
  omap (λ ev, match ev with ev_Marshal v => Some v | _ => None end) evs.

(** The bodies read in full after a transport call. *)
Definition bodies_read (evs : list Event) : list bytes :=
  omap (λ ev, match ev with
              | ev_ReadAll data None => Some data
              | _ => None
              end) evs.

(** The responses the transport handed over without an error. *)
Definition responses (evs : list Event) : list http_Response :=
  omap (λ ev, match ev with
              | ev_Do _ (Some r) None => Some r
              | _ => None
              end) evs.

(** [c.backoff * 2^i], as the specification writes the delay after the
    failed attempt [i]. *)
Definition nominal_delay (c : Client) (i : Z) : Z := backoff c * 2 ^ i.

(** The same product in [time.Duration]. *)
Definition delay (c : Client) (i : Z) : Z := wrap64 (backoff c * 2 ^ i).

(** The attempts [0 .. n-1]. *)
Definition attempts (n : Z) : list Z := seqZ 0 n.

(** The log of a transport that never succeeds, as the specification has
    it: the sleep that follows the failed attempt [i] and precedes the next
    attempt lasts [backoff * 2^i]. *)
Definition nominal_sleeps (c : Client) (evs : list Event) : Prop :=
  ∀ (i : nat) (d : Z),
    Z.of_nat i < maxRetries c → sleeps evs !! i = Some d →
    d = nominal_delay c (Z.of_nat i).

(** The environment after [Logf c line], whether a logger is set or
    not. *)
Definition Logf_env (c : Client) (line : LogLine) (e : Env) : Env :=
  match logger c with
  | Some l => l line e
  | None => e
  end.

(** The environment in which the transport is called on [attempt], when
    the iteration starts in [e]. *)
Definition Do_env (c : Client) (muxReq : Request) (attempt : Z) (e : Env)
  : Env :=
  Logf_env c (Log_Request (Method muxReq) (URL muxReq) (int_add attempt 1)) e.

(** What the hook was given for a response [r] of the transport. *)
Definition received (r : http_Response) : Exchange :=
  exchange r (io_ReadAll (resp_Body r)).1.1 (io_ReadAll (resp_Body r)).2.

(** The post-receive hook under its guard [c.AfterResponse != nil]: the
    exchange as it is left, the error, the environment. *)
Definition run_AfterResponse (c : Client) (x : Exchange) (e : Env)
  : (Exchange * option error) * Env :=
  match AfterResponse c with
  | Some hook => hook x e
  | None => ((x, None), e)
  end.

(** The hook [hook] followed by an assignment [r.Body = other] to the
    field of the descriptor. *)
Definition then_reassign_Body
    (hook : Exchange → Env → (Exchange * option error) * Env)
    (other : Exchange → bytes)
  : Exchange → Env → (Exchange * option error) * Env :=
  λ x e,
    let x' := (hook x e).1.1 in
    (({| descriptor := {| StatusCode := StatusCode (descriptor x');
                          Response_Headers := Response_Headers (descriptor x');
                          Response_Body := other x' |};
         buffer := buffer x';
         raw := raw x' |},
      (hook x e).1.2), (hook x e).2).

(** Whether a status code is in [200, 300). *)
Definition is_2xx (code : Z) : bool := (200 <=? code) && (code <? 300).

(** What a log says of responses, bodies read and hook calls: as many
    hook calls as bodies read in full, no more bodies than responses, and
    as many when every response has a body that reads without error. *)
Definition hook_log_ok (evs : list Event) : Prop :=
  length (AfterResponse_calls evs) = length (bodies_read evs) ∧
  (length (bodies_read evs) ≤ length (responses evs))%nat ∧
  (Forall (λ r, read_error (resp_Body r) = None) (responses evs) →
   length (bodies_read evs) = length (responses evs)).

(** The post-receive hook runs exactly once for every response that the
    transport hands over, as the specification has it. *)
Definition hook_per_response (evs : list Event) : Prop :=
  length (AfterResponse_calls evs) = length (responses evs).

(** The calls of the deferred [cancel]. *)
Definition cancels (evs : list Event) : nat :=
  length (omap (λ ev, match ev with ev_cancel => Some tt | _ => None end) evs).

(** The bodies closed. *)
Definition Close_calls (evs : list Event) : list ReadCloser :=
  omap (λ ev, match ev with ev_Close b => Some b | _ => None end) evs.

(** The descriptors on which the post-receive hook returned no error. *)
Definition hooks_passed (evs : list Event) : list Response :=
  omap (λ ev, match ev with
              | ev_AfterResponse r None => Some r
              | _ => None
              end) evs.

(** The number of responses that reached [defer resp.Body.Close()]: those
    the hook passed, or, without a hook, those whose body was read. *)
Definition bodies_kept (c : Client) (evs : list Event) : nat :=
  match AfterResponse c with
  | Some _ => length (hooks_passed evs)
  | None => length (bodies_read evs)
  end.

(** The lines logged. *)
Definition Logf_lines (evs : list Event) : list LogLine :=
  omap (λ ev, match ev with ev_Logf line => Some line | _ => None end) evs.

(** The attempt numbers of the lines [Request: ... (attempt n)]. *)
Definition attempt_numbers (evs : list Event) : list Z :=
  omap (λ ev, match ev with
              | ev_Logf (Log_Request _ _ n) => Some n
              | _ => None
              end) evs.

(** The errors of the lines [Request failed: ...]. *)
Definition failure_lines (evs : list Event) : list error :=
  omap (λ ev, match ev with
              | ev_Logf (Log_Request_failed e) => Some e
              | _ => None
              end) evs.

(** The errors of the transport calls that failed. *)
Definition Do_errors (evs : list Event) : list error :=
  omap (λ ev, match ev with ev_Do _ _ (Some e) => Some e | _ => None end) evs.

(** A log without deferred calls, and as many bodies to close as
    responses kept. *)
Definition pending (c : Client) (evs : list Event) (closes : list ReadCloser)
  : Prop :=
  cancels evs = 0%nat ∧ Close_calls evs = [] ∧
  length closes = bodies_kept c evs.

(** The lines of a log agree with its transport calls: with a logger, one
    numbered line per call, counting from 1, and one failure line per
    transport error; without one, no line. *)
Definition logged (c : Client) (evs : list Event) : Prop :=
  match logger c with
  | Some _ =>
      attempt_numbers evs = seqZ 1 (Z.of_nat (transport_calls evs)) ∧
      failure_lines evs = Do_errors evs
  | None => Logf_lines evs = []
  end.

(** How an iteration that falls through got its [lastErr]: from the
    transport, with the response the transport returned beside it, or from
    a status outside [200, 300). *)
Definition retried (calls : list (http_Request * option http_Response *
                                  option error))
    (resp : option http_Response) (e : error) : Prop :=
  ∃ q r0 e0,
    last calls = Some (q, r0, e0) ∧
    ((e0 = Some e ∧ resp = r0) ∨
     (e0 = None ∧
      ∃ r body, resp = Some r ∧ e = HTTP_status (resp_StatusCode r) body ∧
                is_2xx (resp_StatusCode r) = false)).

(** The descriptors built for the responses of a log whose bodies read in
    full: status and headers of the response, and the whole body. *)
Definition descriptors (evs : list Event) : list Response :=
  omap (λ r, match read_error (resp_Body r) with
             | None => Some {| StatusCode := resp_StatusCode r;
                               Response_Headers := resp_Header r;
                               Response_Body := unread (resp_Body r) |}
             | Some _ => None
             end) (responses evs).

End Observers.

(** * Properties *)

(** ** Machine arithmetic *)

Lemma wrap64_id z : MinInt ≤ z ≤ MaxInt → wrap64 z = z.
Proof.
  unfold wrap64, MinInt, MaxInt, int_bits. intros Hz.
  rewrite Z.mod_small; lia.
Qed.

Lemma wrap64_range z : MinInt ≤ wrap64 z ≤ MaxInt.
Proof.
  unfold wrap64, MinInt, MaxInt, int_bits.
  pose proof (Z.mod_pos_bound (z + 2 ^ (64 - 1)) (2 ^ 64)). lia.
Qed.

Lemma wrap64_eq x y : (x - y) mod 2 ^ int_bits = 0 → wrap64 x = wrap64 y.
Proof.
  unfold wrap64, int_bits. intros Hxy. f_equal.
  apply Z.mod_divide in Hxy; [|lia]. destruct Hxy as [k Hk].
  replace (x + 2 ^ (64 - 1)) with (y + 2 ^ (64 - 1) + k * 2 ^ 64) by lia.
  apply Z_mod_plus_full.
Qed.

Lemma wrap64_mul_r x y : wrap64 (x * wrap64 y) = wrap64 (x * y).
Proof.
  apply wrap64_eq. unfold wrap64, int_bits.
  rewrite (Z.mod_eq (y + 2 ^ (64 - 1)) (2 ^ 64)) by lia.
  set (q := (y + 2 ^ (64 - 1)) / 2 ^ 64).
  replace (x * (y + 2 ^ (64 - 1) - 2 ^ 64 * q - 2 ^ (64 - 1)) - x * y)
    with ((- x * q) * 2 ^ 64) by lia.
  apply Z_mod_mult.
Qed.

(** The delay the code computes is the product [backoff * 2^attempt] reduced
    to [int64], whatever the attempt. *)
Lemma backoff_product (b attempt : Z) :
  0 ≤ attempt →
  ∃ factor, dur_shl1 attempt = Some factor ∧
            dur_mul b factor = wrap64 (b * 2 ^ attempt).
Proof.
  intros Ha. unfold dur_shl1, dur_mul.
  destruct (Z.ltb_spec attempt 0); [lia|].
  destruct (Z.leb_spec int_bits attempt) as [Hbig|Hsmall].
  - eexists; split; [reflexivity|]. apply wrap64_eq. unfold int_bits in *.
    replace attempt with ((attempt - 64) + 64) by lia.
    rewrite Z.pow_add_r by lia.
    replace (b * 0 - b * (2 ^ (attempt - 64) * 2 ^ 64))
      with ((- b * 2 ^ (attempt - 64)) * 2 ^ 64) by lia.
    apply Z_mod_mult.
  - eexists; split; [reflexivity|].
    rewrite Z.shiftl_1_l. apply wrap64_mul_r.
Qed.

Lemma int_add_1 z : MinInt ≤ z < MaxInt → int_add z 1 = z + 1.
Proof. intros Hz. unfold int_add. apply wrap64_id. lia. Qed.

(** ** Logs *)

Section Logs.
Context `{Platform}.

Lemma Do_calls_app a b : Do_calls (a ++ b) = Do_calls a ++ Do_calls b.
Proof. apply omap_app. Qed.

Lemma transport_calls_app a b :
  transport_calls (a ++ b) = (transport_calls a + transport_calls b)%nat.
Proof. unfold transport_calls. by rewrite Do_calls_app, length_app. Qed.

Lemma sleeps_app a b : sleeps (a ++ b) = sleeps a ++ sleeps b.
Proof. apply omap_app. Qed.

Lemma rhythm_app a b : rhythm (a ++ b) = rhythm a ++ rhythm b.
Proof. apply omap_app. Qed.

Lemma BeforeRequest_calls_app a b :
  BeforeRequest_calls (a ++ b) = BeforeRequest_calls a ++ BeforeRequest_calls b.
Proof. apply omap_app. Qed.

Lemma AfterResponse_calls_app a b :
  AfterResponse_calls (a ++ b) = AfterResponse_calls a ++ AfterResponse_calls b.
Proof. apply omap_app. Qed.

Lemma Marshal_calls_app a b :
  Marshal_calls (a ++ b) = Marshal_calls a ++ Marshal_calls b.
Proof. apply omap_app. Qed.

Lemma bodies_read_app a b : bodies_read (a ++ b) = bodies_read a ++ bodies_read b.
Proof. apply omap_app. Qed.

Lemma responses_app a b : responses (a ++ b) = responses a ++ responses b.
Proof. apply omap_app. Qed.

(** The deferred calls add nothing that the observers read. *)
Lemma omap_run_call {A} (f : Event → option A) (ds : list Deferred) :
  f ev_cancel = None → (∀ b, f (ev_Close b) = None) →
  omap f (map run_call ds) = [].
Proof.
  intros Hc Hb. induction ds as [|[|b] ds IH]; simpl; [done| |].
  - by rewrite Hc.
  - by rewrite Hb.
Qed.

End Logs.

(** ** The retry loop *)

(** Unfolds one iteration into its branches. *)
Ltac run_attempt :=
  unfold attempt_once, decode, Logf, backoff_Sleep, Sleep;
  cbv [mbind M_bind mret M_ret emit call defer store return_ panic
       io_ReadAll];
  repeat (case_match; simplify_eq/=).

Section Loop.
Context `{Platform}.
Variables (c : Client) (muxReq : Request) (origBody : bytes)
          (out : option Out).

Lemma attempt_once_terminates attempt w :
  (attempt_once c muxReq origBody out attempt w).1 ≠ OutOfFuel.
Proof. run_attempt; done. Qed.

(** An invariant [I] of the loop variables and the world, kept by every
    iteration that falls through, and a postcondition [Q] met wherever
    the function leaves. *)
Variable I : Z → option http_Response → option error → World → Prop.
Variable Q : Outcome → World → Prop.

Hypothesis iteration :
  ∀ attempt resp lastErr w,
    I attempt resp lastErr w → attempt ≤ maxRetries c →
    match attempt_once c muxReq origBody out attempt w with
    | (Next (resp', e), w') => I (int_add attempt 1) resp' (Some e) w'
    | (Done o, w') => Q o w'
    | (OutOfFuel, _) => True
    end.

Hypothesis exhausted :
  ∀ attempt resp lastErr w,
    I attempt resp lastErr w → maxRetries c < attempt →
    Q (Returned resp
         (Some (request_failed_after (int_add (maxRetries c) 1) lastErr))) w.

(** Whenever the loop leaves, [Q] holds. *)
Lemma retry_loop_rule fuel : ∀ attempt resp lastErr w o w',
  I attempt resp lastErr w →
  retry_loop c muxReq origBody out fuel attempt resp lastErr w = (Done o, w') →
  Q o w'.
Proof.
  induction fuel as [|fuel IH]; intros attempt resp lastErr w o w' HI; simpl;
    destruct (Z.leb_spec attempt (maxRetries c)) as [Hle|Hgt].
  - discriminate.
  - intros [= <- <-]. by eapply exhausted.
  - pose proof (iteration _ _ _ _ HI Hle) as Hit.
    cbv [mbind M_bind].
    destruct (attempt_once c muxReq origBody out attempt w)
      as [[[resp' e]|o1|] w1]; [|by intros [= <- <-]|discriminate].
    intros Hloop. by eapply IH.
  - intros [= <- <-]. by eapply exhausted.
Qed.

(** The loop leaves within [maxRetries + 1 - attempt] iterations. *)
Lemma retry_loop_terminates fuel : ∀ attempt resp lastErr w,
  MinInt ≤ attempt → maxRetries c < MaxInt →
  (Z.to_nat (maxRetries c + 1 - attempt) ≤ fuel)%nat →
  ∃ o w', retry_loop c muxReq origBody out fuel attempt resp lastErr w
          = (Done o, w').
Proof.
  induction fuel as [|fuel IH]; intros attempt resp lastErr w Hmin Hmax Hfuel;
    simpl; destruct (Z.leb_spec attempt (maxRetries c)) as [Hle|Hgt];
    [lia|by eauto| |by eauto].
  cbv [mbind M_bind].
  pose proof (attempt_once_terminates attempt w) as Hterm.
  destruct (attempt_once c muxReq origBody out attempt w)
    as [[[resp' e]|o1|] w1]; [|by eauto|done].
  rewrite int_add_1 by lia. apply IH; lia.
Qed.

End Loop.

(** ** The stages before the loop *)

Section Stages.
Context `{Platform}.

Lemma entries_Some (m : gmap positive (gmap string string)) l x :
  m !! l = Some x → entries m (Some l) = x.
Proof. intros Hl. simpl. by rewrite Hl. Qed.

(** Copying [kvs], whose keys are distinct, into the map at [l]. *)
Lemma copy_list_entries (kvs : list (string * string)) l :
  NoDup kvs.*1 → ∀ w (m : gmap string string),
  maps w !! l = Some m →
  foldr (λ kv rest, _ ← map_assign (Some l) kv.1 kv.2; rest) (mret tt) kvs w
  = (Next tt, set_maps (<[l := list_to_map kvs ∪ m]> (maps w)) w).
Proof.
  induction kvs as [|[k v] kvs IH]; intros Hnd w m Hl; simpl.
  - cbv [mret M_ret]. f_equal. rewrite (left_id_L ∅ (∪)).
    rewrite insert_id by done. by destruct w.
  - apply NoDup_cons in Hnd as [Hk Hnd].
    cbv [mbind M_bind map_assign]. simpl. rewrite Hl. simpl.
    rewrite (IH Hnd _ (<[k:=v]> m)) by (simpl; apply lookup_insert_eq).
    f_equal. unfold set_maps; simpl. f_equal.
    rewrite insert_insert_eq. f_equal.
    apply map_eq; intros j. rewrite !lookup_union.
    destruct (decide (j = k)) as [->|Hne].
    + rewrite !lookup_insert_eq.
      assert ((list_to_map kvs : gmap string string) !! k = None) as ->
        by (apply not_elem_of_list_to_map_1; exact Hk).
      by destruct (m !! k).
    + by rewrite !lookup_insert_ne.
Qed.

Lemma copy_entries_into (src : gmap string string) l w m :
  maps w !! l = Some m →
  copy_entries src (Some l) w
  = (Next tt, set_maps (<[l := src ∪ m]> (maps w)) w).
Proof.
  intros Hl. unfold copy_entries.
  rewrite (copy_list_entries _ l (NoDup_fst_map_to_list src) w m Hl).
  by rewrite list_to_map_to_list.
Qed.

(** The merge makes one new map, which holds the overrides on top of the
    defaults, and writes nowhere else. *)
Lemma merge_headers_result c hs w :
  let hdr := fresh (dom (maps w)) in
  merge_headers c hs w
  = (Next (Some hdr),
     set_maps (<[hdr := entries (maps w) hs ∪ entries (maps w) (headers c)]>
                 (maps w)) w).
Proof.
  intros hdr. unfold merge_headers.
  assert (Hfresh : maps w !! hdr = None).
  { apply not_elem_of_dom, is_fresh. }
  cbv [mbind M_bind make_map read_map mret M_ret]. fold hdr.
  assert (Hold : ∀ r, entries (<[hdr:=∅]> (maps w)) r = entries (maps w) r).
  { intros [l|]; [|done]. simpl.
    destruct (decide (l = hdr)) as [->|Hne].
    - by rewrite lookup_insert_eq, Hfresh.
    - by rewrite lookup_insert_ne. }
  cbn [maps set_maps]. rewrite Hold.
  erewrite copy_entries_into by (cbn [maps set_maps]; apply lookup_insert_eq).
  cbn [maps set_maps]. rewrite insert_insert_eq, (right_id_L ∅ (∪)).
  erewrite copy_entries_into by (cbn [maps set_maps]; apply lookup_insert_eq).
  cbn [maps set_maps]. rewrite insert_insert_eq.
  unfold set_maps; cbn. do 3 f_equal.
  destruct hs as [l|]; [|done]. simpl.
  destruct (decide (l = hdr)) as [->|Hne].
  - rewrite lookup_insert_eq, Hfresh. simpl.
    by rewrite (idemp (∪) (entries (maps w) (headers c))), (left_id_L ∅ (∪)).
  - by rewrite lookup_insert_ne.
Qed.
End Stages.

Section Pipeline.
Context `{Platform}.

Lemma describe_result c ctx method rawURL body hs w :
  let w0 := match ctx with
            | None => set_deferred (defer_cancel :: deferred w) w
            | Some _ => w
            end in
  describe c ctx method rawURL body hs w
  = match resolveURL c rawURL with
    | Err e => (Done (Returned None (Some e)), w0)
    | Ok u =>
        (Next {| Method := method; URL := u;
                 Headers := entries (maps w) hs ∪ entries (maps w) (headers c);
                 Body := body;
                 Context := Some (match ctx with
                                  | None => context_WithTimeout (timeout c)
                                  | Some x => x
                                  end) |},
         set_maps (<[fresh (dom (maps w))
                     := entries (maps w) hs ∪ entries (maps w) (headers c)]>
                     (maps w)) w0)
    end.
Proof.
  intros w0. unfold describe.
  destruct ctx as [x|]; subst w0; cbv [mbind M_bind mret M_ret defer];
    (destruct (resolveURL c rawURL) as [u|e]; [|done]);
    rewrite merge_headers_result; cbv [read_map]; cbn [maps set_maps];
    by rewrite (entries_Some _ _ _ (lookup_insert_eq _ _ _)).
Qed.

Lemma DoRequest_unfold c fuel ctx method rawURL body out hs w :
  DoRequest c fuel ctx method rawURL body out hs w
  = match prepare c ctx method rawURL body hs w with
    | (Next (muxReq, origBody), w1) =>
        match retry_loop c muxReq origBody out fuel 0 None None w1 with
        | (Done o, w') => Some (o, run_deferred w')
        | (OutOfFuel, _) => None
        | (Next e, _) => match e with end
        end
    | (Done o, w1) => Some (o, run_deferred w1)
    | (OutOfFuel, _) => None
    end.
Proof.
  unfold DoRequest. cbv [mbind M_bind].
  by destruct (prepare c ctx method rawURL body hs w) as [[[??]| |] ?].
Qed.

Lemma prepare_unfold c ctx method rawURL body hs w :
  prepare c ctx method rawURL body hs w
  = match describe c ctx method rawURL body hs w with
    | (Next muxReq, w0) =>
        match before_send c muxReq w0 with
        | (Next muxReq', w1) =>
            match serialize muxReq' w1 with
            | (Next origBody, w2) => (Next (muxReq', origBody), w2)
            | (Done o, w2) => (Done o, w2)
            | (OutOfFuel, w2) => (OutOfFuel, w2)
            end
        | (Done o, w1) => (Done o, w1)
        | (OutOfFuel, w1) => (OutOfFuel, w1)
        end
    | (Done o, w0) => (Done o, w0)
    | (OutOfFuel, w0) => (OutOfFuel, w0)
    end.
Proof.
  unfold prepare. cbv [mbind M_bind mret M_ret].
  destruct (describe c ctx method rawURL body hs w) as [[?| |] ?]; try done.
Qed.

(** Nothing after the merge writes to a header map. *)
Lemma before_send_maps c muxReq w s w' :
  before_send c muxReq w = (s, w') → maps w' = maps w.
Proof.
  unfold before_send. cbv [mbind M_bind mret M_ret call emit return_].
  repeat (case_match; simplify_eq/=); by intros [= <- <-].
Qed.

Lemma serialize_maps muxReq w s w' :
  serialize muxReq w = (s, w') → maps w' = maps w.
Proof.
  unfold serialize. cbv [mbind M_bind mret M_ret call emit return_].
  repeat (case_match; simplify_eq/=); by intros [= <- <-].
Qed.

Lemma attempt_once_maps c muxReq origBody out attempt w s w' :
  attempt_once c muxReq origBody out attempt w = (s, w') → maps w' = maps w.
Proof. run_attempt; by intros [= <- <-]. Qed.

Lemma retry_loop_maps c muxReq origBody out fuel attempt resp lastErr w o w' :
  retry_loop c muxReq origBody out fuel attempt resp lastErr w = (Done o, w') →
  maps w' = maps w.
Proof.
  apply (retry_loop_rule c muxReq origBody out
           (λ _ _ _ w1, maps w1 = maps w) (λ _ w1, maps w1 = maps w));
    [|done|done].
  intros a r e w1 Hw1 _.
  destruct (attempt_once c muxReq origBody out a w1) as [[[??]| |] w2] eqn:Hat;
    try done; by rewrite (attempt_once_maps _ _ _ _ _ _ _ _ Hat).
Qed.

End Pipeline.

(** ** URL resolution *)

(** C5.  An absolute request URL is returned as it was given, whatever the
    base URL; a relative one is resolved against the base URL by
    [ResolveReference] when a base URL is configured, and passed through
    unresolved when none is. *)
Theorem resolveURL_cases `{Platform} (c : Client) (input : string) (u : url_URL) :
  url_Parse input = Ok u →
  (url_IsAbs u = true → resolveURL c input = Ok input) ∧
  (url_IsAbs u = false → BaseURL c ≠ EmptyString →
   ∀ base, url_Parse (BaseURL c) = Ok base →
           resolveURL c input = Ok (url_String (url_ResolveReference base u))) ∧
  (url_IsAbs u = false → BaseURL c = EmptyString → resolveURL c input = Ok input).
Proof.
  intros Hu. unfold resolveURL. rewrite Hu. repeat split.
  - by intros ->.
  - intros -> Hbase base ->. by rewrite bool_decide_eq_false_2.
  - intros -> ->. by rewrite bool_decide_eq_true_2.
Qed.


(** ** Header merge *)

(** C6.  The merge builds a new map in which every per-call entry is
    present, and every default entry whose key has no per-call entry; the
    descriptor carries that map; and every map that exists when
    [DoRequest] is called, the client's defaults among them, has the same
    entries when it returns. *)
Theorem merge_headers_overrides `{Platform} (c : Client) (hs : MapRef) (w : World) :
  let defaults := entries (maps w) (headers c) in
  let overrides := entries (maps w) hs in
  ∃ hdr w1,
    merge_headers c hs w = (Next (Some hdr), w1) ∧
    maps w !! hdr = None ∧
    (∀ k v, overrides !! k = Some v →
            entries (maps w1) (Some hdr) !! k = Some v) ∧
    (∀ k v, defaults !! k = Some v → overrides !! k = None →
            entries (maps w1) (Some hdr) !! k = Some v) ∧
    (∀ l m, maps w !! l = Some m → maps w1 !! l = Some m) ∧
    (∀ ctx method rawURL body muxReq w0,
       describe c ctx method rawURL body hs w = (Next muxReq, w0) →
       Headers muxReq = entries (maps w1) (Some hdr)) ∧
    (∀ fuel ctx method rawURL body out o w',
       DoRequest c fuel ctx method rawURL body out hs w = Some (o, w') →
       ∀ l m, maps w !! l = Some m → maps w' !! l = Some m).
Proof.
  intros defaults overrides.
  assert (Hfresh : maps w !! fresh (dom (maps w)) = None)
    by apply not_elem_of_dom, is_fresh.
  assert (Hframe : ∀ x l m, maps w !! l = Some m →
            (<[fresh (dom (maps w)) := x]> (maps w)) !! l = Some m).
  { intros x l m Hl. rewrite lookup_insert_ne; [done|]. congruence. }
  eexists _, _. split; [apply merge_headers_result|].
  cbn [maps set_maps entries]. rewrite lookup_insert_eq. cbn [default from_option id].
  split; [done|]. split; [|split; [|split; [|split]]].
  - intros k v Hk. by apply lookup_union_Some_l.
  - intros k v Hd Ho. by rewrite lookup_union_r.
  - intros l m. apply Hframe.
  - intros ctx method rawURL body muxReq w0.
    rewrite describe_result. destruct (resolveURL c rawURL); [|done].
    by intros [= <- <-].
  - intros fuel ctx method rawURL body out o w'.
    rewrite DoRequest_unfold, prepare_unfold, describe_result.
    assert (Hpre : ∀ w0, maps w0 = maps w → ∀ l m, maps w !! l = Some m →
              maps (run_deferred w0) !! l = Some m).
    { intros w0 Hw0 l m. unfold run_deferred. cbn. by rewrite Hw0. }
    set (w0 := match ctx with Some _ => w | None => _ end).
    assert (Hw0 : maps w0 = maps w) by (by destruct ctx).
    destruct (resolveURL c rawURL) as [fullURL|e].
    2:{ intros [= <- <-]. by apply Hpre. }
    set (w1 := set_maps _ w0).
    assert (Hw1 : ∀ w2, maps w2 = maps w1 → ∀ l m, maps w !! l = Some m →
              maps (run_deferred w2) !! l = Some m).
    { intros w2 Hw2 l m Hl. unfold run_deferred. cbn. rewrite Hw2.
      subst w1. cbn. by apply Hframe. }
    destruct (before_send c _ w1) as [[r| |] w2] eqn:Hb; [| |done].
    2:{ intros [= <- <-]. apply Hw1. by eapply before_send_maps. }
    apply before_send_maps in Hb.
    destruct (serialize r w2) as [[b| |] w3] eqn:Hs; [| |done].
    2:{ intros [= <- <-]. apply Hw1. apply serialize_maps in Hs. congruence. }
    apply serialize_maps in Hs.
    destruct (retry_loop c r b out fuel 0 None None w3)
      as [[[]|o1|] w4] eqn:Hl; [|done].
    intros [= <- <-]. apply Hw1. apply retry_loop_maps in Hl. congruence.
Qed.

(** ** What the stages log *)

Section StageLogs.
Context `{Platform}.

Lemma describe_trace c ctx method rawURL body hs w s w' :
  describe c ctx method rawURL body hs w = (s, w') →
  trace w' = trace w ∧ env w' = env w.
Proof.
  rewrite describe_result.
  destruct (resolveURL c rawURL), ctx; by intros [= <- <-].
Qed.

Lemma before_send_result c muxReq w :
  before_send c muxReq w
  = match BeforeRequest c with
    | None => (Next muxReq, w)
    | Some hook =>
        let w' := set_trace
                    (trace w ++ [ev_BeforeRequest muxReq (hook muxReq (env w)).1.2])
                    (set_env (hook muxReq (env w)).2 w) in
        match (hook muxReq (env w)).1.2 with
        | Some e => (Done (Returned None (Some (before_request_hook_failed e))), w')
        | None => (Next (hook muxReq (env w)).1.1, w')
        end
    end.
Proof.
  unfold before_send. destruct (BeforeRequest c) as [hook|]; [|done].
  cbv [mbind M_bind mret M_ret call emit return_].
  by destruct (hook muxReq (env w)) as [[r [e|]] e'].
Qed.

Lemma serialize_result muxReq w :
  serialize muxReq w
  = match Body muxReq with
    | None => (Next [], w)
    | Some v =>
        let w' := set_trace (trace w ++ [ev_Marshal v]) w in
        match json_Marshal v with
        | Err e => (Done (Returned None
                            (Some (failed_to_marshal_body (Foreign_error e)))), w')
        | Ok b => (Next b, w')
        end
    end.
Proof.
  unfold serialize. destruct (Body muxReq) as [v|]; [|done].
  cbv [mbind M_bind mret M_ret emit return_].
  by destruct (json_Marshal v).
Qed.

(** The stages before the loop call neither the transport nor the
    post-receive hook, and do not sleep. *)
Lemma prepare_log c ctx method rawURL body hs w s w' :
  prepare c ctx method rawURL body hs w = (s, w') →
  ∃ evs, trace w' = trace w ++ evs ∧ rhythm evs = [] ∧ Do_calls evs = [] ∧
         AfterResponse_calls evs = [] ∧ bodies_read evs = [] ∧
         responses evs = [].
Proof.
  rewrite prepare_unfold.
  destruct (describe c ctx method rawURL body hs w) as [s0 w0] eqn:Hd.
  apply describe_trace in Hd as [Hd _]. rewrite <- Hd.
  destruct s0 as [r| |]; [|intros [= <- <-]; exists []; by rewrite app_nil_r..].
  rewrite before_send_result.
  destruct (BeforeRequest c) as [hook|]; cbn zeta;
    [destruct ((hook r (env w0)).1.2)|]; rewrite ?serialize_result;
    repeat (case_match; simplify_eq/=); intros [= <- <-]; cbn;
    rewrite <- ?app_assoc; eexists;
    (split; [first [reflexivity | by rewrite app_nil_r]|done]).
Qed.

Lemma run_deferred_trace w :
  trace (run_deferred w) = trace w ++ map run_call (deferred w).
Proof. done. Qed.

Lemma run_deferred_quiet ds :
  rhythm (map run_call ds) = [] ∧ Do_calls (map run_call ds) = [] ∧
  sleeps (map run_call ds) = [] ∧
  BeforeRequest_calls (map run_call ds) = [] ∧
  AfterResponse_calls (map run_call ds) = [] ∧
  Marshal_calls (map run_call ds) = [] ∧
  bodies_read (map run_call ds) = [] ∧ responses (map run_call ds) = [].
Proof. repeat split; by apply omap_run_call. Qed.

End StageLogs.

(** ** A negative retry count *)

(** C9.  With [maxRetries] negative, a call whose steps before the loop
    fall through (the URL resolves, the hook if any does not fail, the body
    if any serialises) makes no transport call and returns a nil response
    with an error that reports [maxRetries + 1] attempts and wraps
    nothing. *)
Theorem negative_maxRetries `{Platform} (c : Client) (fuel : nat)
    (ctx : option Ctx) (method rawURL : string) (body : option Value)
    (out : option Out) (hs : MapRef) (w w1 : World) (muxReq : Request)
    (origBody : bytes) :
  MinInt ≤ maxRetries c < 0 →
  prepare c ctx method rawURL body hs w = (Next (muxReq, origBody), w1) →
  ∃ err evs,
    DoRequest c fuel ctx method rawURL body out hs w
    = Some (Returned None (Some err), run_deferred w1) ∧
    err = request_failed_after (maxRetries c + 1) None ∧
    Unwrap err = None ∧
    trace (run_deferred w1) = trace w ++ evs ∧
    transport_calls evs = 0%nat.
Proof.
  intros Hneg Hprep.
  destruct (prepare_log _ _ _ _ _ _ _ _ _ Hprep) as (evs & Htr & _ & HDo & _).
  exists (request_failed_after (maxRetries c + 1) None),
         (evs ++ map run_call (deferred w1)).
  rewrite DoRequest_unfold, Hprep.
  assert (Hloop : retry_loop c muxReq origBody out fuel 0 None None w1
                  = (Done (Returned None
                       (Some (request_failed_after (maxRetries c + 1) None))), w1)).
  { destruct fuel; simpl; destruct (Z.leb_spec 0 (maxRetries c)); try lia;
      by rewrite int_add_1 by (unfold MaxInt, int_bits; lia). }
  rewrite Hloop. repeat split.
  - by rewrite run_deferred_trace, Htr, <- app_assoc.
  - unfold transport_calls. rewrite Do_calls_app, HDo.
    by rewrite (proj1 (proj2 (run_deferred_quiet _))).
Qed.


(** ** What the loop logs *)

(** Closes the goal [∃ evs, trace w' = trace w ++ evs ∧ P evs] once the
    world [w'] is explicit. *)
Ltac give_log :=
  cbn; rewrite <- ?app_assoc; eexists;
  split; [first [reflexivity | by rewrite app_nil_r]|]; cbn.

Section LoopLogs.
Context `{Platform}.
Variables (c : Client) (muxReq : Request) (origBody : bytes)
          (out : option Out).

(** A property of logs that holds of the empty log and of a concatenation
    holds of the loop's log as soon as it holds of each iteration's. *)
Lemma retry_loop_log (P : list Event → Prop) :
  P [] → (∀ a b, P a → P b → P (a ++ b)) →
  (∀ attempt w s w',
     attempt_once c muxReq origBody out attempt w = (s, w') →
     ∃ evs, trace w' = trace w ++ evs ∧ P evs) →
  ∀ fuel attempt resp lastErr w o w',
    retry_loop c muxReq origBody out fuel attempt resp lastErr w = (Done o, w') →
    ∃ evs, trace w' = trace w ++ evs ∧ P evs.
Proof.
  intros Hnil Happ Hone fuel attempt resp lastErr w o w'.
  apply (retry_loop_rule c muxReq origBody out
           (λ _ _ _ w1, ∃ evs, trace w1 = trace w ++ evs ∧ P evs)
           (λ _ w1, ∃ evs, trace w1 = trace w ++ evs ∧ P evs)).
  - intros a r e w1 (evs & Htr & HP) _.
    destruct (attempt_once c muxReq origBody out a w1) as [s w2] eqn:Hat.
    destruct (Hone _ _ _ _ Hat) as (evs' & Htr' & HP').
    assert (∃ evs0, trace w2 = trace w ++ evs0 ∧ P evs0).
    { exists (evs ++ evs'). rewrite Htr', Htr, <- app_assoc. auto. }
    by destruct s as [[??]| |].
  - auto.
  - exists []. by rewrite app_nil_r.
Qed.

(** An iteration calls neither the pre-send hook nor the serialiser, and
    calls the transport at most once, with the request built from
    [muxReq] and [origBody]. *)
Lemma attempt_once_log attempt w s w' :
  attempt_once c muxReq origBody out attempt w = (s, w') →
  ∃ evs, trace w' = trace w ++ evs ∧
         BeforeRequest_calls evs = [] ∧ Marshal_calls evs = [] ∧
         Forall (λ x, x.1.1 = new_request muxReq origBody) (Do_calls evs).
Proof.
  run_attempt; intros [= <- <-]; give_log; repeat split; repeat constructor.
Qed.

Lemma retry_loop_requests fuel attempt resp lastErr w o w' :
  retry_loop c muxReq origBody out fuel attempt resp lastErr w = (Done o, w') →
  ∃ evs, trace w' = trace w ++ evs ∧
         BeforeRequest_calls evs = [] ∧ Marshal_calls evs = [] ∧
         Forall (λ x, x.1.1 = new_request muxReq origBody) (Do_calls evs).
Proof.
  apply (retry_loop_log
           (λ evs, BeforeRequest_calls evs = [] ∧ Marshal_calls evs = [] ∧
                   Forall (λ x, x.1.1 = new_request muxReq origBody)
                          (Do_calls evs))).
  - repeat split. constructor.
  - intros a b (Ha1 & Ha2 & Ha3) (Hb1 & Hb2 & Hb3).
    rewrite BeforeRequest_calls_app, Marshal_calls_app, Do_calls_app, Ha1,
      Ha2, Hb1, Hb2. repeat split. by apply Forall_app.
  - apply attempt_once_log.
Qed.

End LoopLogs.

(** Rewriting observers over concatenated logs and over the deferred
    calls. *)
Lemma rhythm_run_call `{Platform} ds : rhythm (map run_call ds) = [].
Proof. by apply omap_run_call. Qed.
Lemma Do_calls_run_call `{Platform} ds : Do_calls (map run_call ds) = [].
Proof. by apply omap_run_call. Qed.
Lemma transport_calls_run_call `{Platform} ds :
  transport_calls (map run_call ds) = 0%nat.
Proof. unfold transport_calls. by rewrite Do_calls_run_call. Qed.
Lemma sleeps_run_call `{Platform} ds : sleeps (map run_call ds) = [].
Proof. by apply omap_run_call. Qed.
Lemma BeforeRequest_calls_run_call `{Platform} ds :
  BeforeRequest_calls (map run_call ds) = [].
Proof. by apply omap_run_call. Qed.
Lemma AfterResponse_calls_run_call `{Platform} ds :
  AfterResponse_calls (map run_call ds) = [].
Proof. by apply omap_run_call. Qed.
Lemma Marshal_calls_run_call `{Platform} ds :
  Marshal_calls (map run_call ds) = [].
Proof. by apply omap_run_call. Qed.
Lemma bodies_read_run_call `{Platform} ds : bodies_read (map run_call ds) = [].
Proof. by apply omap_run_call. Qed.
Lemma responses_run_call `{Platform} ds : responses (map run_call ds) = [].
Proof. by apply omap_run_call. Qed.

Create Rewrite HintDb logs.
#[global] Hint Rewrite @run_deferred_trace @rhythm_app @Do_calls_app
  @sleeps_app @BeforeRequest_calls_app @AfterResponse_calls_app
  @Marshal_calls_app @bodies_read_app @responses_app @transport_calls_app
  @rhythm_run_call @Do_calls_run_call @transport_calls_run_call @sleeps_run_call
  @BeforeRequest_calls_run_call @AfterResponse_calls_run_call
  @Marshal_calls_run_call @bodies_read_run_call @responses_run_call : logs.

(** ** The pre-send hook *)

(** C3.  When the pre-send hook is set and the descriptor is built (the
    URL resolves), a call that returns has invoked the hook exactly once,
    on that descriptor, however many attempts it made; and when the hook
    returns an error the call returns that error, wrapped, with a nil
    response and without a single transport call, whatever the fuel. *)
Theorem BeforeRequest_once `{Platform} (c : Client) (ctx : option Ctx)
    (method rawURL : string) (body : option Value) (out : option Out)
    (hs : MapRef) (w w0 : World) (muxReq : Request)
    (hook : Request → Env → (Request * option error) * Env) :
  BeforeRequest c = Some hook →
  describe c ctx method rawURL body hs w = (Next muxReq, w0) →
  (∀ fuel o w',
     DoRequest c fuel ctx method rawURL body out hs w = Some (o, w') →
     ∃ evs, trace w' = trace w ++ evs ∧
            BeforeRequest_calls evs = [(muxReq, (hook muxReq (env w0)).1.2)]) ∧
  (∀ e, (hook muxReq (env w0)).1.2 = Some e →
     ∀ fuel, ∃ w' evs,
       DoRequest c fuel ctx method rawURL body out hs w
       = Some (Returned None (Some (before_request_hook_failed e)), w') ∧
       trace w' = trace w ++ evs ∧
       transport_calls evs = 0%nat ∧
       BeforeRequest_calls evs = [(muxReq, Some e)]).
Proof.
  intros Hhook Hdesc.
  pose proof (describe_trace _ _ _ _ _ _ _ _ _ Hdesc) as [Htr0 _].
  split.
  - intros fuel o w'.
    rewrite DoRequest_unfold, prepare_unfold, Hdesc, before_send_result, Hhook.
    cbn zeta. destruct ((hook muxReq (env w0)).1.2) as [e|] eqn:Herr.
    { intros [= <- <-]. rewrite run_deferred_trace. cbn [trace set_trace].
      rewrite Htr0, <- app_assoc. eexists; split; [reflexivity|].
      by autorewrite with logs. }
    rewrite serialize_result.
    destruct (Body _) as [v|]; cbn zeta; [destruct (json_Marshal v) as [b|e]|].
    2:{ intros [= <- <-]. rewrite run_deferred_trace. cbn [trace set_trace].
        rewrite Htr0, <- !app_assoc. eexists; split; [reflexivity|].
        by autorewrite with logs. }
    all: destruct (retry_loop _ _ _ _ _ _ _ _ _) as [[[]|o1|] w2] eqn:Hloop;
      [|done]; intros [= <- <-];
      apply retry_loop_requests in Hloop as (evs & Htr & Hb & _);
      rewrite run_deferred_trace, Htr; cbn [trace set_trace set_env];
      rewrite Htr0, <- !app_assoc; eexists; (split; [reflexivity|]);
      autorewrite with logs; by rewrite Hb.
  - intros e Herr fuel.
    rewrite DoRequest_unfold, prepare_unfold, Hdesc, before_send_result, Hhook.
    cbn zeta. rewrite Herr. eexists _, _. split; [reflexivity|].
    rewrite run_deferred_trace. cbn [trace set_trace]. rewrite Htr0, <- app_assoc.
    split; [reflexivity|]. by autorewrite with logs.
Qed.

(** ** Serialisation of the body *)




(** ** Retries against a transport that never succeeds *)

Section Retries.
Context `{Platform}.
Variables (c : Client) (muxReq : Request) (origBody : bytes)
          (out : option Out).

(** An iteration makes at most one transport call. *)
Lemma attempt_once_calls attempt w s w' :
  attempt_once c muxReq origBody out attempt w = (s, w') →
  ∃ evs, trace w' = trace w ++ evs ∧ (transport_calls evs ≤ 1)%nat.
Proof. run_attempt; intros [= <- <-]; give_log; lia. Qed.

(** The loop makes at most [maxRetries + 1] transport calls. *)
Lemma retry_loop_calls fuel w o w' :
  maxRetries c < MaxInt →
  retry_loop c muxReq origBody out fuel 0 None None w = (Done o, w') →
  ∃ evs, trace w' = trace w ++ evs ∧
         (transport_calls evs ≤ Z.to_nat (maxRetries c + 1))%nat.
Proof.
  intros Hmax.
  apply (retry_loop_rule c muxReq origBody out
           (λ attempt _ _ w1,
              0 ≤ attempt ∧ (attempt = 0 ∨ attempt ≤ maxRetries c + 1) ∧
              ∃ evs, trace w1 = trace w ++ evs ∧
                     (transport_calls evs ≤ Z.to_nat attempt)%nat)
           (λ _ w1, ∃ evs, trace w1 = trace w ++ evs ∧
                     (transport_calls evs ≤ Z.to_nat (maxRetries c + 1))%nat)).
  - intros a r e w1 (Ha & _ & evs & Htr & Hn) Hle.
    destruct (attempt_once c muxReq origBody out a w1) as [s w2] eqn:Hat.
    destruct (attempt_once_calls _ _ _ _ Hat) as (evs' & Htr' & Hn').
    assert (Hlog : trace w2 = trace w ++ evs ++ evs')
      by (by rewrite Htr', Htr, <- app_assoc).
    assert (Hcount : (transport_calls (evs ++ evs') ≤ Z.to_nat (a + 1))%nat)
      by (rewrite transport_calls_app; lia).
    destruct s as [[r' e']|o1|]; [|eexists; split; [done|lia]|done].
    rewrite int_add_1 by (unfold MinInt, int_bits; lia).
    split; [lia|]. split; [lia|]. eauto.
  - intros a r e w1 (Ha & Hcases & evs & Htr & Hn) Hgt.
    exists evs. split; [done|]. lia.
  - split; [lia|]. split; [by left|]. exists []. by rewrite app_nil_r.
Qed.

Hypothesis request_ok :
  http_NewRequest_error (Context muxReq) (Method muxReq) (URL muxReq) = None.
Hypothesis transport_fails : ∀ req e, (client c req e).1.2 ≠ None.

(** A failed attempt: one transport call, then one sleep. *)
Lemma attempt_once_failing attempt w :
  0 ≤ attempt →
  ∃ resp e w',
    attempt_once c muxReq origBody out attempt w = (Next (resp, e), w') ∧
    ∃ evs, trace w' = trace w ++ evs ∧
           rhythm evs = [None; Some (delay c attempt)] ∧
           Do_calls evs = [(new_request muxReq origBody, resp, Some e)].
Proof.
  intros Ha. unfold attempt_once. rewrite request_ok.
  destruct (backoff_product (backoff c) attempt Ha) as (f & Hf & Hmul).
  unfold Logf, backoff_Sleep, Sleep. rewrite Hf, Hmul. fold (delay c attempt).
  cbv [mbind M_bind mret M_ret emit call].
  destruct (logger c) as [l|]; cbn [env set_env set_trace trace];
    match goal with
    | |- context [client c ?q ?e] =>
        pose proof (transport_fails q e) as Hfail;
        destruct (client c q e) as [[resp [e0|]] e1]; [|done]
    end; eexists _, _, _; (split; [reflexivity|]); by give_log.
Qed.

(** The loop against such a transport, with [n] iterations to go. *)
Lemma retry_loop_failing (n : nat) : ∀ fuel attempt resp lastErr w,
  0 ≤ attempt → maxRetries c < MaxInt →
  maxRetries c + 1 - attempt = Z.of_nat n → (n ≤ fuel)%nat →
  ∃ resp' lastErr' w' evs,
    retry_loop c muxReq origBody out fuel attempt resp lastErr w
    = (Done (Returned resp'
               (Some (request_failed_after (maxRetries c + 1) lastErr'))), w') ∧
    trace w' = trace w ++ evs ∧
    rhythm evs = flat_map (λ i, [None; Some (delay c i)]) (seqZ attempt (Z.of_nat n)) ∧
    transport_calls evs = n ∧
    match last (Do_calls evs) with
    | Some (_, r, e) => r = resp' ∧ e = lastErr' ∧ is_Some e
    | None => resp' = resp ∧ lastErr' = lastErr
    end.
Proof.
  induction n as [|n IH]; intros fuel attempt resp lastErr w Ha Hmax Hn Hfuel.
  - exists resp, lastErr, w, [].
    assert (Hloop : retry_loop c muxReq origBody out fuel attempt resp lastErr w
              = (Done (Returned resp (Some (request_failed_after
                         (int_add (maxRetries c) 1) lastErr))), w)).
    { destruct fuel; simpl; destruct (Z.leb_spec attempt (maxRetries c));
        done || lia. }
    rewrite Hloop, int_add_1 by (unfold MinInt, int_bits; lia).
    by rewrite app_nil_r.
  - destruct fuel as [|fuel]; [lia|]. simpl.
    destruct (Z.leb_spec attempt (maxRetries c)); [|lia].
    destruct (attempt_once_failing attempt w Ha)
      as (r1 & e1 & w1 & Hat & evs1 & Htr1 & Hrh1 & Hdo1).
    cbv [mbind M_bind]. rewrite Hat.
    rewrite int_add_1 by (unfold MinInt, int_bits; lia).
    destruct (IH fuel (attempt + 1) r1 (Some e1) w1)
      as (r2 & e2 & w2 & evs2 & Hloop & Htr2 & Hrh2 & Hn2 & Hlast);
      [lia..|].
    exists r2, e2, w2, (evs1 ++ evs2). rewrite Hloop.
    split; [done|]. split; [by rewrite Htr2, Htr1, <- app_assoc|].
    split; [|split].
    + rewrite rhythm_app, Hrh1, Hrh2.
      rewrite (seqZ_cons attempt) by lia. cbn [flat_map app].
      by replace (Z.pred (Z.of_nat (S n))) with (Z.of_nat n) by lia.
    + rewrite transport_calls_app, Hn2. unfold transport_calls.
      by rewrite Hdo1.
    + rewrite Do_calls_app, Hdo1.
      destruct (Do_calls evs2) as [|x xs] eqn:Hxs using rev_ind.
      * cbn in *. destruct Hlast as [-> ->]. eauto.
      * rewrite app_assoc, last_snoc. by rewrite last_snoc in Hlast.
Qed.

End Retries.

Lemma prepare_falls_or_returns `{Platform} c ctx method rawURL body hs w :
  (prepare c ctx method rawURL body hs w).1 ≠ OutOfFuel.
Proof.
  rewrite prepare_unfold, describe_result.
  destruct (resolveURL c rawURL); [|done].
  rewrite before_send_result.
  destruct (BeforeRequest c) as [hook|]; cbn zeta;
    [destruct ((hook _ _).1.2)|]; rewrite ?serialize_result;
    by repeat case_match.
Qed.

Lemma flat_map_agree {A B} (f g : A → list B) (l : list A) :
  (∀ x, x ∈ l → f x = g x) → flat_map f l = flat_map g l.
Proof.
  induction l as [|a l IH]; intros Hfg; [done|]. cbn.
  rewrite (Hfg a) by left. rewrite IH; [done|].
  intros x Hx. apply Hfg. by right.
Qed.

Lemma delay_nominal `{Platform} (c : Client) (i : Z) :
  MinInt ≤ nominal_delay c i ≤ MaxInt → delay c i = nominal_delay c i.
Proof. apply wrap64_id. Qed.

(** C1, amended.  With [0 ≤ maxRetries < MaxInt] and fuel for
    [maxRetries + 1] iterations, a call returns, after at most
    [maxRetries + 1] transport calls (at most one when [maxRetries] is 0).
    When the steps before the loop fall through,
    [http.NewRequestWithContext] accepts the descriptor and the transport
    fails on every call, it makes exactly [maxRetries + 1] transport calls,
    sleeps after the failed attempt [i] for the [int64] value of
    [backoff * 2^i] (which is [backoff * 2^i] whenever these products fit
    in [int64]), and returns the response of the last transport call with
    an error that reports [maxRetries + 1] attempts and wraps the error of
    that last call. *)
Theorem retries_exhausted `{Platform} (c : Client) (fuel : nat)
    (ctx : option Ctx) (method rawURL : string) (body : option Value)
    (out : option Out) (hs : MapRef) (w : World) :
  0 ≤ maxRetries c < MaxInt →
  (Z.to_nat (maxRetries c) < fuel)%nat →
  ∃ o w' evs,
    DoRequest c fuel ctx method rawURL body out hs w = Some (o, w') ∧
    trace w' = trace w ++ evs ∧
    (transport_calls evs ≤ Z.to_nat (maxRetries c + 1))%nat ∧
    (maxRetries c = 0 → (transport_calls evs ≤ 1)%nat) ∧
    (∀ muxReq origBody w1,
       prepare c ctx method rawURL body hs w = (Next (muxReq, origBody), w1) →
       http_NewRequest_error (Context muxReq) (Method muxReq) (URL muxReq) = None →
       (∀ req e, (client c req e).1.2 ≠ None) →
       transport_calls evs = Z.to_nat (maxRetries c + 1) ∧
       rhythm evs = flat_map (λ i, [None; Some (delay c i)])
                             (attempts (maxRetries c + 1)) ∧
       ((∀ i, 0 ≤ i ≤ maxRetries c → MinInt ≤ nominal_delay c i ≤ MaxInt) →
        rhythm evs = flat_map (λ i, [None; Some (nominal_delay c i)])
                              (attempts (maxRetries c + 1))) ∧
       ∃ q resp e,
         last (Do_calls evs) = Some (q, resp, Some e) ∧
         o = Returned resp
               (Some (request_failed_after (maxRetries c + 1) (Some e))) ∧
         Unwrap (request_failed_after (maxRetries c + 1) (Some e)) = Some e).
Proof.
  intros HN Hfuel. rewrite DoRequest_unfold.
  pose proof (prepare_falls_or_returns c ctx method rawURL body hs w) as Hprep0.
  destruct (prepare c ctx method rawURL body hs w)
    as [[[muxReq origBody]|o|] w1] eqn:Hprep; [| |done].
  - destruct (prepare_log _ _ _ _ _ _ _ _ _ Hprep)
      as (evs0 & Htr0 & Hrh0 & Hdo0 & _).
    destruct (retry_loop_terminates c muxReq origBody out fuel 0 None None w1)
      as (o & w2 & Hloop); [unfold MinInt, int_bits; lia|lia|lia|].
    rewrite Hloop.
    destruct (retry_loop_calls c muxReq origBody out fuel w1 o w2)
      as (evs & Htr & Hcalls); [lia|done|].
    exists o, (run_deferred w2), (evs0 ++ evs ++ map run_call (deferred w2)).
    split; [done|].
    split; [by rewrite run_deferred_trace, Htr, Htr0, <- !app_assoc|].
    assert (Hbound : (transport_calls (evs0 ++ evs ++ map run_call (deferred w2))
                      ≤ Z.to_nat (maxRetries c + 1))%nat).
    { autorewrite with logs. unfold transport_calls at 1. rewrite Hdo0.
      cbn [length]. lia. }
    split; [done|]. split; [intros H0; rewrite H0 in Hbound; exact Hbound|].
    intros muxReq' origBody' w1' [= <- <- <-] Hreq Hfail.
    destruct (retry_loop_failing c muxReq origBody out Hreq Hfail
                (Z.to_nat (maxRetries c + 1)) fuel 0 None None w1)
      as (r2 & e2 & w2' & evs' & Hloop' & Htr' & Hrh & Hn & Hlast);
      [lia..|].
    rewrite Hloop in Hloop'. injection Hloop' as -> <-.
    rewrite Htr in Htr'. apply app_inv_head in Htr' as <-.
    rewrite Z2Nat.id in Hrh by lia.
    assert (Hrhythm : rhythm (evs0 ++ evs ++ map run_call (deferred w2))
              = flat_map (λ i, [None; Some (delay c i)])
                         (attempts (maxRetries c + 1))).
    { autorewrite with logs. by rewrite Hrh0, Hrh, app_nil_r. }
    split; [|split; [done|split]].
    + autorewrite with logs. unfold transport_calls at 1. rewrite Hdo0, Hn.
      cbn [length]. lia.
    + intros Hfit. rewrite Hrhythm. unfold attempts.
      apply flat_map_agree. intros i Hi. apply elem_of_seqZ in Hi.
      rewrite delay_nominal; [done|]. apply Hfit. lia.
    + autorewrite with logs. rewrite Hdo0, app_nil_r. cbn [app].
      destruct (last (Do_calls evs)) as [[[q r] e]|] eqn:Hl.
      * destruct Hlast as (-> & -> & [e' ->]). by eexists _, _, _.
      * apply last_None in Hl. unfold transport_calls in Hn.
        rewrite Hl in Hn. cbn in Hn. lia.
  - destruct (prepare_log _ _ _ _ _ _ _ _ _ Hprep)
      as (evs0 & Htr0 & Hrh0 & Hdo0 & _).
    exists o, (run_deferred w1), (evs0 ++ map run_call (deferred w1)).
    split; [done|].
    split; [by rewrite run_deferred_trace, Htr0, <- !app_assoc|].
    assert (Hzero : transport_calls (evs0 ++ map run_call (deferred w1)) = 0%nat).
    { autorewrite with logs. unfold transport_calls. by rewrite Hdo0. }
    rewrite Hzero. split; [lia|]. split; [lia|]. done.
Qed.

(** ** An attempt that receives a response *)

Section Response.
Context `{Platform}.
Variables (c : Client) (muxReq : Request) (origBody : bytes)
          (out : option Out) (attempt : Z) (w : World)
          (r : http_Response) (e1 : Env).

Hypothesis request_ok :
  http_NewRequest_error (Context muxReq) (Method muxReq) (URL muxReq) = None.
Hypothesis transport_ok :
  client c (new_request muxReq origBody) (Do_env c muxReq attempt (env w))
  = ((Some r, None), e1).
Hypothesis body_ok : read_error (resp_Body r) = None.

Lemma is_2xx_branch code :
  (code <? 200) || (300 <=? code) = negb (is_2xx code).
Proof. unfold is_2xx. lia. Qed.

(** The hook passes and the status is 2xx: the iteration decodes and
    returns. *)
Lemma attempt_once_2xx x' e2 :
  run_AfterResponse c (received r) e1 = ((x', None), e2) →
  is_2xx (resp_StatusCode (raw x')) = true →
  ∃ w1 evs,
    attempt_once c muxReq origBody out attempt w
    = decode out (buffer x') (raw x') w1 ∧
    trace w1 = trace w ++ evs ∧ env w1 = e2 ∧ stored w1 = stored w ∧
    Do_calls evs = [(new_request muxReq origBody, Some r, None)] ∧
    sleeps evs = [] ∧ bodies_read evs = [unread (resp_Body r)].
Proof.
  intros Hhook H2xx. unfold attempt_once. rewrite request_ok.
  unfold Do_env, Logf_env in transport_ok.
  unfold run_AfterResponse, received, io_ReadAll in Hhook.
  cbn [fst snd] in Hhook. rewrite body_ok in Hhook.
  unfold Logf. cbv [mbind M_bind mret M_ret emit call defer io_ReadAll].
  destruct (logger c) as [l|]; cbn [env set_env set_trace trace];
    rewrite transport_ok; cbn [env set_env set_trace trace];
    rewrite body_ok;
    (destruct (AfterResponse c) as [hook|];
     [cbn [env set_env set_trace trace]; rewrite Hhook|injection Hhook as <- <-]);
    cbn [env set_env set_trace trace set_deferred deferred];
    rewrite is_2xx_branch, H2xx; cbn [negb];
    eexists _, _; (split; [reflexivity|]); by give_log.
Qed.

(** The hook passes and the status is not 2xx: the iteration reads the
    body that is left in [resp.Body], records the status error, sleeps and
    falls through. *)
Lemma attempt_once_not_2xx x' e2 :
  0 ≤ attempt →
  run_AfterResponse c (received r) e1 = ((x', None), e2) →
  is_2xx (resp_StatusCode (raw x')) = false →
  ∃ w1 evs,
    attempt_once c muxReq origBody out attempt w
    = (Next (Some (with_Body (raw x') (io_ReadAll (resp_Body (raw x'))).2),
             HTTP_status (resp_StatusCode (raw x'))
                         (unread (resp_Body (raw x')))), w1) ∧
    trace w1 = trace w ++ evs ∧ stored w1 = stored w ∧
    Do_calls evs = [(new_request muxReq origBody, Some r, None)] ∧
    sleeps evs = [delay c attempt] ∧
    bodies_read evs = [unread (resp_Body r)].
Proof.
  intros Ha Hhook H2xx. unfold attempt_once. rewrite request_ok.
  unfold Do_env, Logf_env in transport_ok.
  unfold run_AfterResponse, received, io_ReadAll in Hhook.
  cbn [fst snd] in Hhook. rewrite body_ok in Hhook.
  destruct (backoff_product (backoff c) attempt Ha) as (f & Hf & Hmul).
  unfold Logf, backoff_Sleep, Sleep. rewrite Hf, Hmul. fold (delay c attempt).
  cbv [mbind M_bind mret M_ret emit call defer io_ReadAll].
  destruct (logger c) as [l|]; cbn [env set_env set_trace trace];
    rewrite transport_ok; cbn [env set_env set_trace trace];
    rewrite body_ok;
    (destruct (AfterResponse c) as [hook|];
     [cbn [env set_env set_trace trace]; rewrite Hhook|injection Hhook as <- <-]);
    cbn [env set_env set_trace trace set_deferred deferred];
    rewrite is_2xx_branch, H2xx; cbn [negb];
    eexists _, _; (split; [reflexivity|]); by give_log.
Qed.

(** The hook returns an error: the iteration returns it with the
    response. *)
Lemma attempt_once_hook_error x' e e2 :
  run_AfterResponse c (received r) e1 = ((x', Some e), e2) →
  ∃ w1 evs,
    attempt_once c muxReq origBody out attempt w
    = (Done (Returned (Some (raw x')) (Some (after_response_hook_failed e))),
       w1) ∧
    trace w1 = trace w ++ evs ∧ stored w1 = stored w ∧
    Do_calls evs = [(new_request muxReq origBody, Some r, None)] ∧
    sleeps evs = [] ∧
    AfterResponse_calls evs = [(descriptor (received r), Some e)].
Proof.
  intros Hhook. unfold attempt_once. rewrite request_ok.
  unfold Do_env, Logf_env in transport_ok.
  unfold run_AfterResponse in Hhook. unfold received, io_ReadAll.
  unfold received, io_ReadAll in Hhook.
  cbn [fst snd] in *. rewrite body_ok in *.
  unfold Logf. cbv [mbind M_bind mret M_ret emit call defer io_ReadAll].
  destruct (logger c) as [l|]; cbn [env set_env set_trace trace];
    rewrite transport_ok; cbn [env set_env set_trace trace];
    rewrite body_ok;
    (destruct (AfterResponse c) as [hook|]; [|discriminate Hhook]);
    cbn [env set_env set_trace trace]; rewrite Hhook;
    eexists _, _; (split; [reflexivity|]); by give_log.
Qed.

End Response.

(** ** Decoding *)

Lemma retry_loop_step `{Platform} c muxReq origBody out fuel attempt resp
    lastErr w :
  attempt ≤ maxRetries c →
  retry_loop c muxReq origBody out (S fuel) attempt resp lastErr w
  = match attempt_once c muxReq origBody out attempt w with
    | (Next (resp', e), w') =>
        retry_loop c muxReq origBody out fuel (int_add attempt 1) resp'
                   (Some e) w'
    | (Done o, w') => (Done o, w')
    | (OutOfFuel, w') => (OutOfFuel, w')
    end.
Proof.
  intros Hle. simpl. destruct (Z.leb_spec attempt (maxRetries c)); [|lia].
  cbv [mbind M_bind].
  by destruct (attempt_once c muxReq origBody out attempt w) as [[[??]| |] ?].
Qed.

(** An iteration that receives a 2xx response and whose hook passes ends
    the call: one transport call, no sleep, and [out] written from the
    bytes of [rawBody]. *)
Lemma retry_loop_decodes `{Platform} (c : Client) (muxReq : Request)
    (origBody : bytes) (out : option Out) (fuel : nat) (attempt : Z)
    (resp : option http_Response) (lastErr : option error) (w : World)
    (r : http_Response) (e1 e2 : Env) (x' : Exchange) :
  attempt ≤ maxRetries c →
  http_NewRequest_error (Context muxReq) (Method muxReq) (URL muxReq) = None →
  client c (new_request muxReq origBody) (Do_env c muxReq attempt (env w))
  = ((Some r, None), e1) →
  read_error (resp_Body r) = None →
  run_AfterResponse c (received r) e1 = ((x', None), e2) →
  is_2xx (resp_StatusCode (raw x')) = true →
  ∃ o w' evs,
    retry_loop c muxReq origBody out (S fuel) attempt resp lastErr w
    = (Done o, w') ∧
    trace w' = trace w ++ evs ∧ transport_calls evs = 1%nat ∧ sleeps evs = [] ∧
    match out with
    | None => o = Returned (Some (raw x')) None ∧ stored w' = stored w
    | Some string_pointer =>
        o = Returned (Some (raw x')) None ∧
        stored w' = Some (stored_string (buffer x'))
    | Some (other_pointer target) =>
        stored w' = Some (stored_JSON (json_Unmarshal (buffer x') target).1) ∧
        match (json_Unmarshal (buffer x') target).2 with
        | None => o = Returned (Some (raw x')) None
        | Some e =>
            o = Returned (Some (raw x'))
                  (Some (failed_to_decode_response (Foreign_error e)))
        end
    end.
Proof.
  intros Hle Hreq Hdo Hread Hhook H2xx.
  destruct (attempt_once_2xx c muxReq origBody out attempt w r e1
              Hreq Hdo Hread x' e2 Hhook H2xx)
    as (w1 & evs & Hat & Htr & _ & Hst & Hdo1 & Hsl & _).
  rewrite retry_loop_step, Hat by done.
  assert (Hcalls : transport_calls evs = 1%nat)
    by (unfold transport_calls; by rewrite Hdo1).
  unfold decode. cbv [mbind M_bind store return_].
  destruct out as [[|target]|].
  - eexists _, _, evs. split; [reflexivity|]. by cbn.
  - destruct (json_Unmarshal (buffer x') target) as [v [e|]];
      eexists _, _, evs; (split; [reflexivity|]); by cbn.
  - eexists _, _, evs. split; [reflexivity|]. by cbn.
Qed.

(** C8.  At any iteration of the loop in which the transport hands over a
    response without error, the body is read, the hook (if any) passes and
    the status is 2xx, the call returns in that iteration, after that one
    transport call and without sleeping.  A [*string] target receives the
    bytes of [rawBody]; any other target receives what [json.Unmarshal]
    makes of these bytes, and an error of [json.Unmarshal] is returned,
    wrapped, with the response.  Without a hook, [rawBody] holds the bytes
    the transport delivered. *)
Theorem decode_on_success `{Platform} (c : Client) (muxReq : Request)
    (origBody : bytes) (out : option Out) (fuel : nat) (attempt : Z)
    (resp : option http_Response) (lastErr : option error) (w : World)
    (r : http_Response) (e1 e2 : Env) (x' : Exchange) :
  attempt ≤ maxRetries c →
  http_NewRequest_error (Context muxReq) (Method muxReq) (URL muxReq) = None →
  client c (new_request muxReq origBody) (Do_env c muxReq attempt (env w))
  = ((Some r, None), e1) →
  read_error (resp_Body r) = None →
  run_AfterResponse c (received r) e1 = ((x', None), e2) →
  is_2xx (resp_StatusCode (raw x')) = true →
  (AfterResponse c = None → buffer x' = unread (resp_Body r)) ∧
  ∃ o w' evs,
    retry_loop c muxReq origBody out (S fuel) attempt resp lastErr w
    = (Done o, w') ∧
    trace w' = trace w ++ evs ∧ transport_calls evs = 1%nat ∧ sleeps evs = [] ∧
    match out with
    | None => o = Returned (Some (raw x')) None ∧ stored w' = stored w
    | Some string_pointer =>
        o = Returned (Some (raw x')) None ∧
        stored w' = Some (stored_string (buffer x'))
    | Some (other_pointer target) =>
        stored w' = Some (stored_JSON (json_Unmarshal (buffer x') target).1) ∧
        match (json_Unmarshal (buffer x') target).2 with
        | None => o = Returned (Some (raw x')) None
        | Some e =>
            o = Returned (Some (raw x'))
                  (Some (failed_to_decode_response (Foreign_error e)))
        end
    end.
Proof.
  intros Hle Hreq Hdo Hread Hhook H2xx. split.
  - intros Hnone. unfold run_AfterResponse in Hhook. rewrite Hnone in Hhook.
    by injection Hhook as <- _.
  - by eapply retry_loop_decodes.
Qed.

(** ** Status errors *)

(** Without a post-receive hook, the error recorded for a status outside
    [200, 300) has an empty body, whatever the response carried: the body
    was read into [rawBody] before, and [resp.Body] has nothing left for
    the second [io.ReadAll]. *)
Lemma status_error_without_body `{Platform} (c : Client) (muxReq : Request)
    (origBody : bytes) (out : option Out) (attempt : Z) (w : World)
    (r : http_Response) (e1 : Env) :
  0 ≤ attempt →
  AfterResponse c = None →
  http_NewRequest_error (Context muxReq) (Method muxReq) (URL muxReq) = None →
  client c (new_request muxReq origBody) (Do_env c muxReq attempt (env w))
  = ((Some r, None), e1) →
  read_error (resp_Body r) = None →
  is_2xx (resp_StatusCode r) = false →
  ∃ resp' w1 evs,
    attempt_once c muxReq origBody out attempt w
    = (Next (Some resp', HTTP_status (resp_StatusCode r) []), w1) ∧
    trace w1 = trace w ++ evs ∧
    bodies_read evs = [unread (resp_Body r)] ∧
    sleeps evs = [delay c attempt].
Proof.
  intros Ha Hnone Hreq Hdo Hread H2xx.
  assert (Hhook : run_AfterResponse c (received r) e1 = ((received r, None), e1))
    by (unfold run_AfterResponse; by rewrite Hnone).
  destruct (attempt_once_not_2xx c muxReq origBody out attempt w r e1
              Hreq Hdo Hread (received r) e1 Ha Hhook H2xx)
    as (w1 & evs & Hat & Htr & _ & Hdo1 & Hsl & Hbodies).
  by eexists _, w1, evs.
Qed.

(** ** The post-receive hook *)

Section AfterResponseHook.
Context `{Platform}.
Variables (c : Client) (muxReq : Request) (origBody : bytes)
          (out : option Out).

Lemma hook_log_ok_app a b : hook_log_ok a → hook_log_ok b → hook_log_ok (a ++ b).
Proof.
  intros (Ha1 & Ha2 & Ha3) (Hb1 & Hb2 & Hb3). unfold hook_log_ok.
  rewrite AfterResponse_calls_app, bodies_read_app, responses_app, !length_app.
  repeat split; [lia..|].
  intros [Hra Hrb]%Forall_app. rewrite Ha3, Hb3; done.
Qed.

Lemma attempt_once_hook_log hook attempt w s w' :
  AfterResponse c = Some hook →
  attempt_once c muxReq origBody out attempt w = (s, w') →
  ∃ evs, trace w' = trace w ++ evs ∧ hook_log_ok evs ∧
         (length (responses evs) ≤ transport_calls evs ≤ 1)%nat.
Proof.
  intros Hhook. run_attempt; intros [= <- <-]; give_log;
    unfold hook_log_ok, transport_calls; cbn;
    repeat (case_match; simplify_eq/=);
    (split; [repeat split; try lia|lia]).
  all: intros [? _]%Forall_cons; congruence.
Qed.

Lemma retry_loop_hook_log hook fuel attempt resp lastErr w o w' :
  AfterResponse c = Some hook →
  retry_loop c muxReq origBody out fuel attempt resp lastErr w = (Done o, w') →
  ∃ evs, trace w' = trace w ++ evs ∧ hook_log_ok evs.
Proof.
  intros Hhook. apply (retry_loop_log c muxReq origBody out hook_log_ok).
  - repeat split; cbn; lia || done.
  - apply hook_log_ok_app.
  - intros a w1 s w2 Hat.
    destruct (attempt_once_hook_log hook _ _ _ _ Hhook Hat) as (evs & ? & ? & _).
    eauto.
Qed.

End AfterResponseHook.

Lemma hook_log_ok_quiet `{Platform} (evs : list Event) :
  AfterResponse_calls evs = [] → bodies_read evs = [] → responses evs = [] →
  hook_log_ok evs.
Proof. intros Ha Hb Hr. unfold hook_log_ok. by rewrite Ha, Hb, Hr. Qed.

(** C4, amended.  With a post-receive hook set: every iteration of the
    loop, and so every call, invokes the hook exactly once for each
    response whose body was read in full, and at most once per transport
    call; that is once per response of the transport when every body reads
    without error.  When the hook returns an error the call returns in
    that iteration, with the response and the error wrapped, after that
    one transport call and without sleeping. *)
Theorem AfterResponse_once_per_body `{Platform} (c : Client)
    (hook : Exchange → Env → (Exchange * option error) * Env) :
  AfterResponse c = Some hook →
  (∀ muxReq origBody out attempt w s w',
     attempt_once c muxReq origBody out attempt w = (s, w') →
     ∃ evs, trace w' = trace w ++ evs ∧
            length (AfterResponse_calls evs) = length (bodies_read evs) ∧
            (length (bodies_read evs) ≤ length (responses evs)
             ≤ transport_calls evs ≤ 1)%nat) ∧
  (∀ fuel ctx method rawURL body out hs w o w',
     DoRequest c fuel ctx method rawURL body out hs w = Some (o, w') →
     ∃ evs, trace w' = trace w ++ evs ∧
            length (AfterResponse_calls evs) = length (bodies_read evs) ∧
            (Forall (λ r, read_error (resp_Body r) = None) (responses evs) →
             hook_per_response evs)) ∧
  (∀ muxReq origBody out fuel attempt resp lastErr w r e1 x' e e2,
     attempt ≤ maxRetries c →
     http_NewRequest_error (Context muxReq) (Method muxReq) (URL muxReq) = None →
     client c (new_request muxReq origBody) (Do_env c muxReq attempt (env w))
     = ((Some r, None), e1) →
     read_error (resp_Body r) = None →
     hook (received r) e1 = ((x', Some e), e2) →
     ∃ w' evs,
       retry_loop c muxReq origBody out (S fuel) attempt resp lastErr w
       = (Done (Returned (Some (raw x'))
                         (Some (after_response_hook_failed e))), w') ∧
       trace w' = trace w ++ evs ∧ transport_calls evs = 1%nat ∧
       sleeps evs = [] ∧
       AfterResponse_calls evs = [(descriptor (received r), Some e)]).
Proof.
  intros Hhook. split; [|split].
  - intros muxReq origBody out attempt w s w' Hat.
    destruct (attempt_once_hook_log c muxReq origBody out hook _ _ _ _ Hhook Hat)
      as (evs & Htr & (H1 & H2 & _) & H3).
    exists evs. repeat split; done || lia.
  - intros fuel ctx method rawURL body out hs w o w'.
    rewrite DoRequest_unfold.
    assert (Hfinal : ∀ evs, hook_log_ok evs →
              length (AfterResponse_calls evs) = length (bodies_read evs) ∧
              (Forall (λ r, read_error (resp_Body r) = None) (responses evs) →
               hook_per_response evs)).
    { intros evs (H1 & H2 & H3). split; [done|]. intros Hall.
      unfold hook_per_response. rewrite H1. by apply H3. }
    assert (Hdefer : ∀ ds, hook_log_ok (map run_call ds)).
    { intros ds. apply hook_log_ok_quiet; by autorewrite with logs. }
    destruct (prepare c ctx method rawURL body hs w)
      as [[[muxReq origBody]|o0|] w1] eqn:Hprep; [| |done];
      destruct (prepare_log _ _ _ _ _ _ _ _ _ Hprep)
        as (evs0 & Htr0 & _ & _ & Ha0 & Hb0 & Hr0);
      pose proof (hook_log_ok_quiet evs0 Ha0 Hb0 Hr0) as Hok0.
    + destruct (retry_loop _ _ _ _ _ _ _ _ _) as [[[]|o1|] w2] eqn:Hloop;
        [|done]. intros [= <- <-].
      destruct (retry_loop_hook_log c muxReq origBody out hook _ _ _ _ _ _ _
                  Hhook Hloop) as (evs & Htr & Hok).
      exists (evs0 ++ evs ++ map run_call (deferred w2)).
      split; [by rewrite run_deferred_trace, Htr, Htr0, <- !app_assoc|].
      apply Hfinal. by repeat apply hook_log_ok_app.
    + intros [= <- <-]. exists (evs0 ++ map run_call (deferred w1)).
      split; [by rewrite run_deferred_trace, Htr0, <- !app_assoc|].
      apply Hfinal. by apply hook_log_ok_app.
  - intros muxReq origBody out fuel attempt resp lastErr w r e1 x' e e2
      Hle Hreq Hdo Hread Hx.
    assert (Hrun : run_AfterResponse c (received r) e1 = ((x', Some e), e2))
      by (unfold run_AfterResponse; by rewrite Hhook).
    destruct (attempt_once_hook_error c muxReq origBody out attempt w r e1
                Hreq Hdo Hread x' e e2 Hrun)
      as (w1 & evs & Hat & Htr & _ & Hdo1 & Hsl & Hafter).
    exists w1, evs. rewrite retry_loop_step, Hat by done.
    unfold transport_calls. by rewrite Hdo1.
Qed.

(** ** Reassigning the descriptor's body *)

Section Reassign.
Context `{Platform}.
Variables (c : Client)
          (hook : Exchange → Env → (Exchange * option error) * Env)
          (other : Exchange → bytes).

Lemma attempt_once_reassign muxReq origBody out attempt w :
  attempt_once (SetAfterResponseHook c (Some (then_reassign_Body hook other)))
               muxReq origBody out attempt w
  = attempt_once (SetAfterResponseHook c (Some hook))
                 muxReq origBody out attempt w.
Proof.
  unfold then_reassign_Body, attempt_once, decode, Logf, backoff_Sleep, Sleep.
  cbv [mbind M_bind mret M_ret emit call defer store return_ panic io_ReadAll].
  cbn [SetAfterResponseHook client logger backoff AfterResponse].
  repeat (case_match; simplify_eq/=); done.
Qed.

Lemma retry_loop_reassign muxReq origBody out fuel :
  ∀ attempt resp lastErr w,
    retry_loop (SetAfterResponseHook c (Some (then_reassign_Body hook other)))
               muxReq origBody out fuel attempt resp lastErr w
    = retry_loop (SetAfterResponseHook c (Some hook))
                 muxReq origBody out fuel attempt resp lastErr w.
Proof.
  induction fuel as [|fuel IH]; intros attempt resp lastErr w; [done|].
  cbn [retry_loop SetAfterResponseHook maxRetries].
  destruct (attempt <=? maxRetries c); [|done].
  cbv [mbind M_bind]. rewrite attempt_once_reassign.
  destruct (attempt_once _ _ _ _ _ _) as [[[r e]| |] w1]; [|done..].
  apply IH.
Qed.

End Reassign.

(** C10.  A hook followed by an assignment to the descriptor's [Body]
    field gives the same call, in every respect, as the hook alone.  And
    when such a hook passes on a 2xx response without writing through the
    slice, what is decoded into the target are the bytes read from the
    transport before the hook ran. *)
Theorem Body_reassignment_unobserved `{Platform} (c : Client)
    (hook : Exchange → Env → (Exchange * option error) * Env)
    (other : Exchange → bytes) :
  let c' := SetAfterResponseHook c (Some (then_reassign_Body hook other)) in
  (∀ fuel ctx method rawURL body out hs w,
     DoRequest c' fuel ctx method rawURL body out hs w
     = DoRequest (SetAfterResponseHook c (Some hook))
                 fuel ctx method rawURL body out hs w) ∧
  (∀ muxReq origBody out fuel attempt resp lastErr w r e1 x' e2,
     attempt ≤ maxRetries c →
     http_NewRequest_error (Context muxReq) (Method muxReq) (URL muxReq) = None →
     client c (new_request muxReq origBody) (Do_env c muxReq attempt (env w))
     = ((Some r, None), e1) →
     read_error (resp_Body r) = None →
     hook (received r) e1 = ((x', None), e2) →
     buffer x' = unread (resp_Body r) →
     is_2xx (resp_StatusCode (raw x')) = true →
     ∃ o w',
       retry_loop c' muxReq origBody out (S fuel) attempt resp lastErr w
       = (Done o, w') ∧
       match out with
       | None => stored w' = stored w
       | Some string_pointer =>
           stored w' = Some (stored_string (unread (resp_Body r)))
       | Some (other_pointer target) =>
           stored w'
           = Some (stored_JSON (json_Unmarshal (unread (resp_Body r)) target).1)
       end).
Proof.
  intros c'. split.
  - intros fuel ctx method rawURL body out hs w. subst c'.
    rewrite !DoRequest_unfold.
    change (prepare (SetAfterResponseHook c (Some (then_reassign_Body hook other))))
      with (prepare (SetAfterResponseHook c (Some hook))).
    destruct (prepare _ _ _ _ _ _ _) as [[[muxReq origBody]| |] w1]; [|done..].
    by rewrite retry_loop_reassign.
  - intros muxReq origBody out fuel attempt resp lastErr w r e1 x' e2
      Hle Hreq Hdo Hread Hhook Hbuf H2xx.
    edestruct (retry_loop_decodes c' muxReq origBody out fuel attempt resp
                 lastErr w r e1 e2) as (o & w' & evs & Hloop & _ & _ & _ & Hout);
      [exact Hle | exact Hreq | exact Hdo | exact Hread
      | unfold run_AfterResponse, c'; cbn [SetAfterResponseHook AfterResponse];
        unfold then_reassign_Body; rewrite Hhook; reflexivity
      | exact H2xx |].
    exists o, w'. split; [exact Hloop|]. cbn [buffer fst snd] in Hout.
    rewrite Hbuf in Hout. destruct out as [[|target]|]; tauto.
Qed.

(** * Further properties of the pipeline *)

(** ** URLs that do not resolve *)

(** X1.  [resolveURL] fails in exactly two ways: the request URL does not
    parse, or it parses as a relative URL while a base URL is configured
    that does not parse.  A base URL that does not parse goes unnoticed as
    long as the request URLs are absolute. *)
Theorem resolveURL_fails_iff `{Platform} (c : Client) (input : string)
    (e : error) :
  resolveURL c input = Err e ↔
  (∃ x, url_Parse input = Err x ∧ e = invalid_request_URL (Foreign_error x)) ∨
  (∃ u x, url_Parse input = Ok u ∧ url_IsAbs u = false ∧
          BaseURL c ≠ EmptyString ∧ url_Parse (BaseURL c) = Err x ∧
          e = invalid_base_URL (Foreign_error x)).
Proof.
  unfold resolveURL. split.
  - destruct (url_Parse input) as [u|x] eqn:Hu.
    + destruct (url_IsAbs u) eqn:Habs; [done|]. cbn [orb].
      case_bool_decide as Hbase; [done|].
      destruct (url_Parse (BaseURL c)) as [b|x] eqn:Hb; [done|].
      intros [= <-]. right. by exists u, x.
    + intros [= <-]. left. by exists x.
  - intros [(x & -> & ->)|(u & x & -> & -> & Hbase & -> & ->)]; [done|].
    cbn [orb]. by rewrite bool_decide_eq_false_2.
Qed.

(** X2.  When the URL does not resolve, the call returns that error with a
    nil response, whatever the fuel: no hook runs, nothing is serialised,
    the transport is not called, no header map is made and the
    environment and the target are as before. *)
Theorem DoRequest_unresolved_URL `{Platform} (c : Client) (fuel : nat)
    (ctx : option Ctx) (method rawURL : string) (body : option Value)
    (out : option Out) (hs : MapRef) (w : World) (e : error) :
  resolveURL c rawURL = Err e →
  ∃ w' evs,
    DoRequest c fuel ctx method rawURL body out hs w
    = Some (Returned None (Some e), w') ∧
    trace w' = trace w ++ evs ∧
    transport_calls evs = 0%nat ∧ BeforeRequest_calls evs = [] ∧
    Marshal_calls evs = [] ∧ sleeps evs = [] ∧
    maps w' = maps w ∧ env w' = env w ∧ stored w' = stored w.
Proof.
  intros Hurl.
  rewrite DoRequest_unfold, prepare_unfold, describe_result, Hurl.
  destruct ctx as [x|]; eexists _, _; (split; [reflexivity|]);
    rewrite run_deferred_trace; cbn [trace set_deferred];
    (split; [reflexivity|]); by autorewrite with logs.
Qed.

(** ** Deferred calls *)

Section Deferred.
Context `{Platform}.

Lemma cancels_app a b : cancels (a ++ b) = (cancels a + cancels b)%nat.
Proof. unfold cancels. by rewrite omap_app, length_app. Qed.

Lemma Close_calls_app a b : Close_calls (a ++ b) = Close_calls a ++ Close_calls b.
Proof. apply omap_app. Qed.

Lemma hooks_passed_app a b : hooks_passed (a ++ b) = hooks_passed a ++ hooks_passed b.
Proof. apply omap_app. Qed.

Lemma bodies_kept_app c a b :
  bodies_kept c (a ++ b) = (bodies_kept c a + bodies_kept c b)%nat.
Proof.
  unfold bodies_kept. destruct (AfterResponse c);
    by rewrite ?hooks_passed_app, ?bodies_read_app, length_app.
Qed.

Lemma pending_app c a ca b cb :
  pending c a ca → pending c b cb → pending c (a ++ b) (cb ++ ca).
Proof.
  intros (Ha1 & Ha2 & Ha3) (Hb1 & Hb2 & Hb3). unfold pending.
  rewrite cancels_app, Close_calls_app, bodies_kept_app, length_app.
  rewrite Ha1, Ha2, Hb1, Hb2. repeat split; lia.
Qed.

Lemma hooks_passed_none (evs : list Event) :
  AfterResponse_calls evs = [] → hooks_passed evs = [].
Proof.
  induction evs as [|ev evs IH]; [done|].
  destruct ev as [| | | | |r [e|]| | | |]; cbn; done.
Qed.

Lemma pending_quiet c evs :
  rhythm evs = [] → AfterResponse_calls evs = [] → bodies_read evs = [] →
  cancels evs = 0%nat → Close_calls evs = [] → pending c evs [].
Proof.
  intros _ Ha Hb Hc Hd. repeat split; [done..|].
  unfold bodies_kept. destruct (AfterResponse c); [|by rewrite Hb].
  by rewrite hooks_passed_none.
Qed.

(** An iteration defers at most one [Close] and runs none. *)
Lemma attempt_once_pending c muxReq origBody out attempt w s w' :
  attempt_once c muxReq origBody out attempt w = (s, w') →
  ∃ closes, deferred w' = map defer_Body_Close closes ++ deferred w ∧
  ∃ evs, trace w' = trace w ++ evs ∧ pending c evs closes.
Proof.
  run_attempt; intros [= <- <-]; cbn [deferred set_deferred set_trace set_env
                                        set_stored];
    (first [exists []; split; [reflexivity|]
           |eexists [_]; split; [reflexivity|]]);
    give_log; unfold pending, bodies_kept, cancels;
    repeat (case_match; simplify_eq/=); done.
Qed.

Lemma retry_loop_pending c muxReq origBody out fuel attempt resp lastErr w o w' :
  retry_loop c muxReq origBody out fuel attempt resp lastErr w = (Done o, w') →
  ∃ closes evs, deferred w' = map defer_Body_Close closes ++ deferred w ∧
                trace w' = trace w ++ evs ∧ pending c evs closes.
Proof.
  apply (retry_loop_rule c muxReq origBody out
           (λ _ _ _ w1, ∃ closes evs,
              deferred w1 = map defer_Body_Close closes ++ deferred w ∧
              trace w1 = trace w ++ evs ∧ pending c evs closes)
           (λ _ w1, ∃ closes evs,
              deferred w1 = map defer_Body_Close closes ++ deferred w ∧
              trace w1 = trace w ++ evs ∧ pending c evs closes)).
  - intros a r e w1 (closes & evs & Hd & Htr & Hp) _.
    destruct (attempt_once c muxReq origBody out a w1) as [s w2] eqn:Hat.
    destruct (attempt_once_pending _ _ _ _ _ _ _ _ Hat)
      as (closes' & Hd' & evs' & Htr' & Hp').
    assert (∃ closes0 evs0,
              deferred w2 = map defer_Body_Close closes0 ++ deferred w ∧
              trace w2 = trace w ++ evs0 ∧ pending c evs0 closes0).
    { exists (closes' ++ closes), (evs ++ evs').
      rewrite Hd', Hd, Htr', Htr, map_app, <- !app_assoc.
      split; [done|]. split; [done|]. by apply pending_app. }
    by destruct s as [[??]| |].
  - auto.
  - exists [], []. rewrite app_nil_r. repeat split.
    unfold bodies_kept. by destruct (AfterResponse c).
Qed.

Lemma prepare_pending c ctx method rawURL body hs w s w' :
  prepare c ctx method rawURL body hs w = (s, w') →
  deferred w' = match ctx with
                | None => defer_cancel :: deferred w
                | Some _ => deferred w
                end ∧
  ∃ evs, trace w' = trace w ++ evs ∧ pending c evs [] ∧ Do_calls evs = [].
Proof.
  rewrite prepare_unfold, describe_result.
  destruct ctx as [x|]; (destruct (resolveURL c rawURL) as [u|e];
    [rewrite before_send_result;
     destruct (BeforeRequest c) as [hook|]; cbn zeta;
     [destruct ((hook _ _).1.2)|]; rewrite ?serialize_result;
     repeat (case_match; simplify_eq/=)|]);
    intros [= <- <-]; (split; [reflexivity|]); give_log;
    unfold pending, bodies_kept, cancels; by destruct (AfterResponse c).
Qed.

End Deferred.

(** X3.  A call that starts with nothing deferred runs its deferred calls
    when it returns, after everything else and on every path out: first
    one [Close] for each response that reached the [defer] (the hook
    passed, or there is no hook and the body was read), then, when no
    context was given, the [cancel] of the context it derived, exactly
    once. *)
Theorem deferred_calls_run_last `{Platform} (c : Client) (fuel : nat)
    (ctx : option Ctx) (method rawURL : string) (body : option Value)
    (out : option Out) (hs : MapRef) (w : World) (o : Outcome) (w' : World) :
  deferred w = [] →
  DoRequest c fuel ctx method rawURL body out hs w = Some (o, w') →
  ∃ evs closes,
    trace w' = trace w ++ evs ++ map ev_Close closes
                 ++ match ctx with None => [ev_cancel] | Some _ => [] end ∧
    cancels evs = 0%nat ∧ Close_calls evs = [] ∧
    length closes = bodies_kept c evs ∧
    deferred w' = [].
Proof.
  intros Hstart. rewrite DoRequest_unfold.
  assert (Hrun : ∀ closes base,
            map run_call (map defer_Body_Close closes ++ base)
            = map ev_Close closes ++ map run_call base).
  { intros closes base. rewrite map_app. f_equal.
    induction closes; cbn; congruence. }
  destruct (prepare c ctx method rawURL body hs w)
    as [[[muxReq origBody]|o0|] w1] eqn:Hprep; [| |done];
    destruct (prepare_pending _ _ _ _ _ _ _ _ _ Hprep)
      as (Hd0 & evs0 & Htr0 & Hp0 & _); rewrite Hstart in Hd0.
  - destruct (retry_loop _ _ _ _ _ _ _ _ _) as [[[]|o1|] w2] eqn:Hloop; [|done].
    intros [= <- <-].
    destruct (retry_loop_pending _ _ _ _ _ _ _ _ _ _ _ Hloop)
      as (closes & evs & Hd & Htr & Hp).
    destruct (pending_app c _ _ _ _ Hp0 Hp) as (H1 & H2 & H3).
    rewrite app_nil_r in H3.
    exists (evs0 ++ evs), closes.
    rewrite run_deferred_trace, Hd, Hrun, Htr, Htr0, Hd0, <- !app_assoc.
    repeat split; try done. by destruct ctx.
  - intros [= <- <-]. destruct Hp0 as (H1 & H2 & H3).
    exists evs0, []. rewrite run_deferred_trace, Htr0, Hd0, <- !app_assoc.
    repeat split; try done. by destruct ctx.
Qed.

(** ** What the transport is given *)

Section Requests.
Context `{Platform}.

Lemma describe_Next c ctx method rawURL body hs w muxReq w0 :
  describe c ctx method rawURL body hs w = (Next muxReq, w0) →
  ∃ u, resolveURL c rawURL = Ok u ∧
       muxReq = {| Method := method; URL := u;
                   Headers := entries (maps w) hs ∪ entries (maps w) (headers c);
                   Body := body;
                   Context := Some (default (context_WithTimeout (timeout c)) ctx) |}.
Proof.
  rewrite describe_result. destruct (resolveURL c rawURL) as [u|e]; [|done].
  intros [= <- <-]. exists u. split; [done|]. by destruct ctx.
Qed.

Lemma serialize_Next muxReq w origBody w' :
  serialize muxReq w = (Next origBody, w') →
  ∃ evs, trace w' = trace w ++ evs ∧ Do_calls evs = [] ∧
         BeforeRequest_calls evs = [] ∧
         match Body muxReq with
         | Some v => json_Marshal v = Ok origBody ∧ Marshal_calls evs = [v]
         | None => origBody = [] ∧ Marshal_calls evs = []
         end.
Proof.
  rewrite serialize_result.
  repeat (case_match; simplify_eq/=); intros [= <- <-]; by give_log.
Qed.

(** The transport calls of a call that returned: none when the steps
    before the loop did not fall through, and otherwise each with the
    request built from [muxReq] and [origBody]. *)
Lemma DoRequest_requests c fuel ctx method rawURL body out hs w o w' :
  DoRequest c fuel ctx method rawURL body out hs w = Some (o, w') →
  ∃ pre evs,
    trace w' = trace w ++ pre ++ evs ∧
    Do_calls pre = [] ∧ Marshal_calls evs = [] ∧ BeforeRequest_calls evs = [] ∧
    ∃ s w1, prepare c ctx method rawURL body hs w = (s, w1) ∧
            trace w1 = trace w ++ pre ∧
    match s with
    | Next (muxReq, origBody) =>
        Forall (λ x, x.1.1 = new_request muxReq origBody) (Do_calls evs)
    | _ => Do_calls evs = []
    end.
Proof.
  rewrite DoRequest_unfold.
  destruct (prepare c ctx method rawURL body hs w)
    as [[[muxReq origBody]|o0|] w1] eqn:Hprep; [| |done];
    destruct (prepare_log _ _ _ _ _ _ _ _ _ Hprep)
      as (pre & Htr0 & _ & Hdo0 & _).
  - destruct (retry_loop _ _ _ _ _ _ _ _ _) as [[[]|o1|] w2] eqn:Hloop; [|done].
    intros [= <- <-].
    apply retry_loop_requests in Hloop as (evs & Htr & Hb & Hm & Hq).
    exists pre, (evs ++ map run_call (deferred w2)).
    rewrite run_deferred_trace, Htr, Htr0, <- !app_assoc.
    autorewrite with logs. rewrite Hb, Hm, !app_nil_r.
    do 4 (split; [done|]). by eexists _, _.
  - intros [= <- <-]. exists pre, (map run_call (deferred w1)).
    rewrite run_deferred_trace, Htr0, <- !app_assoc.
    autorewrite with logs. do 4 (split; [done|]). by eexists _, _.
Qed.

(** Without a pre-send hook the descriptor is the one built from the
    arguments. *)
Lemma DoRequest_requests_plain c fuel ctx method rawURL body out hs w o w' :
  BeforeRequest c = None →
  DoRequest c fuel ctx method rawURL body out hs w = Some (o, w') →
  ∃ evs,
    trace w' = trace w ++ evs ∧
    BeforeRequest_calls evs = [] ∧
    (body = None → Marshal_calls evs = []) ∧
    Forall (λ x,
              req_Method x.1.1 = http_method method ∧
              resolveURL c rawURL = Ok (req_URL x.1.1) ∧
              req_Context x.1.1
              = Some (default (context_WithTimeout (timeout c)) ctx) ∧
              match body with
              | None => req_Body x.1.1 = None
              | Some v => ∃ b, json_Marshal v = Ok b ∧ req_Body x.1.1 = Some b
              end)
           (Do_calls evs).
Proof.
  intros Hhook Hrun.
  destruct (DoRequest_requests _ _ _ _ _ _ _ _ _ _ _ Hrun)
    as (pre & evs & Htr & Hpre & Hm & Hb & s & w1 & Hprep & Htr1 & Hs).
  exists (pre ++ evs). split; [done|].
  revert Hprep Htr1. rewrite prepare_unfold.
  destruct (describe c ctx method rawURL body hs w) as [[r| |] w0] eqn:Hd;
    [|intros [= <- <-] Htr1..].
  - destruct (describe_trace _ _ _ _ _ _ _ _ _ Hd) as [Htr0 _].
    apply describe_Next in Hd as (u & Hu & ->).
    rewrite before_send_result, Hhook.
    destruct (serialize _ w0) as [[b| |] w2] eqn:Hser; intros [= <- <-] Htr1.
    + apply serialize_Next in Hser as (evs0 & Htr2 & Hdo2 & Hb2 & Hbody).
      rewrite Htr2, Htr0 in Htr1. apply app_inv_head in Htr1 as ->.
      cbn [Body] in Hbody.
      rewrite BeforeRequest_calls_app, Marshal_calls_app, Do_calls_app, Hb,
        Hb2, Hm, Hpre. cbn [app].
      split; [done|].
      split; [intros ->; destruct Hbody as [_ ->]; done|].
      eapply Forall_impl; [exact Hs|]. intros [[q r] e] ->. cbn.
      repeat split; try done. destruct body as [v|]; [|done].
      exists b. by destruct Hbody.
    + rewrite Do_calls_app, Hpre, Hs, BeforeRequest_calls_app, Marshal_calls_app,
        Hb, Hm, !app_nil_r.
      rewrite serialize_result in Hser. cbn [Body] in Hser.
      destruct body as [v|]; [destruct (json_Marshal v)|]; try done.
      injection Hser as <- <-. cbn in Htr1. rewrite Htr0 in Htr1.
      apply app_inv_head in Htr1 as <-. by repeat split.
    + rewrite serialize_result in Hser. by repeat case_match.
  - rewrite describe_result in Hd.
    destruct (resolveURL c rawURL); [done|]. injection Hd as <- <-.
    assert (pre = []) as ->.
    { destruct ctx; cbn in Htr1;
        rewrite <- (app_nil_r (trace w)) in Htr1 at 1;
        by apply app_inv_head in Htr1. }
    cbn [app]. rewrite Hs, Hb, Hm. by repeat split.
  - rewrite describe_result in Hd. by destruct (resolveURL c rawURL).
Qed.

(** An iteration whose request is created calls the transport, once, with
    the request built from [muxReq] and [origBody]. *)
Lemma attempt_once_sends c muxReq origBody out attempt w s w' :
  http_NewRequest_error (Context muxReq) (Method muxReq) (URL muxReq) = None →
  attempt_once c muxReq origBody out attempt w = (s, w') →
  ∃ evs r e, trace w' = trace w ++ evs ∧
             Do_calls evs = [(new_request muxReq origBody, r, e)].
Proof.
  intros Hreq. unfold attempt_once. rewrite Hreq.
  run_attempt; intros [= <- <-]; eexists _, _, _; cbn;
    rewrite <- ?app_assoc; (split; [reflexivity|]); reflexivity.
Qed.

Lemma retry_loop_sends c muxReq origBody out fuel resp lastErr w o w' :
  0 ≤ maxRetries c →
  http_NewRequest_error (Context muxReq) (Method muxReq) (URL muxReq) = None →
  retry_loop c muxReq origBody out fuel 0 resp lastErr w = (Done o, w') →
  ∃ evs r e rest, trace w' = trace w ++ evs ∧
                  Do_calls evs = (new_request muxReq origBody, r, e) :: rest.
Proof.
  intros Hmax Hreq. destruct fuel as [|fuel].
  - simpl. by destruct (Z.leb_spec 0 (maxRetries c)); [|lia].
  - rewrite retry_loop_step by done.
    destruct (attempt_once c muxReq origBody out 0 w) as [s w1] eqn:Hat.
    destruct (attempt_once_sends _ _ _ _ _ _ _ _ Hreq Hat)
      as (evs & r & e & Htr & Hdo).
    destruct s as [[r' e']|o1|]; [| |done].
    + intros Hloop.
      destruct (retry_loop_requests _ _ _ _ _ _ _ _ _ _ _ Hloop)
        as (evs' & Htr' & _).
      exists (evs ++ evs'), r, e, (Do_calls evs').
      by rewrite Htr', Htr, <- app_assoc, Do_calls_app, Hdo.
    + intros [= <- <-]. exists evs, r, e, []. done.
Qed.

(** A call that reaches the loop with [maxRetries] not negative and a
    request that can be created calls the transport. *)
Lemma DoRequest_sends c fuel ctx method rawURL body out hs w o w'
    muxReq origBody w1 :
  prepare c ctx method rawURL body hs w = (Next (muxReq, origBody), w1) →
  0 ≤ maxRetries c →
  http_NewRequest_error (Context muxReq) (Method muxReq) (URL muxReq) = None →
  DoRequest c fuel ctx method rawURL body out hs w = Some (o, w') →
  ∃ evs r e rest, trace w' = trace w ++ evs ∧
                  Do_calls evs = (new_request muxReq origBody, r, e) :: rest.
Proof.
  intros Hprep Hmax Hreq. rewrite DoRequest_unfold, Hprep.
  destruct (prepare_log _ _ _ _ _ _ _ _ _ Hprep)
    as (pre & Htr0 & _ & Hdo0 & _).
  destruct (retry_loop _ _ _ _ _ _ _ _ _) as [[[]|o1|] w2] eqn:Hloop; [|done].
  intros [= <- <-].
  destruct (retry_loop_sends _ _ _ _ _ _ _ _ _ _ Hmax Hreq Hloop)
    as (evs & r & e & rest & Htr & Hdo).
  exists (pre ++ evs ++ map run_call (deferred w2)), r, e, rest.
  rewrite run_deferred_trace, Htr, Htr0, <- !app_assoc. split; [done|].
  autorewrite with logs. by rewrite Hdo0, Hdo, app_nil_r.
Qed.

(** Without a pre-send hook, the steps before the loop fall through as
    soon as the URL resolves and the body, if any, serialises. *)
Lemma prepare_plain c ctx method rawURL body hs w u :
  BeforeRequest c = None →
  resolveURL c rawURL = Ok u →
  (∀ v, body = Some v → ∃ b, json_Marshal v = Ok b) →
  ∃ muxReq origBody w1,
    prepare c ctx method rawURL body hs w = (Next (muxReq, origBody), w1) ∧
    Method muxReq = method ∧ URL muxReq = u ∧
    Context muxReq = Some (default (context_WithTimeout (timeout c)) ctx).
Proof.
  intros Hhook Hu Hbody.
  rewrite prepare_unfold, describe_result, Hu, before_send_result, Hhook.
  rewrite serialize_result. cbn [Body].
  destruct body as [v|].
  - destruct (Hbody v eq_refl) as [b ->].
    eexists _, _, _. split; [reflexivity|]. by destruct ctx.
  - eexists _, _, _. split; [reflexivity|]. by destruct ctx.
Qed.

(** The same with the fact that a call is made. *)
Lemma DoRequest_requests_sent c fuel ctx method rawURL body out hs w o w' :
  BeforeRequest c = None →
  DoRequest c fuel ctx method rawURL body out hs w = Some (o, w') →
  ∃ evs,
    trace w' = trace w ++ evs ∧
    BeforeRequest_calls evs = [] ∧
    (body = None → Marshal_calls evs = []) ∧
    Forall (λ x,
              req_Method x.1.1 = http_method method ∧
              resolveURL c rawURL = Ok (req_URL x.1.1) ∧
              req_Context x.1.1
              = Some (default (context_WithTimeout (timeout c)) ctx) ∧
              match body with
              | None => req_Body x.1.1 = None
              | Some v => ∃ b, json_Marshal v = Ok b ∧ req_Body x.1.1 = Some b
              end)
           (Do_calls evs) ∧
    (0 ≤ maxRetries c →
     ∀ u, resolveURL c rawURL = Ok u →
          http_NewRequest_error
            (Some (default (context_WithTimeout (timeout c)) ctx)) method u
          = None →
          (∀ v, body = Some v → ∃ b, json_Marshal v = Ok b) →
          Do_calls evs ≠ []).
Proof.
  intros Hhook Hrun.
  destruct (DoRequest_requests_plain _ _ _ _ _ _ _ _ _ _ _ Hhook Hrun)
    as (evs & Htr & Hb & Hm & Hq).
  exists evs. do 4 (split; [done|]).
  intros Hmax u Hu Hreq Hbody.
  destruct (prepare_plain c ctx method rawURL body hs w u Hhook Hu Hbody)
    as (muxReq & origBody & w1 & Hprep & Hmeth & Hurl & Hctx).
  rewrite <- Hmeth, <- Hurl, <- Hctx in Hreq.
  destruct (DoRequest_sends _ _ _ _ _ _ _ _ _ _ _ _ _ _ Hprep Hmax Hreq Hrun)
    as (evs' & r & e & rest & Htr' & Hdo).
  rewrite Htr in Htr'. apply app_inv_head in Htr' as <-. by rewrite Hdo.
Qed.

End Requests.

(** X4.  Without a pre-send hook, every transport call of a call that
    returns carries the method as given ([GET] for the empty method), the
    URL as [resolveURL] returned it, the caller's context or else the one
    derived from the client's timeout, and as body the serialisation of
    [body], or none when [body] is nil, in which case nothing is
    serialised.  At least one such call is made when [maxRetries] is not
    negative, the URL resolves, the body serialises and the request can
    be created. *)
Theorem requests_as_called `{Platform} (c : Client) (fuel : nat)
    (ctx : option Ctx) (method rawURL : string) (body : option Value)
    (out : option Out) (hs : MapRef) (w : World) (o : Outcome) (w' : World) :
  BeforeRequest c = None →
  DoRequest c fuel ctx method rawURL body out hs w = Some (o, w') →
  ∃ evs,
    trace w' = trace w ++ evs ∧
    BeforeRequest_calls evs = [] ∧
    (body = None → Marshal_calls evs = []) ∧
    Forall (λ x,
              req_Method x.1.1 = http_method method ∧
              resolveURL c rawURL = Ok (req_URL x.1.1) ∧
              req_Context x.1.1
              = Some (default (context_WithTimeout (timeout c)) ctx) ∧
              match body with
              | None => req_Body x.1.1 = None
              | Some v => ∃ b, json_Marshal v = Ok b ∧ req_Body x.1.1 = Some b
              end)
           (Do_calls evs) ∧
    (0 ≤ maxRetries c →
     ∀ u, resolveURL c rawURL = Ok u →
          http_NewRequest_error
            (Some (default (context_WithTimeout (timeout c)) ctx)) method u
          = None →
          (∀ v, body = Some v → ∃ b, json_Marshal v = Ok b) →
          Do_calls evs ≠ []).
Proof. apply DoRequest_requests_sent. Qed.

(** X5.  The method helpers are [DoRequest] with their method: [Get] and
    [Delete] with [GET] and [DELETE] and a nil body, [Post] and [Put] with
    [POST] and [PUT] and the body they are given.  On a client without
    pre-send hook, every transport call of [Get] and [Delete] carries that
    method and no body, and nothing is serialised; every transport call of
    [Post] and [Put] carries that method and the serialisation of the
    body.  At least one such call is made when [maxRetries] is not
    negative, the URL resolves, the body serialises and the request can
    be created. *)
Theorem method_helpers `{Platform} (c : Client) (fuel : nat)
    (ctx : option Ctx) (url : string) (out : option Out) (hs : MapRef)
    (w : World) (o : Outcome) (w' : World) :
  BeforeRequest c = None →
  (∀ helper method,
     (helper = Get c ∧ method = "GET"%string) ∨
     (helper = Delete c ∧ method = "DELETE"%string) →
     helper fuel ctx url out hs w = Some (o, w') →
     DoRequest c fuel ctx method url None out hs w = Some (o, w') ∧
     ∃ evs, trace w' = trace w ++ evs ∧ Marshal_calls evs = [] ∧
            Forall (λ x, req_Method x.1.1 = method ∧ req_Body x.1.1 = None)
                   (Do_calls evs) ∧
            (0 ≤ maxRetries c →
             ∀ u, resolveURL c url = Ok u →
                  http_NewRequest_error
                    (Some (default (context_WithTimeout (timeout c)) ctx))
                    method u = None →
                  Do_calls evs ≠ [])) ∧
  (∀ helper method v,
     (helper = Post c ∧ method = "POST"%string) ∨
     (helper = Put c ∧ method = "PUT"%string) →
     helper fuel ctx url (Some v) out hs w = Some (o, w') →
     DoRequest c fuel ctx method url (Some v) out hs w = Some (o, w') ∧
     ∃ evs, trace w' = trace w ++ evs ∧
            Forall (λ x, req_Method x.1.1 = method ∧
                         ∃ b, json_Marshal v = Ok b ∧ req_Body x.1.1 = Some b)
                   (Do_calls evs) ∧
            (0 ≤ maxRetries c →
             ∀ u b, resolveURL c url = Ok u → json_Marshal v = Ok b →
                    http_NewRequest_error
                      (Some (default (context_WithTimeout (timeout c)) ctx))
                      method u = None →
                    Do_calls evs ≠ [])).
Proof.
  intros Hhook. split.
  - intros helper method [[-> ->]|[-> ->]] Hrun; (split; [exact Hrun|]);
      destruct (DoRequest_requests_sent _ _ _ _ _ _ _ _ _ _ _ Hhook Hrun)
        as (evs & Htr & _ & Hm & Hq & Hsent);
      exists evs; (split; [done|]); (split; [by apply Hm|]);
      (split; [eapply Forall_impl; [exact Hq|]; cbn; tauto|]);
      intros Hmax u Hu Hreq; by apply (Hsent Hmax u Hu Hreq).
  - intros helper method v [[-> ->]|[-> ->]] Hrun; (split; [exact Hrun|]);
      destruct (DoRequest_requests_sent _ _ _ _ _ _ _ _ _ _ _ Hhook Hrun)
        as (evs & Htr & _ & Hm & Hq & Hsent);
      exists evs; (split; [done|]);
      (split; [eapply Forall_impl; [exact Hq|]; cbn; tauto|]);
      intros Hmax u b Hu Hb Hreq; apply (Hsent Hmax u Hu Hreq);
      intros ? [= <-]; eauto.
Qed.

(** ** The header of the transport request *)

Section Headers.
Context `{Platform}.

(** The header built by [Set]ting every entry of [hs]: an entry whose key
    is the only one with its canonical form is found under that form, and
    a canonical form of no key is not there. *)
Lemma header_of_entries (hs : gmap string string) :
  let h := map_fold (λ k v acc, Header_Set acc k v) ∅ hs in
  (∀ k v, hs !! k = Some v →
     (∀ k', is_Some (hs !! k') →
            CanonicalMIMEHeaderKey k' = CanonicalMIMEHeaderKey k → k' = k) →
     h !! CanonicalMIMEHeaderKey k = Some [v]) ∧
  (∀ ck, (∀ k', is_Some (hs !! k') → CanonicalMIMEHeaderKey k' ≠ ck) →
         h !! ck = None).
Proof.
  cbn zeta.
  apply (map_fold_weak_ind
           (λ (h : http_Header) (m : gmap string string),
              (∀ k v, m !! k = Some v →
                 (∀ k', is_Some (m !! k') →
                    CanonicalMIMEHeaderKey k' = CanonicalMIMEHeaderKey k →
                    k' = k) →
                 h !! CanonicalMIMEHeaderKey k = Some [v]) ∧
              (∀ ck, (∀ k', is_Some (m !! k') → CanonicalMIMEHeaderKey k' ≠ ck) →
                     h !! ck = None))).
  - split; [intros k v Hk; by rewrite lookup_empty in Hk|done].
  - intros i x m r Hi [IH1 IH2]. unfold Header_Set. split.
    + intros k v Hk Hsole. destruct (decide (k = i)) as [->|Hne].
      * rewrite lookup_insert_eq in Hk. injection Hk as ->.
        by rewrite lookup_insert_eq.
      * rewrite lookup_insert_ne in Hk by done.
        rewrite lookup_insert_ne.
        -- apply IH1; [done|]. intros k' Hk' Heq. apply Hsole; [|done].
           destruct (decide (k' = i)) as [->|?];
             [by rewrite lookup_insert_eq|by rewrite lookup_insert_ne].
        -- intros Heq. apply Hne. symmetry. apply Hsole; [|done].
           by rewrite lookup_insert_eq.
    + intros ck Hnone. rewrite lookup_insert_ne.
      * apply IH2. intros k' Hk'. apply Hnone.
        destruct (decide (k' = i)) as [->|?];
          [by rewrite lookup_insert_eq|by rewrite lookup_insert_ne].
      * apply Hnone. by rewrite lookup_insert_eq.
Qed.

End Headers.

(** X7.  An entry of the descriptor's headers reaches every transport
    request under the canonical form of its key, provided no other key of
    the map has the same canonical form and the entry is not an empty
    content type of a request with a body. *)
Theorem headers_reach_transport `{Platform} (muxReq : Request) (k v : string) :
  Headers muxReq !! k = Some v →
  (∀ k', is_Some (Headers muxReq !! k') →
         CanonicalMIMEHeaderKey k' = CanonicalMIMEHeaderKey k → k' = k) →
  Body muxReq = None ∨ v ≠ EmptyString ∨
  CanonicalMIMEHeaderKey k ≠ CanonicalMIMEHeaderKey "Content-Type" →
  ∀ origBody,
    req_Header (new_request muxReq origBody) !! CanonicalMIMEHeaderKey k
    = Some [v].
Proof.
  intros Hk Hsole Hcase origBody. cbn [new_request req_Header].
  unfold request_Header.
  destruct (header_of_entries (Headers muxReq)) as [Hin _].
  specialize (Hin k v Hk Hsole). cbn zeta in Hin.
  set (h := map_fold _ _ _) in *.
  destruct (bool_decide (is_Some (Body muxReq))) eqn:Hbody; [|done].
  cbn [andb].
  destruct (bool_decide (Header_Get h "Content-Type" = EmptyString))
    eqn:Hempty; [|done].
  apply bool_decide_eq_true_1 in Hempty. unfold Header_Set.
  destruct (decide (CanonicalMIMEHeaderKey "Content-Type"
                    = CanonicalMIMEHeaderKey k)) as [Heq|Hne];
    [|by rewrite lookup_insert_ne].
  exfalso. unfold Header_Get in Hempty. rewrite Heq, Hin in Hempty.
  apply bool_decide_eq_true_1 in Hbody as [b Hb].
  destruct Hcase as [Hnone|[Hv|Hck]]; congruence.
Qed.

(** X8.  The content type of a transport request.  With a body it is
    never empty: when no key of the descriptor's headers has the canonical
    form of [Content-Type] it is [application/json], and an entry that
    gives an empty content type (under the only key of that canonical
    form) is replaced by [application/json].  Without a body no content
    type is added. *)
Theorem default_Content_Type `{Platform} (muxReq : Request) (origBody : bytes) :
  let h := req_Header (new_request muxReq origBody) in
  let ct := CanonicalMIMEHeaderKey "Content-Type" in
  (is_Some (Body muxReq) → Header_Get h "Content-Type" ≠ EmptyString) ∧
  (is_Some (Body muxReq) →
   (∀ k, is_Some (Headers muxReq !! k) → CanonicalMIMEHeaderKey k ≠ ct) →
   h !! ct = Some ["application/json"%string]) ∧
  (∀ k, is_Some (Body muxReq) →
        Headers muxReq !! k = Some EmptyString →
        CanonicalMIMEHeaderKey k = ct →
        (∀ k', is_Some (Headers muxReq !! k') →
               CanonicalMIMEHeaderKey k' = ct → k' = k) →
        h !! ct = Some ["application/json"%string]) ∧
  (Body muxReq = None →
   (∀ k, is_Some (Headers muxReq !! k) → CanonicalMIMEHeaderKey k ≠ ct) →
   h !! ct = None).
Proof.
  cbn zeta. cbn [new_request req_Header]. unfold request_Header.
  destruct (header_of_entries (Headers muxReq)) as [Hin Hout].
  cbn zeta in Hin, Hout. set (h := map_fold _ _ _) in *.
  assert (Hset : ∀ v, Header_Set h "Content-Type" v
                      !! CanonicalMIMEHeaderKey "Content-Type" = Some [v])
    by (intros v; unfold Header_Set; apply lookup_insert_eq).
  split; [|split; [|split]].
  - intros Hbody. rewrite (bool_decide_eq_true_2 _ Hbody). cbn [andb].
    destruct (bool_decide (Header_Get h "Content-Type" = EmptyString))
      eqn:Hempty; [|by apply bool_decide_eq_false_1 in Hempty].
    unfold Header_Get. by rewrite Hset.
  - intros Hbody Hno. rewrite (bool_decide_eq_true_2 _ Hbody). cbn [andb].
    assert (Hget : Header_Get h "Content-Type" = EmptyString)
      by (unfold Header_Get; by rewrite (Hout _ Hno)).
    by rewrite (bool_decide_eq_true_2 _ Hget).
  - intros k Hbody Hk Hck Hsole.
    rewrite (bool_decide_eq_true_2 _ Hbody). cbn [andb].
    assert (Hget : Header_Get h "Content-Type" = EmptyString).
    { unfold Header_Get. rewrite <- Hck, (Hin k EmptyString Hk); [done|].
      intros k' Hk' Heq. apply Hsole; [done|]. by rewrite Heq. }
    by rewrite (bool_decide_eq_true_2 _ Hget).
  - intros Hbody Hno. rewrite Hbody.
    rewrite bool_decide_eq_false_2 by (by intros [? ?]). by apply Hout.
Qed.

(** ** What the transport is given after the pre-send hook *)

Section Hooked.
Context `{Platform}.

(** The entries of the descriptor's headers on the transport request. *)
Lemma request_Header_entry (muxReq : Request) (k v : string) :
  Headers muxReq !! k = Some v →
  (∀ k', is_Some (Headers muxReq !! k') →
         CanonicalMIMEHeaderKey k' = CanonicalMIMEHeaderKey k → k' = k) →
  Body muxReq = None ∨ v ≠ EmptyString ∨
  CanonicalMIMEHeaderKey k ≠ CanonicalMIMEHeaderKey "Content-Type" →
  request_Header muxReq !! CanonicalMIMEHeaderKey k = Some [v].
Proof.
  intros Hk Hsole Hcase. unfold request_Header.
  destruct (header_of_entries (Headers muxReq)) as [Hin _].
  specialize (Hin k v Hk Hsole). cbn zeta in Hin.
  set (h := map_fold _ _ _) in *.
  destruct (bool_decide (is_Some (Body muxReq))) eqn:Hbody; [|done].
  cbn [andb].
  destruct (bool_decide (Header_Get h "Content-Type" = EmptyString))
    eqn:Hempty; [|done].
  apply bool_decide_eq_true_1 in Hempty. unfold Header_Set.
  destruct (decide (CanonicalMIMEHeaderKey "Content-Type"
                    = CanonicalMIMEHeaderKey k)) as [Heq|Hne];
    [|by rewrite lookup_insert_ne].
  exfalso. unfold Header_Get in Hempty. rewrite Heq, Hin in Hempty.
  apply bool_decide_eq_true_1 in Hbody as [b Hb].
  destruct Hcase as [Hnone|[Hv|Hck]]; congruence.
Qed.

(** With a pre-send hook that passes, the steps before the loop fall
    through, with the descriptor as the hook left it, as soon as its body,
    if any, serialises. *)
Lemma prepare_hooked c ctx method rawURL body hs w muxReq0 w0 hook :
  BeforeRequest c = Some hook →
  describe c ctx method rawURL body hs w = (Next muxReq0, w0) →
  (hook muxReq0 (env w0)).1.2 = None →
  (∀ v, Body (hook muxReq0 (env w0)).1.1 = Some v →
        ∃ b, json_Marshal v = Ok b) →
  ∃ origBody w1,
    prepare c ctx method rawURL body hs w
    = (Next ((hook muxReq0 (env w0)).1.1, origBody), w1).
Proof.
  intros Hhook Hd Hpass Hbody.
  rewrite prepare_unfold, Hd, before_send_result, Hhook. cbn zeta.
  rewrite Hpass, serialize_result.
  destruct (Body (hook muxReq0 (env w0)).1.1) as [v|].
  - destruct (Hbody v eq_refl) as [b ->]. by eexists _, _.
  - by eexists _, _.
Qed.

End Hooked.

(** X6.  With a pre-send hook that passes, the hook is called once, on the
    descriptor built from the arguments, and every transport call is built
    from the descriptor as the hook left it: its method ([GET] when it is
    empty), URL and context, the serialisation of its body, and each of
    its headers whose key is the only one of its canonical form (an empty
    content type of a request with a body apart).  At least one such call
    is made when [maxRetries] is not negative, the body serialises and the
    request can be created. *)
Theorem hook_descriptor_is_sent `{Platform} (c : Client) (fuel : nat)
    (ctx : option Ctx) (method rawURL : string) (body : option Value)
    (out : option Out) (hs : MapRef) (w w0 : World) (o : Outcome)
    (w' : World) (muxReq0 : Request)
    (hook : Request → Env → (Request * option error) * Env) :
  BeforeRequest c = Some hook →
  describe c ctx method rawURL body hs w = (Next muxReq0, w0) →
  (hook muxReq0 (env w0)).1.2 = None →
  DoRequest c fuel ctx method rawURL body out hs w = Some (o, w') →
  let muxReq := (hook muxReq0 (env w0)).1.1 in
  ∃ evs,
    trace w' = trace w ++ evs ∧
    BeforeRequest_calls evs = [(muxReq0, None)] ∧
    Forall (λ x,
              req_Method x.1.1 = http_method (Method muxReq) ∧
              req_URL x.1.1 = URL muxReq ∧
              req_Context x.1.1 = Context muxReq ∧
              (∀ k v,
                 Headers muxReq !! k = Some v →
                 (∀ k', is_Some (Headers muxReq !! k') →
                        CanonicalMIMEHeaderKey k' = CanonicalMIMEHeaderKey k →
                        k' = k) →
                 Body muxReq = None ∨ v ≠ EmptyString ∨
                 CanonicalMIMEHeaderKey k
                 ≠ CanonicalMIMEHeaderKey "Content-Type" →
                 req_Header x.1.1 !! CanonicalMIMEHeaderKey k = Some [v]) ∧
              match Body muxReq with
              | None => req_Body x.1.1 = None
              | Some v => ∃ b, json_Marshal v = Ok b ∧ req_Body x.1.1 = Some b
              end)
           (Do_calls evs) ∧
    (0 ≤ maxRetries c →
     http_NewRequest_error (Context muxReq) (Method muxReq) (URL muxReq)
     = None →
     (∀ v, Body muxReq = Some v → ∃ b, json_Marshal v = Ok b) →
     Do_calls evs ≠ []).
Proof.
  intros Hhook Hd Hpass Hrun muxReq.
  destruct (DoRequest_requests _ _ _ _ _ _ _ _ _ _ _ Hrun)
    as (pre & evs & Htr & Hpre & Hm & Hb & s & w1 & Hprep & Htr1 & Hs).
  exists (pre ++ evs). split; [done|].
  assert (Hsent : 0 ≤ maxRetries c →
            http_NewRequest_error (Context muxReq) (Method muxReq) (URL muxReq)
            = None →
            (∀ v, Body muxReq = Some v → ∃ b, json_Marshal v = Ok b) →
            Do_calls (pre ++ evs) ≠ []).
  { intros Hmax Hreq Hbody.
    destruct (prepare_hooked _ _ _ _ _ _ _ _ _ _ Hhook Hd Hpass Hbody)
      as (origBody & w2 & Hprep').
    destruct (DoRequest_sends _ _ _ _ _ _ _ _ _ _ _ _ _ _ Hprep' Hmax Hreq Hrun)
      as (evs' & r & e & rest & Htr' & Hdo).
    rewrite Htr in Htr'. apply app_inv_head in Htr' as <-. by rewrite Hdo. }
  destruct (describe_trace _ _ _ _ _ _ _ _ _ Hd) as [Htr0 _].
  revert Hprep Htr1.
  rewrite prepare_unfold, Hd, before_send_result, Hhook. cbn zeta.
  rewrite Hpass. fold muxReq.
  destruct (serialize muxReq _) as [[b| |] w2] eqn:Hser; intros [= <- <-] Htr1.
  - apply serialize_Next in Hser as (evs0 & Htr2 & Hdo2 & Hb2 & Hbody).
    cbn [trace set_trace set_env] in Htr2.
    rewrite Htr2, Htr0, <- app_assoc in Htr1. apply app_inv_head in Htr1 as <-.
    rewrite !BeforeRequest_calls_app, Hb, Hb2.
    split; [done|]. split; [|done].
    rewrite Do_calls_app, Hpre. cbn [app].
    eapply Forall_impl; [exact Hs|]. intros [[q r] e] ->. cbn.
    do 3 (split; [done|]).
    split; [intros k v; apply request_Header_entry|].
    destruct (Body muxReq) as [v|]; [|done].
    exists b. by destruct Hbody.
  - rewrite serialize_result in Hser.
    destruct (Body muxReq) as [v|]; [destruct (json_Marshal v)|]; try done.
    injection Hser as <- <-. cbn in Htr1. rewrite Htr0, <- app_assoc in Htr1.
    apply app_inv_head in Htr1 as <-.
    rewrite BeforeRequest_calls_app, Hb, app_nil_r.
    split; [done|]. split; [|done].
    rewrite Do_calls_app, Hpre, Hs. constructor.
  - rewrite serialize_result in Hser. by repeat case_match.
Qed.

Section AnyOrder.
Context `{Platform}.

(** When the keys of a map have distinct canonical forms, [Set]ting its
    entries in any order gives the header that [request_Header] builds
    from: the order in which Go's [range] visits the map does not show. *)
Lemma header_in_any_order (hs : gmap string string)
    (l : list (string * string)) :
  l ≡ₚ map_to_list hs →
  (∀ k k', is_Some (hs !! k) → is_Some (hs !! k') →
           CanonicalMIMEHeaderKey k = CanonicalMIMEHeaderKey k' → k = k') →
  foldr (uncurry (λ k v acc, Header_Set acc k v)) ∅ l
  = map_fold (λ k v acc, Header_Set acc k v) ∅ hs.
Proof.
  intros Hl Hinj. rewrite map_fold_foldr. symmetry.
  apply (foldr_permutation eq _ _ (Hf := _)); [|done].
  intros j1 [k1 v1] j2 [k2 v2] h Hne H1 H2. cbn. unfold Header_Set.
  apply insert_insert_ne. intros Heq.
  assert (k1 = k2) as <-.
  { apply Hinj; [| |done]; eexists; eapply elem_of_map_to_list;
      eapply list_elem_of_lookup_2; eassumption. }
  apply Hne.
  eapply (NoDup_lookup (map_to_list hs).*1);
    [apply NoDup_fst_map_to_list| |];
    rewrite list_lookup_fmap; [rewrite H1|rewrite H2]; done.
Qed.

End AnyOrder.

(** ** Attempts that end the call *)

Lemma prepare_silent `{Platform} c ctx method rawURL body hs w s w' :
  prepare c ctx method rawURL body hs w = (s, w') →
  ∃ evs, trace w' = trace w ++ evs ∧ sleeps evs = [] ∧ Logf_lines evs = [] ∧
         Do_calls evs = [].
Proof.
  rewrite prepare_unfold, describe_result.
  destruct ctx as [x|]; (destruct (resolveURL c rawURL) as [u|e];
    [rewrite before_send_result;
     destruct (BeforeRequest c) as [hook|]; cbn zeta;
     [destruct ((hook _ _).1.2)|]; rewrite ?serialize_result;
     repeat (case_match; simplify_eq/=)|]);
    intros [= <- <-]; by give_log.
Qed.

Lemma Logf_lines_app `{Platform} a b :
  Logf_lines (a ++ b) = Logf_lines a ++ Logf_lines b.
Proof. apply omap_app. Qed.

(** X9.  When [http.NewRequestWithContext] refuses the descriptor, a call
    that reaches the loop with [maxRetries] not negative returns that
    error, wrapped, with a nil response: the transport is not called,
    nothing is logged, and there is no retry. *)
Theorem request_creation_fails `{Platform} (c : Client) (fuel : nat)
    (ctx : option Ctx) (method rawURL : string) (body : option Value)
    (out : option Out) (hs : MapRef) (w w1 : World) (muxReq : Request)
    (origBody : bytes) (x : Foreign) :
  0 ≤ maxRetries c →
  prepare c ctx method rawURL body hs w = (Next (muxReq, origBody), w1) →
  http_NewRequest_error (Context muxReq) (Method muxReq) (URL muxReq) = Some x →
  ∃ evs,
    DoRequest c (S fuel) ctx method rawURL body out hs w
    = Some (Returned None
              (Some (failed_to_create_request (Foreign_error x))),
            run_deferred w1) ∧
    trace (run_deferred w1) = trace w ++ evs ∧
    transport_calls evs = 0%nat ∧ sleeps evs = [] ∧ Logf_lines evs = [].
Proof.
  intros Hmax Hprep Hreq.
  rewrite DoRequest_unfold, Hprep, retry_loop_step by done.
  unfold attempt_once. rewrite Hreq. cbv [return_].
  destruct (prepare_silent _ _ _ _ _ _ _ _ _ Hprep) as (evs & Htr & Hs & Hl & Hdo).
  exists (evs ++ map run_call (deferred w1)). split; [done|].
  rewrite run_deferred_trace, Htr, <- app_assoc. split; [done|].
  rewrite Logf_lines_app. autorewrite with logs.
  unfold transport_calls. rewrite Hdo, Hs, Hl.
  repeat split. by apply omap_run_call.
Qed.

(** X10.  When the transport returns neither a response nor an error, the
    iteration panics on [resp.Body], after that one transport call. *)
Theorem transport_returns_nothing `{Platform} (c : Client) (muxReq : Request)
    (origBody : bytes) (out : option Out) (fuel : nat) (attempt : Z)
    (resp : option http_Response) (lastErr : option error) (w : World)
    (e1 : Env) :
  attempt ≤ maxRetries c →
  http_NewRequest_error (Context muxReq) (Method muxReq) (URL muxReq) = None →
  client c (new_request muxReq origBody) (Do_env c muxReq attempt (env w))
  = ((None, None), e1) →
  ∃ w' evs,
    retry_loop c muxReq origBody out (S fuel) attempt resp lastErr w
    = (Done (Panicked "nil pointer dereference"), w') ∧
    trace w' = trace w ++ evs ∧ transport_calls evs = 1%nat ∧
    sleeps evs = [] ∧ stored w' = stored w ∧ deferred w' = deferred w.
Proof.
  intros Hle Hreq Hdo. rewrite retry_loop_step by done.
  unfold attempt_once. rewrite Hreq.
  unfold Do_env, Logf_env in Hdo. unfold Logf.
  cbv [mbind M_bind mret M_ret emit call panic].
  destruct (logger c) as [l|]; cbn [env set_env set_trace trace];
    rewrite Hdo; eexists _, _; (split; [reflexivity|]); by give_log.
Qed.

(** X11.  When the body of a response cannot be read, the call returns in
    that iteration with the response and the read error, wrapped: no
    retry, no sleep, no hook call, nothing written to the target, and the
    body is not closed. *)
Theorem body_read_fails `{Platform} (c : Client) (muxReq : Request)
    (origBody : bytes) (out : option Out) (fuel : nat) (attempt : Z)
    (resp : option http_Response) (lastErr : option error) (w : World)
    (r : http_Response) (e1 : Env) (e : error) :
  attempt ≤ maxRetries c →
  http_NewRequest_error (Context muxReq) (Method muxReq) (URL muxReq) = None →
  client c (new_request muxReq origBody) (Do_env c muxReq attempt (env w))
  = ((Some r, None), e1) →
  read_error (resp_Body r) = Some e →
  ∃ w' evs,
    retry_loop c muxReq origBody out (S fuel) attempt resp lastErr w
    = (Done (Returned (Some (with_Body r (io_ReadAll (resp_Body r)).2))
                      (Some (failed_to_read_response_body e))), w') ∧
    trace w' = trace w ++ evs ∧ transport_calls evs = 1%nat ∧
    sleeps evs = [] ∧ AfterResponse_calls evs = [] ∧
    stored w' = stored w ∧ deferred w' = deferred w.
Proof.
  intros Hle Hreq Hdo Hread. rewrite retry_loop_step by done.
  unfold attempt_once. rewrite Hreq.
  unfold Do_env, Logf_env in Hdo. unfold Logf.
  cbv [mbind M_bind mret M_ret emit call return_ io_ReadAll].
  destruct (logger c) as [l|]; cbn [env set_env set_trace trace];
    rewrite Hdo; cbn [env set_env set_trace trace]; rewrite Hread;
    eexists _, _; (split; [reflexivity|]); by give_log.
Qed.

(** ** What a return without error means *)

Section Success.
Context `{Platform}.

Lemma not_branch_2xx code :
  (code <? 200) || (300 <=? code) = false → is_2xx code = true.
Proof. unfold is_2xx. lia. Qed.

Lemma attempt_once_success c muxReq origBody out attempt w resp w' :
  attempt_once c muxReq origBody out attempt w = (Done (Returned resp None), w') →
  ∃ r evs q r0,
    resp = Some r ∧ is_2xx (resp_StatusCode r) = true ∧
    trace w' = trace w ++ evs ∧ Do_calls evs = [(q, Some r0, None)] ∧
    (AfterResponse c = None → resp_StatusCode r0 = resp_StatusCode r).
Proof.
  run_attempt; intros ?; simplify_eq;
    eexists _, _, _, _; (split; [reflexivity|]);
    (split; [by apply not_branch_2xx|]);
    cbn; rewrite <- ?app_assoc; (split; [reflexivity|]); cbn;
    (split; [reflexivity|]); done.
Qed.

Lemma prepare_stored c ctx method rawURL body hs w s w' :
  prepare c ctx method rawURL body hs w = (s, w') →
  stored w' = stored w ∧
  ∀ o, s = Done o → ∃ resp e, o = Returned resp (Some e).
Proof.
  rewrite prepare_unfold, describe_result.
  destruct ctx as [x|]; (destruct (resolveURL c rawURL) as [u|e];
    [rewrite before_send_result;
     destruct (BeforeRequest c) as [hook|]; cbn zeta;
     [destruct ((hook _ _).1.2)|]; rewrite ?serialize_result;
     repeat (case_match; simplify_eq/=)|]);
    intros [= <- <-]; (split; [done|]); intros o [=]; subst; eauto.
Qed.

(** What an iteration does to the target: nothing, unless the status was
    2xx and the call returns, without error or with a decoding error. *)
Lemma attempt_once_stored c muxReq origBody out attempt w s w' :
  attempt_once c muxReq origBody out attempt w = (s, w') →
  (out = None → stored w' = stored w) ∧
  (stored w' = stored w ∨
   ∃ r, is_2xx (resp_StatusCode r) = true ∧
        (s = Done (Returned (Some r) None) ∨
         ∃ e, s = Done (Returned (Some r)
                          (Some (failed_to_decode_response e))))).
Proof.
  run_attempt; intros [= <- <-]; (split; [done|]);
    first [by left
          |right; eexists; split; cycle 1;
           [first [left; reflexivity | right; eexists; reflexivity]
           |by apply not_branch_2xx]].
Qed.

End Success.

(** X12.  A call returns a nil error only with a response, one whose
    status is in [200, 300) as the call leaves it, and only when its last
    transport call handed over a response without error; without a
    post-receive hook that is the status the transport returned. *)
Theorem success_means_2xx `{Platform} (c : Client) (fuel : nat)
    (ctx : option Ctx) (method rawURL : string) (body : option Value)
    (out : option Out) (hs : MapRef) (w : World)
    (resp : option http_Response) (w' : World) :
  DoRequest c fuel ctx method rawURL body out hs w
  = Some (Returned resp None, w') →
  ∃ r evs q r0,
    resp = Some r ∧ is_2xx (resp_StatusCode r) = true ∧
    trace w' = trace w ++ evs ∧
    last (Do_calls evs) = Some (q, Some r0, None) ∧
    (AfterResponse c = None → resp_StatusCode r0 = resp_StatusCode r).
Proof.
  rewrite DoRequest_unfold.
  destruct (prepare c ctx method rawURL body hs w)
    as [[[muxReq origBody]|o0|] w1] eqn:Hprep; [| |done].
  2:{ intros [= -> <-]. apply prepare_stored in Hprep as [_ Hdone].
      by destruct (Hdone _ eq_refl) as (? & ? & ?). }
  destruct (prepare_log _ _ _ _ _ _ _ _ _ Hprep) as (evs0 & Htr0 & _ & Hdo0 & _).
  destruct (retry_loop _ _ _ _ _ _ _ _ _) as [[[]|o1|] w2] eqn:Hloop; [|done].
  intros [= -> <-].
  pose proof (retry_loop_rule c muxReq origBody out
    (λ _ _ _ w3, ∃ evs, trace w3 = trace w1 ++ evs)
    (λ o w3, ∀ resp0, o = Returned resp0 None →
       ∃ r evs q r0,
         resp0 = Some r ∧ is_2xx (resp_StatusCode r) = true ∧
         trace w3 = trace w1 ++ evs ∧
         last (Do_calls evs) = Some (q, Some r0, None) ∧
         (AfterResponse c = None → resp_StatusCode r0 = resp_StatusCode r)))
    as Hrule.
  edestruct Hrule as (r & evs & q & r0 & -> & H2xx & Htr & Hlast & Hst);
    [| |exists []; by rewrite app_nil_r|exact Hloop|reflexivity|].
  - intros a r e w3 [evs Htr] _.
    destruct (attempt_once c muxReq origBody out a w3) as [s w4] eqn:Hat.
    destruct s as [[r' e']|o2|]; [| |done].
    + destruct (attempt_once_calls _ _ _ _ _ _ _ _ Hat) as (evs' & Htr' & _).
      exists (evs ++ evs'). by rewrite Htr', Htr, <- app_assoc.
    + intros resp0 ->.
      destruct (attempt_once_success _ _ _ _ _ _ _ _ Hat)
        as (r1 & evs' & q & r0 & -> & H2xx & Htr' & Hdo & Hst).
      exists r1, (evs ++ evs'), q, r0. rewrite Htr', Htr, <- app_assoc.
      rewrite Do_calls_app, Hdo, last_snoc. done.
  - intros a r e w3 _ _ resp0 [=].
  - exists r, (evs0 ++ evs ++ map run_call (deferred w2)), q, r0.
    rewrite run_deferred_trace, Htr, Htr0, <- !app_assoc.
    autorewrite with logs. rewrite Hdo0, app_nil_r. done.
Qed.

(** X13.  A call writes through [out] only on a response with a 2xx
    status, and then returns, either without error or with the decoding
    error; on every other path the target is as it was.  With a nil
    [out] nothing is ever written. *)
Theorem target_written_only_on_2xx `{Platform} (c : Client) (fuel : nat)
    (ctx : option Ctx) (method rawURL : string) (body : option Value)
    (out : option Out) (hs : MapRef) (w : World) (o : Outcome) (w' : World) :
  DoRequest c fuel ctx method rawURL body out hs w = Some (o, w') →
  (out = None → stored w' = stored w) ∧
  (stored w' = stored w ∨
   ∃ r, is_2xx (resp_StatusCode r) = true ∧
        (o = Returned (Some r) None ∨
         ∃ e, o = Returned (Some r) (Some (failed_to_decode_response e)))).
Proof.
  rewrite DoRequest_unfold.
  destruct (prepare c ctx method rawURL body hs w)
    as [[[muxReq origBody]|o0|] w1] eqn:Hprep; [| |done];
    destruct (prepare_stored _ _ _ _ _ _ _ _ _ Hprep) as [Hst0 _].
  2:{ intros [= <- <-]. split; [done|by left]. }
  destruct (retry_loop _ _ _ _ _ _ _ _ _) as [[[]|o1|] w2] eqn:Hloop; [|done].
  intros [= <- <-]. cbn [stored run_deferred set_deferred set_trace].
  rewrite <- Hst0.
  refine (retry_loop_rule c muxReq origBody out
    (λ _ _ _ w3, stored w3 = stored w1)
    (λ o w3, (out = None → stored w3 = stored w1) ∧
       (stored w3 = stored w1 ∨
        ∃ r, is_2xx (resp_StatusCode r) = true ∧
             (o = Returned (Some r) None ∨
              ∃ e, o = Returned (Some r)
                         (Some (failed_to_decode_response e)))))
    _ _ _ _ _ _ _ _ _ _ Hloop); [| |done].
  - intros a r e w3 Hst _.
    destruct (attempt_once c muxReq origBody out a w3) as [s w4] eqn:Hat.
    destruct (attempt_once_stored _ _ _ _ _ _ _ _ Hat) as [Hnone Hcases].
    rewrite <- Hst.
    destruct s as [[r' e']|o2|]; [| |done].
    + destruct Hcases as [?|(r1 & _ & [?|[? ?]])]; done.
    + split; [done|]. destruct Hcases as [?|(r1 & ? & [[= ->]|[e1 [= ->]]])];
        [by left|right; eauto..].
  - intros a r e w3 Hst _. split; [done|by left].
Qed.

(** ** What the logger is told *)

Section Lines.
Context `{Platform}.

Lemma attempt_numbers_app a b :
  attempt_numbers (a ++ b) = attempt_numbers a ++ attempt_numbers b.
Proof. apply omap_app. Qed.

Lemma failure_lines_app a b :
  failure_lines (a ++ b) = failure_lines a ++ failure_lines b.
Proof. apply omap_app. Qed.

Lemma Do_errors_app a b : Do_errors (a ++ b) = Do_errors a ++ Do_errors b.
Proof. apply omap_app. Qed.

Lemma no_lines evs :
  Logf_lines evs = [] → attempt_numbers evs = [] ∧ failure_lines evs = [].
Proof.
  induction evs as [|ev evs IH]; [done|].
  destruct ev; cbn; try done. 
Qed.

Lemma no_calls evs : Do_calls evs = [] → Do_errors evs = [].
Proof.
  induction evs as [|ev evs IH]; [done|].
  destruct ev; cbn; try done.
Qed.

Lemma attempt_once_lines c muxReq origBody out attempt w s w' :
  attempt_once c muxReq origBody out attempt w = (s, w') →
  ∃ evs, trace w' = trace w ++ evs ∧
    (transport_calls evs ≤ 1)%nat ∧
    (∀ x, s = Next x → transport_calls evs = 1%nat) ∧
    (∀ l, logger c = Some l →
       attempt_numbers evs
       = repeat (int_add attempt 1) (transport_calls evs) ∧
       failure_lines evs = Do_errors evs) ∧
    (logger c = None → Logf_lines evs = []).
Proof.
  run_attempt; intros [= <- <-]; give_log;
    (split; [lia|]); (split; [by intros ? [=]|]); (split; [|done]); done.
Qed.

Lemma retry_loop_lines c muxReq origBody out fuel w o w' :
  maxRetries c < MaxInt →
  retry_loop c muxReq origBody out fuel 0 None None w = (Done o, w') →
  ∃ evs, trace w' = trace w ++ evs ∧ logged c evs.
Proof.
  intros Hmax.
  apply (retry_loop_rule c muxReq origBody out
           (λ attempt _ _ w1,
              0 ≤ attempt ∧
              ∃ evs, trace w1 = trace w ++ evs ∧
                     transport_calls evs = Z.to_nat attempt ∧ logged c evs)
           (λ _ w1, ∃ evs, trace w1 = trace w ++ evs ∧ logged c evs)).
  - intros a r e w1 (Ha & evs & Htr & Hn & Hl) Hle.
    destruct (attempt_once c muxReq origBody out a w1) as [s w2] eqn:Hat.
    destruct (attempt_once_lines _ _ _ _ _ _ _ _ Hat)
      as (evs' & Htr' & Hn' & Hnext & Hsome & Hnone).
    rewrite int_add_1 in * by (unfold MinInt, int_bits; lia).
    assert (Hlog : trace w2 = trace w ++ evs ++ evs')
      by (by rewrite Htr', Htr, <- app_assoc).
    assert (Hall : logged c (evs ++ evs')).
    { unfold logged in *. destruct (logger c) as [l|].
      - destruct Hl as [Hnum Hfail].
        destruct (Hsome l eq_refl) as [Hnum' Hfail'].
        rewrite attempt_numbers_app, failure_lines_app, Do_errors_app,
          transport_calls_app, Hnum, Hnum', Hfail, Hfail', Hn.
        split; [|done].
        destruct (transport_calls evs') as [|[|n]]; [| |lia].
        + by rewrite app_nil_r, Nat.add_0_r.
        + rewrite Nat.add_1_r, seqZ_S. cbn [repeat]. do 2 f_equal. lia.
      - rewrite Logf_lines_app, Hl, Hnone; done. }
    destruct s as [[r' e']|o1|]; [|by eexists|done].
    split; [lia|]. exists (evs ++ evs'). split; [done|]. split; [|done].
    rewrite transport_calls_app, Hn, (Hnext _ eq_refl). lia.
  - intros a r e w1 (_ & evs & Htr & _ & Hl) _. eauto.
  - split; [done|]. exists []. rewrite app_nil_r. split; [done|].
    split; [done|]. unfold logged. by destruct (logger c).
Qed.

End Lines.

(** X14.  With a logger, a call logs one [Request: ... (attempt n)] line
    for each transport call, numbered 1, 2, 3, ... in order, and one
    [Request failed: ...] line for each error the transport returned,
    with that error; without a logger it logs nothing. *)
Theorem attempts_are_logged `{Platform} (c : Client) (fuel : nat)
    (ctx : option Ctx) (method rawURL : string) (body : option Value)
    (out : option Out) (hs : MapRef) (w : World) (o : Outcome) (w' : World) :
  maxRetries c < MaxInt →
  DoRequest c fuel ctx method rawURL body out hs w = Some (o, w') →
  ∃ evs,
    trace w' = trace w ++ evs ∧
    match logger c with
    | Some _ =>
        attempt_numbers evs = seqZ 1 (Z.of_nat (transport_calls evs)) ∧
        failure_lines evs = Do_errors evs
    | None => Logf_lines evs = []
    end.
Proof.
  intros Hmax. rewrite DoRequest_unfold.
  destruct (prepare c ctx method rawURL body hs w)
    as [[[muxReq origBody]|o0|] w1] eqn:Hprep; [| |done];
    destruct (prepare_silent _ _ _ _ _ _ _ _ _ Hprep)
      as (evs0 & Htr0 & _ & Hl0 & Hdo0);
    destruct (no_lines _ Hl0) as [Hnum0 Hfail0];
    pose proof (no_calls _ Hdo0) as Herr0.
  - destruct (retry_loop _ _ _ _ _ _ _ _ _) as [[[]|o1|] w2] eqn:Hloop; [|done].
    intros [= <- <-].
    destruct (retry_loop_lines _ _ _ _ _ _ _ _ Hmax Hloop) as (evs & Htr & Hl).
    exists (evs0 ++ evs ++ map run_call (deferred w2)).
    rewrite run_deferred_trace, Htr, Htr0, <- !app_assoc. split; [done|].
    unfold logged in Hl. destruct (logger c) as [l|].
    + destruct Hl as [Hnum Hfail].
      rewrite !attempt_numbers_app, !failure_lines_app, !Do_errors_app.
      autorewrite with logs. unfold transport_calls at 1.
      rewrite Hdo0, Hnum0, Hfail0, Herr0, Hnum, Hfail.
      unfold attempt_numbers, failure_lines, Do_errors.
      rewrite !omap_run_call by done. cbn [length app Nat.add].
      by rewrite !app_nil_r, Nat.add_0_r.
    + rewrite !Logf_lines_app, Hl0, Hl. cbn [app].
      by apply omap_run_call.
  - intros [= <- <-]. exists (evs0 ++ map run_call (deferred w1)).
    rewrite run_deferred_trace, Htr0, <- !app_assoc. split; [done|].
    destruct (logger c) as [l|].
    + rewrite !attempt_numbers_app, !failure_lines_app, !Do_errors_app.
      autorewrite with logs. unfold transport_calls.
      rewrite Hdo0, Hnum0, Hfail0, Herr0.
      unfold attempt_numbers, failure_lines, Do_errors.
      rewrite !omap_run_call by done. done.
    + rewrite !Logf_lines_app, Hl0. by apply omap_run_call.
Qed.

(** ** The errors a call returns *)

Section Errors.
Context `{Platform}.

Lemma prepare_errors c ctx method rawURL body hs w o w' :
  prepare c ctx method rawURL body hs w = (Done o, w') →
  ∃ e, o = Returned None (Some e) ∧
       match e with
       | invalid_request_URL _ | invalid_base_URL _
       | before_request_hook_failed _ | failed_to_marshal_body _ => True
       | _ => False
       end.
Proof.
  rewrite prepare_unfold, describe_result.
  destruct (resolveURL c rawURL) as [u|e] eqn:Hres.
  - rewrite before_send_result.
    destruct ctx as [x|]; (destruct (BeforeRequest c) as [hook|]; cbn zeta;
      [destruct ((hook _ _).1.2)|]; rewrite ?serialize_result;
      repeat (case_match; simplify_eq/=));
      intros [= <- <-]; eexists; (split; [reflexivity|done]).
  - unfold resolveURL in Hres.
    repeat (case_match; simplify_eq/=);
      intros [= <- <-]; eexists; (split; [reflexivity|done]).
Qed.

Lemma branch_not_2xx code :
  (code <? 200) || (300 <=? code) = true → is_2xx code = false.
Proof. unfold is_2xx. lia. Qed.

Lemma attempt_once_errors c muxReq origBody out attempt w s w' :
  attempt_once c muxReq origBody out attempt w = (s, w') →
  ∃ evs, trace w' = trace w ++ evs ∧
    (∀ resp e, s = Next (resp, e) →
       length (Do_calls evs) = 1%nat ∧ retried (Do_calls evs) resp e) ∧
    (∀ resp e, s = Done (Returned resp (Some e)) →
       match e with
       | failed_to_create_request _ => resp = None ∧ Do_calls evs = []
       | failed_to_read_response_body _ | after_response_hook_failed _
       | failed_to_decode_response _ =>
           is_Some resp ∧ ∃ q r0, Do_calls evs = [(q, Some r0, None)]
       | _ => False
       end).
Proof.
  run_attempt; intros [= <- <-]; give_log;
    (split; intros ? ? ?; simplify_eq; cbn; eauto 10);
    (split; [done|]); eexists _, _, _; (split; [reflexivity|]);
    first [by left | right; split; [done|]; eexists _, _;
                     split; [reflexivity|]; split; [reflexivity|];
                     by apply branch_not_2xx].
Qed.

End Errors.

(** X15.  Every error a call returns names the stage that failed.  An
    error of the steps before the loop comes with a nil response and no
    transport call; an error while creating the request with a nil
    response; a read, hook or decoding error with a response, after a
    transport call that returned one without error.  Transport errors and
    status errors are never returned bare: they come wrapped in
    [request failed after maxRetries+1 attempts], which wraps nil only
    when no attempt was made, and otherwise the error of the last
    transport call, with that call's response, or the status error of the
    response returned. *)
Theorem errors_name_their_stage `{Platform} (c : Client) (fuel : nat)
    (ctx : option Ctx) (method rawURL : string) (body : option Value)
    (out : option Out) (hs : MapRef) (w : World)
    (resp : option http_Response) (e : error) (w' : World) :
  DoRequest c fuel ctx method rawURL body out hs w
  = Some (Returned resp (Some e), w') →
  ∃ evs,
    trace w' = trace w ++ evs ∧
    match e with
    | invalid_request_URL _ | invalid_base_URL _
    | before_request_hook_failed _ | failed_to_marshal_body _ =>
        resp = None ∧ Do_calls evs = []
    | failed_to_create_request _ => resp = None
    | failed_to_read_response_body _ | after_response_hook_failed _
    | failed_to_decode_response _ =>
        is_Some resp ∧ ∃ q r0, last (Do_calls evs) = Some (q, Some r0, None)
    | request_failed_after n cause =>
        n = int_add (maxRetries c) 1 ∧
        match cause with
        | None => resp = None ∧ Do_calls evs = []
        | Some e' =>
            ∃ q r0 e0,
              last (Do_calls evs) = Some (q, r0, e0) ∧
              ((e0 = Some e' ∧ resp = r0) ∨
               (e0 = None ∧
                ∃ r body, resp = Some r ∧
                          e' = HTTP_status (resp_StatusCode r) body ∧
                          is_2xx (resp_StatusCode r) = false))
        end
    | Foreign_error _ | HTTP_status _ _ => False
    end.
Proof.
  rewrite DoRequest_unfold.
  destruct (prepare c ctx method rawURL body hs w)
    as [[[muxReq origBody]|o0|] w1] eqn:Hprep; [| |done];
    destruct (prepare_log _ _ _ _ _ _ _ _ _ Hprep)
      as (evs0 & Htr0 & _ & Hdo0 & _).
  2:{ intros [= -> <-].
      destruct (prepare_errors _ _ _ _ _ _ _ _ _ Hprep) as (e0 & [= <- <-] & He).
      exists (evs0 ++ map run_call (deferred w1)).
      rewrite run_deferred_trace, Htr0, <- app_assoc. split; [done|].
      autorewrite with logs. rewrite Hdo0. by destruct e. }
  destruct (retry_loop _ _ _ _ _ _ _ _ _) as [[[]|o1|] w2] eqn:Hloop; [|done].
  intros [= -> <-].
  pose (post := λ (evs : list Event) (resp : option http_Response) (e : error),
    match e with
    | failed_to_create_request _ => resp = None
    | failed_to_read_response_body _ | after_response_hook_failed _
    | failed_to_decode_response _ =>
        is_Some resp ∧ ∃ q r0, last (Do_calls evs) = Some (q, Some r0, None)
    | request_failed_after n cause =>
        n = int_add (maxRetries c) 1 ∧
        match cause with
        | None => resp = None ∧ Do_calls evs = []
        | Some e' => retried (Do_calls evs) resp e'
        end
    | _ => False
    end).
  assert (Hpost : ∃ evs, trace w2 = trace w1 ++ evs ∧ post evs resp e).
  { refine (retry_loop_rule c muxReq origBody out
      (λ _ resp0 lastErr w3, ∃ evs, trace w3 = trace w1 ++ evs ∧
         match lastErr with
         | None => resp0 = None ∧ Do_calls evs = []
         | Some e' => retried (Do_calls evs) resp0 e'
         end)
      (λ o w3, ∀ resp0 e0, o = Returned resp0 (Some e0) →
         ∃ evs, trace w3 = trace w1 ++ evs ∧ post evs resp0 e0)
      _ _ _ _ _ _ _ _ _ _ Hloop resp e eq_refl).
    - intros a r le w3 (evs & Htr & Hinv) _.
      destruct (attempt_once c muxReq origBody out a w3) as [s w4] eqn:Hat.
      destruct (attempt_once_errors _ _ _ _ _ _ _ _ Hat)
        as (evs' & Htr' & Hnext & Hdone).
      assert (Hlog : trace w4 = trace w1 ++ evs ++ evs')
        by (by rewrite Htr', Htr, <- app_assoc).
      destruct s as [[r' e']|o2|]; [| |done].
      + exists (evs ++ evs'). split; [done|].
        destruct (Hnext _ _ eq_refl) as (Hone & q & r0 & e0 & Hlast & Hcase).
        exists q, r0, e0. split; [|done].
        rewrite Do_calls_app.
        destruct (Do_calls evs') as [|x [|??]]; [done| |done].
        cbn in Hlast. rewrite last_snoc. done.
      + intros resp0 e0 ->. exists (evs ++ evs'). split; [done|].
        specialize (Hdone _ _ eq_refl). unfold post.
        destruct e0; cbn in Hdone; try done; try (by destruct Hdone).
        all: destruct Hdone as (Hsome & q & r0 & Hdo); split; [done|];
          exists q, r0; by rewrite Do_calls_app, Hdo, last_snoc.
    - intros a r le w3 (evs & Htr & Hinv) _ resp0 e0 [= <- <-].
      exists evs. split; [done|]. split; [done|]. done.
    - exists []. by rewrite app_nil_r. }
  destruct Hpost as (evs & Htr & Hp).
  exists (evs0 ++ evs ++ map run_call (deferred w2)).
  rewrite run_deferred_trace, Htr, Htr0, <- !app_assoc. split; [done|].
  autorewrite with logs. rewrite Hdo0, app_nil_r. cbn [app].
  unfold post, retried in Hp. by destruct e.
Qed.

(** ** Every attempt that is retried is slept on *)

Section Rhythm.
Context `{Platform}.

Lemma attempt_once_rhythm c muxReq origBody out attempt w s w' :
  0 ≤ attempt →
  attempt_once c muxReq origBody out attempt w = (s, w') →
  ∃ evs, trace w' = trace w ++ evs ∧
    (∀ x, s = Next x → rhythm evs = [None; Some (delay c attempt)]) ∧
    (∀ o, s = Done o →
       (rhythm evs = [] ∨ rhythm evs = [None]) ∧
       ∀ resp, o = Returned resp None → rhythm evs = [None]).
Proof.
  intros Ha.
  destruct (backoff_product (backoff c) attempt Ha) as (f & Hf & Hmul).
  unfold attempt_once, backoff_Sleep. rewrite Hf, Hmul. fold (delay c attempt).
  run_attempt; intros [= <- <-]; give_log;
    (split; intros ? ?; simplify_eq; try done);
    (split; [by auto|]); by intros ? ?; simplify_eq.
Qed.

Lemma retry_loop_rhythm c muxReq origBody out fuel w o w' :
  maxRetries c < MaxInt →
  retry_loop c muxReq origBody out fuel 0 None None w = (Done o, w') →
  ∃ evs (k : nat) tail,
    trace w' = trace w ++ evs ∧
    rhythm evs = flat_map (λ i, [None; Some (delay c i)])
                          (attempts (Z.of_nat k)) ++ tail ∧
    (tail = [] ∨ tail = [None]) ∧
    Z.of_nat k ≤ Z.max 0 (maxRetries c + 1) ∧
    (∀ resp, o = Returned resp None → tail = [None]).
Proof.
  intros Hmax.
  apply (retry_loop_rule c muxReq origBody out
           (λ attempt _ _ w1,
              0 ≤ attempt ∧ attempt ≤ Z.max 0 (maxRetries c + 1) ∧
              ∃ evs, trace w1 = trace w ++ evs ∧
                rhythm evs = flat_map (λ i, [None; Some (delay c i)])
                                      (attempts attempt))
           (λ o w1, ∃ evs (k : nat) tail,
              trace w1 = trace w ++ evs ∧
              rhythm evs = flat_map (λ i, [None; Some (delay c i)])
                                    (attempts (Z.of_nat k)) ++ tail ∧
              (tail = [] ∨ tail = [None]) ∧
              Z.of_nat k ≤ Z.max 0 (maxRetries c + 1) ∧
              (∀ resp, o = Returned resp None → tail = [None]))).
  - intros a r e w1 (Ha & Hb & evs & Htr & Hrh) Hle.
    destruct (attempt_once c muxReq origBody out a w1) as [s w2] eqn:Hat.
    destruct (attempt_once_rhythm _ _ _ _ _ _ _ _ Ha Hat)
      as (evs' & Htr' & Hnext & Hdone).
    assert (Hlog : trace w2 = trace w ++ evs ++ evs')
      by (by rewrite Htr', Htr, <- app_assoc).
    destruct s as [[r' e']|o1|]; [| |done].
    + rewrite int_add_1 by (unfold MinInt, int_bits; lia).
      split; [lia|]. split; [lia|]. exists (evs ++ evs'). split; [done|].
      rewrite rhythm_app, Hrh, (Hnext _ eq_refl). unfold attempts.
      rewrite (seqZ_app 0 a 1), flat_map_app by lia.
      done.
    + destruct (Hdone _ eq_refl) as [Htail Hok].
      exists (evs ++ evs'), (Z.to_nat a), (rhythm evs').
      rewrite rhythm_app, Hrh, Z2Nat.id by lia.
      repeat split; try done.
  - intros a r e w1 (Ha & Hb & evs & Htr & Hrh) Hgt.
    exists evs, (Z.to_nat a), []. rewrite Z2Nat.id, app_nil_r by lia.
    repeat split; try done; try lia; by left.
  - split; [done|]. split; [lia|]. exists []. by rewrite app_nil_r.
Qed.

End Rhythm.

(** X16.  Whatever the transport does, the transport calls and sleeps of a
    call alternate: each attempt that is retried is one transport call
    followed by one sleep of [backoff * 2^i] in [int64], [i] counting the
    attempts from 0, the last attempt before the retries run out included;
    the attempt that ends the call, if any, makes at most one transport
    call and does not sleep, and a call that returns without error ends on
    a transport call. *)
Theorem sleeps_follow_retried_attempts `{Platform} (c : Client) (fuel : nat)
    (ctx : option Ctx) (method rawURL : string) (body : option Value)
    (out : option Out) (hs : MapRef) (w : World) (o : Outcome) (w' : World) :
  maxRetries c < MaxInt →
  DoRequest c fuel ctx method rawURL body out hs w = Some (o, w') →
  ∃ evs (k : nat) tail,
    trace w' = trace w ++ evs ∧
    rhythm evs = flat_map (λ i, [None; Some (delay c i)])
                          (attempts (Z.of_nat k)) ++ tail ∧
    (tail = [] ∨ tail = [None]) ∧
    Z.of_nat k ≤ Z.max 0 (maxRetries c + 1) ∧
    (∀ resp, o = Returned resp None → tail = [None]).
Proof.
  intros Hmax. rewrite DoRequest_unfold.
  destruct (prepare c ctx method rawURL body hs w)
    as [[[muxReq origBody]|o0|] w1] eqn:Hprep; [| |done];
    destruct (prepare_log _ _ _ _ _ _ _ _ _ Hprep)
      as (evs0 & Htr0 & Hrh0 & _).
  - destruct (retry_loop _ _ _ _ _ _ _ _ _) as [[[]|o1|] w2] eqn:Hloop; [|done].
    intros [= <- <-].
    destruct (retry_loop_rhythm _ _ _ _ _ _ _ _ Hmax Hloop)
      as (evs & k & tail & Htr & Hrh & Htail & Hk & Hok).
    exists (evs0 ++ evs ++ map run_call (deferred w2)), k, tail.
    rewrite run_deferred_trace, Htr, Htr0, <- !app_assoc. split; [done|].
    autorewrite with logs. rewrite Hrh0, Hrh, app_nil_r. done.
  - intros [= <- <-].
    destruct (prepare_stored _ _ _ _ _ _ _ _ _ Hprep) as [_ Hdone].
    destruct (Hdone _ eq_refl) as (resp & e & ->).
    exists (evs0 ++ map run_call (deferred w1)), 0%nat, [].
    rewrite run_deferred_trace, Htr0, <- !app_assoc. split; [done|].
    autorewrite with logs. rewrite Hrh0.
    repeat split; try done; try lia. by left.
Qed.

(** ** Building a client *)

Section Building.
Context `{Platform}.

Lemma SetHeader_result c l k v w :
  headers c = Some l →
  SetHeader c k v w
  = (Next c, set_maps (<[l := <[k := v]> (entries (maps w) (Some l))]>
                         (maps w)) w).
Proof. intros Hl. unfold SetHeader. by rewrite Hl. Qed.

Lemma NewClient_result std w :
  let l := fresh (dom (maps w)) in
  NewClient std w
  = (Next {| client := std; headers := Some l; timeout := 5 * 1000000000;
             BaseURL := EmptyString; logger := None; maxRetries := 0;
             backoff := 0; BeforeRequest := None; AfterResponse := None |},
     set_maps (<[l := ∅]> (maps w)) w).
Proof. done. Qed.

Lemma fresh_map_unused (m : gmap positive (gmap string string)) :
  m !! fresh (dom m) = None.
Proof. apply not_elem_of_dom, is_fresh. Qed.

End Building.

(** X17.  [SetHeader] writes into the client's own map and returns the
    client: the entry is there afterwards, the other entries and every
    other map are as before, and a later call whose per-call headers do
    not have the key builds its descriptor with that value.  On a client
    whose header map is nil it panics. *)
Theorem SetHeader_sets_default `{Platform} (c : Client) (k v : string)
    (w : World) :
  match headers c with
  | None =>
      SetHeader c k v w
      = (Done (Panicked "assignment to entry in nil map"), w)
  | Some l =>
      ∃ w1,
        SetHeader c k v w = (Next c, w1) ∧
        entries (maps w1) (headers c) = <[k := v]> (entries (maps w) (headers c)) ∧
        (∀ l', l' ≠ l → maps w1 !! l' = maps w !! l') ∧
        trace w1 = trace w ∧
        ∀ ctx method rawURL body hs muxReq w2,
          entries (maps w1) hs !! k = None →
          describe c ctx method rawURL body hs w1 = (Next muxReq, w2) →
          Headers muxReq !! k = Some v
  end.
Proof.
  destruct (headers c) as [l|] eqn:Hl.
  - eexists. split; [by apply SetHeader_result|]. cbn [maps set_maps trace].
    assert (Hent : entries (<[l := <[k := v]> (entries (maps w) (Some l))]>
                              (maps w)) (Some l)
                   = <[k := v]> (entries (maps w) (Some l))).
    { cbn [entries]. by rewrite lookup_insert_eq. }
    split; [done|]. split; [by intros l' Hne; rewrite lookup_insert_ne|].
    split; [done|].
    intros ctx method rawURL body hs muxReq w2 Hk.
    rewrite describe_result. destruct (resolveURL c rawURL) as [u|e]; [|done].
    intros [= <- _]. cbn [Headers maps set_maps]. rewrite Hl.
    cbn [entries] in Hent, Hk |- *. rewrite Hent.
    rewrite lookup_union_r by done. apply lookup_insert_eq.
  - unfold SetHeader. by rewrite Hl.
Qed.

(** X18.  Each client that [NewClient] makes has a header map of its own,
    new and empty: a header set on one client is not seen by another, and
    no map that was there before is changed. *)
Theorem NewClient_clients_are_independent `{Platform}
    (std1 std2 : http_Request → Env →
                 (option http_Response * option error) * Env)
    (k v : string) (w : World) :
  ∃ c1 c2 w1 w2 w3,
    NewClient std1 w = (Next c1, w1) ∧
    NewClient std2 w1 = (Next c2, w2) ∧
    SetHeader c1 k v w2 = (Next c1, w3) ∧
    headers c1 ≠ headers c2 ∧
    entries (maps w3) (headers c1) = {[ k := v ]} ∧
    entries (maps w3) (headers c2) = ∅ ∧
    ∀ l, is_Some (maps w !! l) → maps w3 !! l = maps w !! l.
Proof.
  set (l1 := fresh (dom (maps w))).
  set (m1 := <[l1 := ∅]> (maps w)).
  set (l2 := fresh (dom m1)).
  assert (H1 : maps w !! l1 = None) by apply fresh_map_unused.
  assert (H2 : m1 !! l2 = None) by apply fresh_map_unused.
  assert (Hne : l2 ≠ l1).
  { intros Heq. rewrite Heq in H2. unfold m1 in H2.
    by rewrite lookup_insert_eq in H2. }
  eexists _, _, _, _, _.
  split; [apply NewClient_result|]. split; [apply NewClient_result|].
  cbn [maps set_maps]. fold l1 m1 l2.
  split; [by apply SetHeader_result|].
  cbn [headers maps set_maps entries].
  split; [by intros [= ?]|].
  rewrite lookup_insert_eq, (lookup_insert_ne _ l1 l2) by done.
  rewrite !lookup_insert_eq, (lookup_insert_ne _ l2 l1) by done.
  unfold m1 at 1. rewrite lookup_insert_eq. cbn [default].
  split; [done|]. split; [done|].
  intros l [m Hl].
  assert (l ≠ l1) by (intros ->; by rewrite H1 in Hl).
  assert (l ≠ l2).
  { intros ->. unfold m1 in H2. rewrite lookup_insert_ne in H2 by done.
    by rewrite H2 in Hl. }
  unfold m1. by rewrite !lookup_insert_ne.
Qed.

(** ** A client with the defaults *)

Section Defaults.
Context `{Platform}.

Lemma dur_mul_0 z : dur_mul 0 z = 0.
Proof. done. Qed.

(** An iteration of a client without logger, post-receive hook or
    backoff. *)
Lemma attempt_once_plain c muxReq origBody out attempt w s w' :
  logger c = None → AfterResponse c = None → backoff c = 0 →
  attempt_once c muxReq origBody out attempt w = (s, w') →
  ∃ evs, trace w' = trace w ++ evs ∧
         AfterResponse_calls evs = [] ∧ Forall (λ d, d = 0) (sleeps evs).
Proof.
  intros Hlog Hhook Hb. unfold attempt_once, backoff_Sleep.
  rewrite Hb, Hhook.
  destruct (dur_shl1 attempt) as [factor|]; rewrite ?dur_mul_0;
  run_attempt; intros [= <- <-]; give_log; (split; [done|]);
    repeat constructor.
Qed.

Lemma retry_loop_plain c muxReq origBody out fuel attempt resp lastErr w o w' :
  logger c = None → AfterResponse c = None → backoff c = 0 →
  retry_loop c muxReq origBody out fuel attempt resp lastErr w = (Done o, w') →
  ∃ evs, trace w' = trace w ++ evs ∧
         AfterResponse_calls evs = [] ∧ Forall (λ d, d = 0) (sleeps evs).
Proof.
  intros Hlog Hhook Hb.
  apply (retry_loop_log c muxReq origBody out
           (λ evs, AfterResponse_calls evs = [] ∧
                   Forall (λ d, d = 0) (sleeps evs))).
  - split; [done|constructor].
  - intros a b [Ha1 Ha2] [Hb1 Hb2].
    rewrite AfterResponse_calls_app, sleeps_app, Ha1, Hb1.
    split; [done|by apply Forall_app].
  - intros a w1 s w2. by apply attempt_once_plain.
Qed.

End Defaults.

(** X19.  A client as [NewClient] makes it needs no configuration to be
    used: any call on it returns, after at most one transport call; it
    sleeps no time, logs nothing and calls no hook; and each transport
    call carries the URL as the caller wrote it and the caller's context,
    or else one with the timeout of five seconds. *)
Theorem NewClient_defaults `{Platform}
    (std : http_Request → Env → (option http_Response * option error) * Env)
    (w : World) (c : Client) (w1 : World) (ctx : option Ctx)
    (method rawURL : string) (body : option Value) (out : option Out)
    (hs : MapRef) :
  NewClient std w = (Next c, w1) →
  ∃ o w' evs,
    DoRequest c 1 ctx method rawURL body out hs w1 = Some (o, w') ∧
    trace w' = trace w1 ++ evs ∧
    (transport_calls evs ≤ 1)%nat ∧
    Forall (λ d, d = 0) (sleeps evs) ∧
    Logf_lines evs = [] ∧
    BeforeRequest_calls evs = [] ∧ AfterResponse_calls evs = [] ∧
    Forall (λ x, req_URL x.1.1 = rawURL ∧
                 req_Context x.1.1
                 = Some (default (context_WithTimeout 5000000000) ctx))
           (Do_calls evs).
Proof.
  rewrite NewClient_result. intros [= <- <-].
  set (c := {| client := std |}). set (w1 := set_maps _ w).
  assert (Hret : ∃ o w', DoRequest c 1 ctx method rawURL body out hs w1
                         = Some (o, w')).
  { rewrite DoRequest_unfold.
    pose proof (prepare_falls_or_returns c ctx method rawURL body hs w1) as Hp.
    destruct (prepare c ctx method rawURL body hs w1)
      as [[[muxReq origBody]|o|] w2]; [|by eauto|done].
    destruct (retry_loop_terminates c muxReq origBody out 1 0 None None w2)
      as (o & w3 & ->); [done..|]. eauto. }
  destruct Hret as (o & w' & Hrun). exists o, w'.
  destruct (DoRequest_requests_plain c _ _ _ _ _ _ _ _ _ _ eq_refl Hrun)
    as (evs & Htr & Hbefore & _ & Hreq).
  exists evs. do 2 (split; [done|]).
  assert (Hurl : Forall (λ x, req_URL x.1.1 = rawURL ∧
                   req_Context x.1.1
                   = Some (default (context_WithTimeout 5000000000) ctx))
                        (Do_calls evs)).
  { eapply Forall_impl; [exact Hreq|]. intros x (_ & Hres & Hctx & _).
    split; [|exact Hctx]. unfold resolveURL in Hres. cbn in Hres.
    destruct (url_Parse rawURL); [|done].
    rewrite orb_true_r in Hres. by injection Hres. }
  revert Hrun. rewrite DoRequest_unfold.
  destruct (prepare c ctx method rawURL body hs w1)
    as [[[muxReq origBody]|o0|] w2] eqn:Hprep; [| |done];
    destruct (prepare_silent _ _ _ _ _ _ _ _ _ Hprep)
      as (evs0 & Htr0 & Hs0 & Hl0 & Hdo0);
    destruct (prepare_log _ _ _ _ _ _ _ _ _ Hprep)
      as (evs0' & Htr0' & _ & _ & Ha0 & _);
    rewrite Htr0 in Htr0'; apply app_inv_head in Htr0' as <-.
  - destruct (retry_loop _ _ _ _ _ _ _ _ _) as [[[]|o1|] w3] eqn:Hloop; [|done].
    intros [= <- <-].
    destruct (retry_loop_calls c _ _ _ _ _ _ _ eq_refl Hloop)
      as (evs1 & Htr1 & Hcalls).
    destruct (retry_loop_plain c _ _ _ _ _ _ _ _ _ _ eq_refl eq_refl eq_refl
                Hloop) as (evs2 & Htr2 & Hafter & Hsleeps).
    destruct (retry_loop_lines c _ _ _ _ _ _ _ eq_refl Hloop)
      as (evs3 & Htr3 & Hlines).
    rewrite Htr1 in Htr2, Htr3.
    apply app_inv_head in Htr2 as <-. apply app_inv_head in Htr3 as <-.
    rewrite run_deferred_trace, Htr1, Htr0, <- !app_assoc in Htr.
    apply app_inv_head in Htr as <-.
    change (transport_calls evs1 ≤ 1)%nat in Hcalls.
    change (Logf_lines evs1 = []) in Hlines.
    split.
    { autorewrite with logs. unfold transport_calls at 1. rewrite Hdo0.
      cbn [length]. lia. }
    split; [autorewrite with logs; by rewrite Hs0, app_nil_r|].
    split.
    { rewrite !Logf_lines_app, Hl0, Hlines. by apply omap_run_call. }
    split; [done|]. split; [|done].
    autorewrite with logs. by rewrite Ha0, Hafter.
  - intros [= <- <-].
    rewrite run_deferred_trace, Htr0, <- !app_assoc in Htr.
    apply app_inv_head in Htr as <-.
    split.
    { autorewrite with logs. unfold transport_calls. rewrite Hdo0.
      cbn [length]. lia. }
    split; [autorewrite with logs; rewrite Hs0; constructor|].
    split.
    { rewrite !Logf_lines_app, Hl0. by apply omap_run_call. }
    split; [done|]. split; [|done].
    autorewrite with logs. by rewrite Ha0.
Qed.

(** ** What the post-receive hook is given *)

Section Descriptors.
Context `{Platform}.

Lemma descriptors_app a b :
  descriptors (a ++ b) = descriptors a ++ descriptors b.
Proof. unfold descriptors. by rewrite responses_app, omap_app. Qed.

Lemma attempt_once_descriptors c muxReq origBody out attempt w s w' :
  attempt_once c muxReq origBody out attempt w = (s, w') →
  ∃ evs, trace w' = trace w ++ evs ∧
    match AfterResponse c with
    | Some _ => map fst (AfterResponse_calls evs) = descriptors evs
    | None => AfterResponse_calls evs = []
    end.
Proof.
  unfold descriptors.
  run_attempt; intros [= <- <-]; give_log;
    repeat match goal with
           | Hr : read_error _ = _ |- _ => rewrite Hr
           end; try done;
    match goal with
    | |- context [match ?r with Some _ => _ | None => _ end] => by destruct r
    end.
Qed.

Lemma retry_loop_descriptors c muxReq origBody out fuel attempt resp lastErr
    w o w' :
  retry_loop c muxReq origBody out fuel attempt resp lastErr w = (Done o, w') →
  ∃ evs, trace w' = trace w ++ evs ∧
    match AfterResponse c with
    | Some _ => map fst (AfterResponse_calls evs) = descriptors evs
    | None => AfterResponse_calls evs = []
    end.
Proof.
  apply (retry_loop_log c muxReq origBody out
           (λ evs, match AfterResponse c with
                   | Some _ => map fst (AfterResponse_calls evs)
                               = descriptors evs
                   | None => AfterResponse_calls evs = []
                   end)).
  - by destruct (AfterResponse c).
  - intros a b Ha Hb. rewrite AfterResponse_calls_app, descriptors_app, map_app.
    destruct (AfterResponse c); by rewrite Ha, Hb.
  - intros a w1 s w2. apply attempt_once_descriptors.
Qed.

End Descriptors.

(** X20.  With a post-receive hook, the hook is called, in order, once for
    each response whose body read in full, on a descriptor with the status
    and the headers of that response and the whole body as its [Body];
    without one, nothing is called. *)
Theorem hook_sees_each_response `{Platform} (c : Client) (fuel : nat)
    (ctx : option Ctx) (method rawURL : string) (body : option Value)
    (out : option Out) (hs : MapRef) (w : World) (o : Outcome) (w' : World) :
  DoRequest c fuel ctx method rawURL body out hs w = Some (o, w') →
  ∃ evs,
    trace w' = trace w ++ evs ∧
    match AfterResponse c with
    | Some _ => map fst (AfterResponse_calls evs) = descriptors evs
    | None => AfterResponse_calls evs = []
    end.
Proof.
  rewrite DoRequest_unfold.
  destruct (prepare c ctx method rawURL body hs w)
    as [[[muxReq origBody]|o0|] w1] eqn:Hprep; [| |done];
    destruct (prepare_log _ _ _ _ _ _ _ _ _ Hprep)
      as (evs0 & Htr0 & _ & _ & Ha0 & _ & Hr0).
  - destruct (retry_loop _ _ _ _ _ _ _ _ _) as [[[]|o1|] w2] eqn:Hloop; [|done].
    intros [= <- <-].
    destruct (retry_loop_descriptors _ _ _ _ _ _ _ _ _ _ _ Hloop)
      as (evs & Htr & Hd).
    exists (evs0 ++ evs ++ map run_call (deferred w2)).
    rewrite run_deferred_trace, Htr, Htr0, <- !app_assoc. split; [done|].
    unfold descriptors in *. autorewrite with logs.
    rewrite Ha0, Hr0, !app_nil_r. done.
  - intros [= <- <-]. exists (evs0 ++ map run_call (deferred w1)).
    rewrite run_deferred_trace, Htr0, <- !app_assoc. split; [done|].
    unfold descriptors. autorewrite with logs. rewrite Ha0, Hr0.
    by destruct (AfterResponse c).
Qed.

(** * Runs on the small platform *)

Import Demo.

Lemma resolveURL_cases_witness :
  resolveURL (SetBaseURL (bare refusing) "https://api.example.com") "/items/1"
  = Ok "https://api.example.com/items/1"%string.
Proof.
  pose proof (resolveURL_cases
                (SetBaseURL (bare refusing) "https://api.example.com")
                "/items/1" "/items/1" eq_refl) as (_ & Hrel & _).
  exact (Hrel eq_refl ltac:(discriminate) "https://api.example.com"%string eq_refl).
Defined.

Lemma negative_maxRetries_witness :
  ∃ w', DoRequest (SetMaxRetries (bare (scripted [response 200 id1])) (-3))
          0 None "GET" "http://x/a" None None None start
        = Some (Returned None (Some (request_failed_after (-2) None)), w')
        ∧ transport_calls (trace w') = 0%nat.
Proof.
  destruct (negative_maxRetries
              (SetMaxRetries (bare (scripted [response 200 id1])) (-3))
              0 None "GET" "http://x/a" None None None start _ _ _
              ltac:(vm_compute; split; [discriminate|reflexivity]) eq_refl)
    as (err & evs & Hrun & -> & _ & Htr & Hcalls).
  eexists. split; [exact Hrun|]. rewrite Htr. exact Hcalls.
Defined.

Lemma BeforeRequest_once_witness :
  ∃ w', DoRequest (SetMaxRetries
                     (SetBeforeRequestHook (bare refusing)
                                           (Some veto)) 3)
          0 None "GET" "http://x/a" None None None start
        = Some (Returned None
                  (Some (before_request_hook_failed
                           (Foreign_error "no"%string))),
                w')
        ∧ transport_calls (trace w') = 0%nat
        ∧ length (BeforeRequest_calls (trace w')) = 1%nat.
Proof.
  destruct (BeforeRequest_once
              (SetMaxRetries
                 (SetBeforeRequestHook (bare refusing)
                                       (Some veto)) 3)
              None "GET" "http://x/a" None None None start _ _ veto
              eq_refl eq_refl) as [_ Hveto].
  destruct (Hveto _ eq_refl 0%nat) as (w' & evs & Hrun & Htr & Hcalls & Hb).
  exists w'. split; [exact Hrun|]. rewrite Htr. cbn [start trace app].
  split; [exact Hcalls|]. by rewrite Hb.
Defined.


Lemma retries_exhausted_witness :
  let c := SetBackoff (SetMaxRetries (bare refusing) 2) 10 in
  ∃ o w' evs,
    DoRequest c 3 None "GET" "http://x/a" None None None start = Some (o, w') ∧
    trace w' = trace start ++ evs ∧
    transport_calls evs = 3%nat ∧
    rhythm evs = [None; Some 10; None; Some 20; None; Some 40].
Proof.
  intros c.
  destruct (retries_exhausted c 3 None "GET" "http://x/a" None None None start)
    as (o & w' & evs & Hrun & Htr & _ & _ & Hfail);
    [vm_compute; split; [discriminate|reflexivity] | cbn; lia |].
  edestruct Hfail as (Hn & Hrh & _);
    [vm_compute; reflexivity | reflexivity | intros; discriminate |].
  exists o, w', evs. split; [exact Hrun|]. split; [exact Htr|].
  split; [exact Hn|]. rewrite Hrh. vm_compute. reflexivity.
Defined.

(** C1 as stated fails once the product leaves [int64]: with a backoff of
    one nanosecond and 64 retries, the sleep between the transport calls 64
    and 65 is negative, not [2^63] nanoseconds. *)
Lemma nominal_sleeps_overflow :
  let c := SetBackoff (SetMaxRetries (bare refusing) 64) 1 in
  match DoRequest c 65 (Some 0) "GET" "http://x/a" None None None start with
  | Some (_, w') =>
      transport_calls (trace w') = 65%nat ∧
      sleeps (trace w') !! 63%nat = Some (- 2 ^ 63) ∧
      nominal_delay c 63 = 2 ^ 63 ∧
      ¬ nominal_sleeps c (trace w')
  | None => False
  end.
Proof.
  intros c.
  assert (Hs : match DoRequest c 65 (Some 0) "GET" "http://x/a" None None None
                     start with
               | Some (_, w') =>
                   Some (transport_calls (trace w'), sleeps (trace w') !! 63%nat)
               | None => None
               end = Some (65%nat, Some (- 2 ^ 63)))
    by (vm_compute; reflexivity).
  destruct (DoRequest c 65 (Some 0) "GET" "http://x/a" None None None start)
    as [[o w']|]; [|discriminate Hs].
  injection Hs as Hn Hs.
  split; [exact Hn|]. split; [exact Hs|]. split; [reflexivity|].
  intros Hnom. apply Hnom in Hs; [|vm_compute; reflexivity].
  vm_compute in Hs. discriminate Hs.
Qed.

Lemma decode_on_success_witness :
  ∃ o w',
    retry_loop (bare (scripted [response 200 id1])) plain_GET [] (Some string_pointer) 1 0 None None start
    = (Done o, w') ∧
    o = Returned (Some (response 200 [])) None ∧
    stored w' = Some (stored_string id1).
Proof.
  edestruct (decode_on_success (bare (scripted [response 200 id1])) plain_GET [] (Some string_pointer) 0 0 None None start)
    as (_ & o & w' & evs & Hloop & _ & _ & _ & Ho & Hst);
    [vm_compute; discriminate | reflexivity | reflexivity | reflexivity
    | reflexivity | reflexivity |].
  exists o, w'. split; [exact Hloop|]. split; [exact Ho|exact Hst].
Defined.

Lemma AfterResponse_once_per_body_witness :
  ∃ w' evs,
    retry_loop (SetMaxRetries (SetAfterResponseHook
                                 (bare (scripted [response 200 id1]))
                                 (Some reject)) 3)
               plain_GET [] None 1 0 None None start
    = (Done (Returned (Some (response 200 []))
                      (Some (after_response_hook_failed
                               (Foreign_error "rate limited"%string)))), w') ∧
    trace w' = trace start ++ evs ∧ transport_calls evs = 1%nat ∧
    sleeps evs = [].
Proof.
  destruct (AfterResponse_once_per_body
              (SetMaxRetries (SetAfterResponseHook
                                (bare (scripted [response 200 id1]))
                                (Some reject)) 3) reject eq_refl)
    as (_ & _ & Herr).
  edestruct (Herr plain_GET [] None 0%nat 0 None None start)
    as (w' & evs & Hloop & Htr & Hn & Hsl & _);
    [vm_compute; discriminate | reflexivity | reflexivity | reflexivity
    | reflexivity |].
  exists w', evs. split; [exact Hloop|]. split; [exact Htr|].
  split; [exact Hn|exact Hsl].
Defined.

(** C4 as stated fails when a response arrives whose body cannot be read:
    the transport returned a response, and the hook was not invoked. *)
Lemma hook_skipped_on_unreadable_body :
  match DoRequest (SetAfterResponseHook (bare (scripted [broken])) (Some pass))
                  1 (Some 7) "GET" "http://x/a" None None None start with
  | Some (o, w') =>
      o = Returned (Some (with_Body broken {| unread := [];
                                              read_error := read_error (resp_Body broken) |}))
            (Some (failed_to_read_response_body
                     (Foreign_error "unexpected EOF"%string))) ∧
      responses (trace w') = [broken] ∧
      AfterResponse_calls (trace w') = [] ∧
      ¬ hook_per_response (trace w')
  | None => False
  end.
Proof. vm_compute. repeat split. discriminate. Qed.

Lemma Body_reassignment_unobserved_witness :
  ∃ o w',
    retry_loop (SetAfterResponseHook (bare (scripted [response 200 id1]))
                  (Some (then_reassign_Body pass (λ _, oops))))
               plain_GET [] (Some string_pointer) 1 0 None None start
    = (Done o, w') ∧
    stored w' = Some (stored_string id1).
Proof.
  destruct (Body_reassignment_unobserved (bare (scripted [response 200 id1]))
              pass (λ _, oops)) as [_ Hdecode].
  edestruct (Hdecode plain_GET [] (Some string_pointer) 0%nat 0 None None start)
    as (o & w' & Hloop & Hst);
    [vm_compute; discriminate | reflexivity | reflexivity | reflexivity
    | reflexivity | reflexivity | reflexivity |].
  exists o, w'. split; [exact Hloop|exact Hst].
Defined.

(** C2 at a failing input.  The transport answers 500 with the body
    [oops]; no hook is set and no retry is allowed.  The body is read (the
    log has it), yet the status error that the call records and returns
    carries the code and an empty body. *)
Theorem status_error_drops_body :
  match DoRequest (bare (scripted [response 500 oops])) 1 (Some 7) "GET"
                  "http://x/a" None None None start with
  | Some (o, w') =>
      o = Returned (Some (response 500 []))
            (Some (request_failed_after 1 (Some (HTTP_status 500 [])))) ∧
      bodies_read (trace w') = [oops] ∧
      transport_calls (trace w') = 1%nat ∧
      sleeps (trace w') = [0]
  | None => False
  end.
Proof. vm_compute. repeat split. Qed.

(** The scenario of a 500 followed by a 200 with one retry allowed: two
    transport calls to the resolved URL, with the merged headers; the
    target holds the decoded second body and no error is returned; the
    client's own header map is as before. *)
Example retry_then_success :
  match DoRequest api_client 2 (Some 7) "GET" "/items/1" None
                  (Some (other_pointer [])) (Some 2%positive) heap with
  | Some (o, w') =>
      o = Returned (Some (response 200 [])) None ∧
      stored w' = Some (stored_JSON id1) ∧
      map (λ x, (req_URL x.1.1, req_Header x.1.1 !! "Accept"%string,
                 req_Header x.1.1 !! "X-Env"%string))
          (Do_calls (trace w'))
      = [("https://api.example.com/items/1"%string,
          Some ["application/json"%string], Some ["prod"%string]);
         ("https://api.example.com/items/1"%string,
          Some ["application/json"%string], Some ["prod"%string])] ∧
      entries (maps w') (Some 1%positive) !! "Accept"%string
      = Some "text/plain"%string
  | None => False
  end.
Proof. vm_compute. repeat split. Qed.

(** With a negative backoff the sleeps before the wrap return at once, and
    the wrapped one is long: after the failed attempt 62 the code asks for
    [2^62] nanoseconds where the product is negative. *)
Example negative_backoff_wraps :
  let c := SetBackoff (SetMaxRetries (bare refusing) 63) (-3) in
  match DoRequest c 64 (Some 0) "GET" "http://x/a" None None None start with
  | Some (_, w') =>
      sleeps (trace w') !! 62%nat = Some (2 ^ 62) ∧
      nominal_delay c 62 = - 3 * 2 ^ 62
  | None => False
  end.
Proof. vm_compute. repeat split. Qed.

(** ** Runs for the further properties *)

Lemma DoRequest_unresolved_URL_witness :
  ∃ w', DoRequest (bare refusing) 0 None "GET" ":bad" None None None start
        = Some (Returned None
                  (Some (invalid_request_URL
                           (Foreign_error "missing protocol scheme"%string))),
                w') ∧
        transport_calls (trace w') = 0%nat.
Proof.
  destruct (DoRequest_unresolved_URL (bare refusing) 0 None "GET" ":bad" None
              None None start _ eq_refl)
    as (w' & evs & Hrun & Htr & Hn & _).
  exists w'. split; [exact Hrun|]. rewrite Htr. exact Hn.
Defined.

Lemma deferred_calls_run_last_witness :
  ∃ o w' evs closes,
    DoRequest api_client 2 None "GET" "/items/1" None None None heap
    = Some (o, w') ∧
    trace w' = trace heap ++ evs ++ map ev_Close closes ++ [ev_cancel] ∧
    cancels evs = 0%nat ∧ deferred w' = [].
Proof.
  assert (Hsome : ∃ o w', DoRequest api_client 2 None "GET" "/items/1" None
                            None None heap = Some (o, w'))
    by (vm_compute; eexists _, _; reflexivity).
  destruct Hsome as (o & w' & Hrun).
  destruct (deferred_calls_run_last api_client 2 None "GET" "/items/1" None None
              None heap o w' eq_refl Hrun)
    as (evs & closes & Htr & Hc & _ & _ & Hd).
  exists o, w', evs, closes. split; [exact Hrun|]. split; [exact Htr|].
  split; [exact Hc|exact Hd].
Defined.

Lemma requests_as_called_witness :
  ∃ o w' evs,
    DoRequest api_client 2 None "POST" "/items" (Some (Some id1)) None None heap
    = Some (o, w') ∧
    trace w' = trace heap ++ evs ∧
    Forall (λ x, req_Method x.1.1 = "POST"%string ∧
                 req_Context x.1.1 = Some 5000000000)
           (Do_calls evs) ∧
    Do_calls evs ≠ [].
Proof.
  assert (Hsome : ∃ o w', DoRequest api_client 2 None "POST" "/items"
                            (Some (Some id1)) None None heap = Some (o, w'))
    by (vm_compute; eexists _, _; reflexivity).
  destruct Hsome as (o & w' & Hrun).
  destruct (requests_as_called api_client 2 None "POST" "/items"
              (Some (Some id1)) None None heap o w' eq_refl Hrun)
    as (evs & Htr & _ & _ & Hq & Hsent).
  exists o, w', evs. split; [exact Hrun|]. split; [exact Htr|]. split.
  - eapply Forall_impl; [exact Hq|].
    intros x (Hm & _ & Hc & _). split; [exact Hm|exact Hc].
  - apply (Hsent ltac:(cbn; lia) "https://api.example.com/items"%string);
      [vm_compute; reflexivity | reflexivity |].
    intros v Hv. injection Hv as <-. eexists. reflexivity.
Defined.

Lemma method_helpers_witness :
  ∃ o w' evs,
    Get (bare refusing) 1 (Some 7) "http://x/a" None None start = Some (o, w') ∧
    trace w' = trace start ++ evs ∧ Marshal_calls evs = [] ∧
    Forall (λ x, req_Method x.1.1 = "GET"%string ∧ req_Body x.1.1 = None)
           (Do_calls evs) ∧
    Do_calls evs ≠ [].
Proof.
  assert (Hsome : ∃ o w', Get (bare refusing) 1 (Some 7) "http://x/a" None None
                            start = Some (o, w'))
    by (vm_compute; eexists _, _; reflexivity).
  destruct Hsome as (o & w' & Hrun).
  destruct (method_helpers (bare refusing) 1 (Some 7) "http://x/a" None None
              start o w' eq_refl) as [Hget _].
  destruct (Hget (Get (bare refusing)) "GET"%string
                 (or_introl (conj eq_refl eq_refl)) Hrun)
    as (_ & evs & H1 & H2 & H3 & Hsent).
  exists o, w', evs. split; [exact Hrun|]. split; [exact H1|].
  split; [exact H2|]. split; [exact H3|].
  apply (Hsent ltac:(cbn; lia) "http://x/a"%string);
    [vm_compute; reflexivity | reflexivity].
Defined.

Lemma hook_descriptor_is_sent_witness :
  ∃ o w' evs,
    DoRequest (SetBeforeRequestHook (bare refusing) (Some add_trace_id)) 1
              (Some 7) "GET" "http://x/a" None None None start = Some (o, w') ∧
    trace w' = trace start ++ evs ∧
    length (BeforeRequest_calls evs) = 1%nat ∧
    Forall (λ x, req_Header x.1.1 !! "X-Trace-ID"%string
                 = Some ["abc"%string])
           (Do_calls evs) ∧
    Do_calls evs ≠ [].
Proof.
  assert (Hsome : ∃ o w',
            DoRequest (SetBeforeRequestHook (bare refusing) (Some add_trace_id))
                      1 (Some 7) "GET" "http://x/a" None None None start
            = Some (o, w'))
    by (vm_compute; eexists _, _; reflexivity).
  destruct Hsome as (o & w' & Hrun).
  edestruct (hook_descriptor_is_sent
               (SetBeforeRequestHook (bare refusing) (Some add_trace_id)) 1
               (Some 7) "GET" "http://x/a" None None None start)
    as (evs & Htr & Hb & Hq & Hsent);
    [reflexivity | vm_compute; reflexivity | reflexivity | exact Hrun |].
  exists o, w', evs. split; [exact Hrun|]. split; [exact Htr|].
  split; [rewrite Hb; reflexivity|]. split.
  - eapply Forall_impl; [exact Hq|].
    intros x (_ & _ & _ & Hh & _).
    apply (Hh "X-Trace-ID"%string "abc"%string).
    + vm_compute. reflexivity.
    + intros k' _ Hk'. exact Hk'.
    + left. reflexivity.
  - apply Hsent; [cbn; lia | reflexivity |].
    intros v Hv. vm_compute in Hv. discriminate Hv.
Defined.

Lemma headers_reach_transport_witness :
  req_Header (new_request accept_GET []) !! "Accept"%string
  = Some ["text/plain"%string].
Proof.
  apply (headers_reach_transport accept_GET "Accept" "text/plain").
  - vm_compute. reflexivity.
  - intros k' _ Hk'. exact Hk'.
  - left. reflexivity.
Defined.

Lemma request_creation_fails_witness :
  ∃ w' : @World strict,
    @DoRequest strict strict_client 1 (Some 7) "BAD METHOD" "http://x/a" None
               None None strict_start
    = Some (@Returned strict None
              (Some (@failed_to_create_request strict
                       (@Foreign_error strict
                          "net/http: invalid method"%string))),
            w') ∧
    @transport_calls strict (@trace strict w') = 0%nat.
Proof.
  edestruct (@request_creation_fails strict strict_client 0 (Some 7)
               "BAD METHOD" "http://x/a" None None None strict_start)
    as (evs & Hrun & Htr & Hn & _);
    [cbn; lia | vm_compute; reflexivity | vm_compute; reflexivity |].
  eexists. split; [exact Hrun|]. rewrite Htr. exact Hn.
Defined.

Lemma transport_returns_nothing_witness :
  ∃ w' evs,
    retry_loop (bare silent) plain_GET [] None 1 0 None None start
    = (Done (Panicked "nil pointer dereference"), w') ∧
    trace w' = trace start ++ evs ∧ transport_calls evs = 1%nat.
Proof.
  edestruct (transport_returns_nothing (bare silent) plain_GET [] None 0 0
               None None start)
    as (w' & evs & Hrun & Htr & Hn & _);
    [cbn; lia | reflexivity | vm_compute; reflexivity |].
  exists w', evs. split; [exact Hrun|]. split; [exact Htr|exact Hn].
Defined.

Lemma body_read_fails_witness :
  ∃ resp w' evs,
    retry_loop (bare (scripted [broken])) plain_GET [] None 1 0 None None start
    = (Done (Returned (Some resp)
               (Some (failed_to_read_response_body
                        (Foreign_error "unexpected EOF"%string)))), w') ∧
    trace w' = trace start ++ evs ∧ AfterResponse_calls evs = [].
Proof.
  edestruct (body_read_fails (bare (scripted [broken])) plain_GET [] None 0 0
               None None start broken)
    as (w' & evs & Hrun & Htr & _ & _ & Ha & _);
    [cbn; lia | reflexivity | vm_compute; reflexivity | reflexivity |].
  eexists _, w', evs. split; [exact Hrun|]. split; [exact Htr|exact Ha].
Defined.

Lemma success_means_2xx_witness :
  ∃ resp w',
    DoRequest api_client 2 None "GET" "/items/1" None None None heap
    = Some (Returned resp None, w') ∧
    ∃ r, resp = Some r ∧ is_2xx (resp_StatusCode r) = true.
Proof.
  assert (Hsome : ∃ resp w', DoRequest api_client 2 None "GET" "/items/1" None
                               None None heap = Some (Returned resp None, w'))
    by (vm_compute; eexists _, _; reflexivity).
  destruct Hsome as (resp & w' & Hrun).
  destruct (success_means_2xx api_client 2 None "GET" "/items/1" None None None
              heap resp w' Hrun) as (r & evs & q & r0 & Hr & H2 & _).
  exists resp, w'. split; [exact Hrun|]. exists r. split; [exact Hr|exact H2].
Defined.

Lemma target_written_only_on_2xx_witness :
  ∃ o w',
    DoRequest (bare (scripted [response 404 oops])) 1 (Some 7) "GET"
              "http://x/a" None (Some string_pointer) None start
    = Some (o, w') ∧
    (stored w' = stored start ∨
     ∃ r, is_2xx (resp_StatusCode r) = true ∧
          (o = Returned (Some r) None ∨
           ∃ e, o = Returned (Some r) (Some (failed_to_decode_response e)))).
Proof.
  assert (Hsome : ∃ o w',
            DoRequest (bare (scripted [response 404 oops])) 1 (Some 7) "GET"
                      "http://x/a" None (Some string_pointer) None start
            = Some (o, w'))
    by (vm_compute; eexists _, _; reflexivity).
  destruct Hsome as (o & w' & Hrun).
  destruct (target_written_only_on_2xx _ _ _ _ _ _ _ _ _ _ _ Hrun) as [_ Hw].
  exists o, w'. split; [exact Hrun|exact Hw].
Defined.

Lemma attempts_are_logged_witness :
  ∃ o w' evs,
    DoRequest (SetLogger api_client (Some quiet_logger)) 2 None "GET"
              "/items/1" None None None heap = Some (o, w') ∧
    trace w' = trace heap ++ evs ∧
    attempt_numbers evs = seqZ 1 (Z.of_nat (transport_calls evs)) ∧
    failure_lines evs = Do_errors evs.
Proof.
  assert (Hsome : ∃ o w',
            DoRequest (SetLogger api_client (Some quiet_logger)) 2 None "GET"
                      "/items/1" None None None heap = Some (o, w'))
    by (vm_compute; eexists _, _; reflexivity).
  destruct Hsome as (o & w' & Hrun).
  destruct (attempts_are_logged (SetLogger api_client (Some quiet_logger)) 2
              None "GET" "/items/1" None None None heap o w' eq_refl Hrun)
    as (evs & Htr & Hl).
  exists o, w', evs. split; [exact Hrun|]. split; [exact Htr|exact Hl].
Defined.

Lemma errors_name_their_stage_witness :
  ∃ resp e w' evs,
    DoRequest (bare refusing) 1 (Some 7) "GET" "http://x/a" None None None start
    = Some (Returned resp (Some e), w') ∧
    trace w' = trace start ++ evs.
Proof.
  assert (Hsome : ∃ resp e w',
            DoRequest (bare refusing) 1 (Some 7) "GET" "http://x/a" None None
                      None start = Some (Returned resp (Some e), w'))
    by (vm_compute; eexists _, _, _; reflexivity).
  destruct Hsome as (resp & e & w' & Hrun).
  destruct (errors_name_their_stage _ _ _ _ _ _ _ _ _ _ _ _ Hrun)
    as (evs & Htr & _).
  exists resp, e, w', evs. split; [exact Hrun|exact Htr].
Defined.

Lemma sleeps_follow_retried_attempts_witness :
  ∃ o w' evs (k : nat) tail,
    DoRequest api_client 2 None "GET" "/items/1" None None None heap
    = Some (o, w') ∧
    trace w' = trace heap ++ evs ∧
    rhythm evs = flat_map (λ i, [None; Some (delay api_client i)])
                          (attempts (Z.of_nat k)) ++ tail.
Proof.
  assert (Hsome : ∃ o w', DoRequest api_client 2 None "GET" "/items/1" None
                            None None heap = Some (o, w'))
    by (vm_compute; eexists _, _; reflexivity).
  destruct Hsome as (o & w' & Hrun).
  destruct (sleeps_follow_retried_attempts api_client 2 None "GET" "/items/1"
              None None None heap o w' eq_refl Hrun)
    as (evs & k & tail & Htr & Hrh & _).
  exists o, w', evs, k, tail. split; [exact Hrun|]. split; [exact Htr|exact Hrh].
Defined.

Lemma NewClient_defaults_witness :
  ∃ c w1 o w' evs,
    NewClient refusing start = (Next c, w1) ∧
    DoRequest c 1 None "GET" "http://x/a" None None None w1 = Some (o, w') ∧
    trace w' = trace w1 ++ evs ∧ (transport_calls evs ≤ 1)%nat.
Proof.
  pose proof (NewClient_result refusing start) as HN. cbv zeta in HN.
  destruct (NewClient_defaults refusing start _ _ None "GET" "http://x/a" None
              None None HN) as (o & w' & evs & Hrun & Htr & Hn & _).
  eexists _, _, o, w', evs. split; [exact HN|]. split; [exact Hrun|].
  split; [exact Htr|exact Hn].
Defined.

Lemma hook_sees_each_response_witness :
  ∃ o w' evs,
    DoRequest (SetAfterResponseHook api_client (Some pass)) 2 None "GET"
              "/items/1" None None None heap = Some (o, w') ∧
    trace w' = trace heap ++ evs ∧
    map fst (AfterResponse_calls evs) = descriptors evs.
Proof.
  assert (Hsome : ∃ o w',
            DoRequest (SetAfterResponseHook api_client (Some pass)) 2 None
                      "GET" "/items/1" None None None heap = Some (o, w'))
    by (vm_compute; eexists _, _; reflexivity).
  destruct Hsome as (o & w' & Hrun).
  destruct (hook_sees_each_response
              (SetAfterResponseHook api_client (Some pass)) 2 None "GET"
              "/items/1" None None None heap o w' Hrun) as (evs & Htr & Hd).
  exists o, w', evs. split; [exact Hrun|]. split; [exact Htr|exact Hd].
Defined.
